(** * httpvcr: record and replay of HTTP exchanges

    A shallow embedding of the Go package [httpvcr] (request.go,
    response.go, cassette.go, httpvcr.go) and the properties of its
    capture, matching, storage and session code.

    Go strings are byte strings and are modelled by [string]; a [[]byte]
    is a [slice byte]; panics are an outcome of their own. *)

From Stdlib Require Import ZArith Lia Strings.String Strings.Ascii Strings.Byte Lists.List.
From Stdlib Require Import DecimalString DecimalZ DecimalPos.
From stdpp Require Import base option list gmap strings sorting.
Import ListNotations.

(* ================================================================== *)
(** * Part I: definitions                                              *)
(* ================================================================== *)

(** ** Go values *)

(** A Go slice is [nil] ([None]) or holds elements. [len] does not tell
    nil from empty, [reflect.DeepEqual] and [encoding/json] do. *)
Definition slice (A : Type) : Type := option (list A).

Definition elems {A : Type} (s : slice A) : list A := default [] s.

(** [append(s, x)]: the result is never nil. *)
Definition append {A : Type} (s : slice A) (x : A) : slice A :=
  Some (elems s ++ [x]).

(** [string(b)] and [[]byte(s)]. *)
Definition string_of_bytes (b : slice byte) : string :=
  string_of_list_byte (elems b).

Definition bytes_of_string (s : string) : list byte := list_byte_of_string s.

(** A function either returns or panics with a message. *)
Inductive outcome (A : Type) : Type :=
| Ok (a : A)
| Panic (msg : string).
Arguments Ok {A} a.
Arguments Panic {A} msg.

Definition outcome_bind {A B : Type} (c : outcome A) (k : A -> outcome B) : outcome B :=
  match c with
  | Ok a => k a
  | Panic msg => Panic msg
  end.

Notation "'do' x <- c ; k" := (outcome_bind c (fun x => k))
  (at level 10, x pattern, c at level 100, k at level 200).

Notation "'when' b 'then' c ; k" := (outcome_bind (if b then c else Ok tt) (fun _ => k))
  (at level 10, b at level 100, c at level 100, k at level 200).

(** ** io: byte streams *)

(** [bytes.Buffer] wrapped by [ioutil.NopCloser]: the bytes it was made
    over and the read offset. Every body stream is such a reader. *)
Record Buffer : Type := { buf : list byte; off : nat }.

Definition bytes_NewBuffer (b : slice byte) : Buffer := {| buf := elems b; off := 0 |}.

(** [ioutil.ReadAll]: the unread bytes, never nil, and the drained reader. *)
Definition ioutil_ReadAll (r : Buffer) : list byte * Buffer :=
  (drop (off r) (buf r), {| buf := buf r; off := Nat.max (off r) (length (buf r)) |}).

(** ** Bytes as numbers *)

Definition code (b : byte) : Z := Z.of_N (Byte.to_N b).

Definition byte_of_code (z : Z) : byte := default x00 (Byte.of_N (Z.to_N z)).

(** ** unicode/utf8 *)

Definition RuneError : Z := 0xFFFD.

(** The table [first] with [acceptRanges]: size and range of the second
    byte for a leading byte of a multi-byte sequence. *)
Definition utf8_first (p0 : Z) : option (nat * (Z * Z)) :=
  if (p0 <? 0xC2)%Z then None
  else if (p0 <? 0xE0)%Z then Some (2, (0x80, 0xBF)%Z)
  else if (p0 =? 0xE0)%Z then Some (3, (0xA0, 0xBF)%Z)
  else if (p0 =? 0xED)%Z then Some (3, (0x80, 0x9F)%Z)
  else if (p0 <? 0xF0)%Z then Some (3, (0x80, 0xBF)%Z)
  else if (p0 =? 0xF0)%Z then Some (4, (0x90, 0xBF)%Z)
  else if (p0 <? 0xF4)%Z then Some (4, (0x80, 0xBF)%Z)
  else if (p0 =? 0xF4)%Z then Some (4, (0x80, 0x8F)%Z)
  else None.

Definition outside (lo hi b : Z) : bool := (b <? lo)%Z || (hi <? b)%Z.

(** [utf8.DecodeRune]: the rune and its width; an invalid or short
    sequence gives [(RuneError, 1)]. *)
Definition utf8_DecodeRune (p : list byte) : Z * nat :=
  match p with
  | [] => (RuneError, 0)
  | p0 :: t =>
    let c0 := code p0 in
    match utf8_first c0 with
    | None => (if (c0 <? 0x80)%Z then c0 else RuneError, 1)
    | Some (sz, (lo, hi)) =>
      if length p <? sz then (RuneError, 1) else
      match t with
      | [] => (RuneError, 1)
      | b1 :: t1 =>
        let c1 := code b1 in
        if outside lo hi c1 then (RuneError, 1)
        else if sz <=? 2 then
          (Z.lor (Z.shiftl (Z.land c0 0x1F) 6) (Z.land c1 0x3F), 2)
        else
          match t1 with
          | [] => (RuneError, 1)
          | b2 :: t2 =>
            let c2 := code b2 in
            if outside 0x80 0xBF c2 then (RuneError, 1)
            else if sz <=? 3 then
              (Z.lor (Z.shiftl (Z.land c0 0x0F) 12)
                 (Z.lor (Z.shiftl (Z.land c1 0x3F) 6) (Z.land c2 0x3F)), 3)
            else
              match t2 with
              | [] => (RuneError, 1)
              | b3 :: _ =>
                let c3 := code b3 in
                if outside 0x80 0xBF c3 then (RuneError, 1)
                else
                  (Z.lor (Z.shiftl (Z.land c0 0x07) 18)
                     (Z.lor (Z.shiftl (Z.land c1 0x3F) 12)
                        (Z.lor (Z.shiftl (Z.land c2 0x3F) 6) (Z.land c3 0x3F))), 4)
              end
          end
      end
    end
  end.

(** [utf8.EncodeRune]; surrogates and runes out of range are written as
    [RuneError]. *)
Definition utf8_EncodeRune (r : Z) : list byte :=
  let r := if ((r <? 0) || (0x10FFFF <? r) || ((0xD800 <=? r) && (r <=? 0xDFFF)))%Z
           then RuneError else r in
  if (r <=? 0x7F)%Z then [byte_of_code r]
  else if (r <=? 0x7FF)%Z then
    [byte_of_code (Z.lor 0xC0 (Z.shiftr r 6));
     byte_of_code (Z.lor 0x80 (Z.land r 0x3F))]
  else if (r <=? 0xFFFF)%Z then
    [byte_of_code (Z.lor 0xE0 (Z.shiftr r 12));
     byte_of_code (Z.lor 0x80 (Z.land (Z.shiftr r 6) 0x3F));
     byte_of_code (Z.lor 0x80 (Z.land r 0x3F))]
  else
    [byte_of_code (Z.lor 0xF0 (Z.shiftr r 18));
     byte_of_code (Z.lor 0x80 (Z.land (Z.shiftr r 12) 0x3F));
     byte_of_code (Z.lor 0x80 (Z.land (Z.shiftr r 6) 0x3F));
     byte_of_code (Z.lor 0x80 (Z.land r 0x3F))].

(** [utf8.Valid]: [left] bytes of the current sequence are still to be
    passed, [0] at the start of one. *)
Fixpoint utf8_valid_scan (left : nat) (s : list byte) : bool :=
  match s with
  | [] => true
  | _ :: s' =>
    match left with
    | S k => utf8_valid_scan k s'
    | O =>
      let '(c, size) := utf8_DecodeRune s in
      if (c =? RuneError)%Z && (size =? 1) then false
      else utf8_valid_scan (size - 1) s'
    end
  end.

Definition utf8_Valid (s : list byte) : bool := utf8_valid_scan 0 s.

Definition utf8_ValidString (s : string) : bool := utf8_Valid (list_byte_of_string s).

(** ** bytes *)

#[global] Instance byte_eq_decision : EqDecision byte.
Proof.
  intros x y. destruct (Byte.eqb x y) eqn:E.
  - left. by apply byte_dec_bl.
  - right. by apply eqb_false.
Defined.

Fixpoint bytes_HasPrefix (s pre : list byte) {struct pre} : bool :=
  match pre, s with
  | [], _ => true
  | p :: pre', b :: s' => bool_decide (b = p) && bytes_HasPrefix s' pre'
  | _ :: _, [] => false
  end.

(** [bytes.Contains]. *)
Fixpoint bytes_Contains (s sub : list byte) : bool :=
  bytes_HasPrefix s sub ||
  match s with
  | [] => false
  | _ :: s' => bytes_Contains s' sub
  end.

(** [bytes.Count] for a non-empty separator: the occurrences that do not
    overlap, found left to right. [skip] bytes of a match are still to be
    passed. *)
Fixpoint count_scan (old : list byte) (skip : nat) (s : list byte) : nat :=
  match s with
  | [] => 0
  | _ :: s' =>
    match skip with
    | S k => count_scan old k s'
    | O => if bytes_HasPrefix s old
           then S (count_scan old (length old - 1) s')
           else count_scan old 0 s'
    end
  end.

(** The copy loop of [bytes.Replace] for a non-empty [old]. *)
Fixpoint replace_scan (old new : list byte) (skip : nat) (s : list byte) : list byte :=
  match s with
  | [] => []
  | b :: s' =>
    match skip with
    | S k => replace_scan old new k s'
    | O => if bytes_HasPrefix s old
           then new ++ replace_scan old new (length old - 1) s'
           else b :: replace_scan old new 0 s'
    end
  end.

(** The copy loop of [bytes.Replace] for an empty [old], which matches
    after every UTF-8 sequence: [left] bytes of the current sequence are
    still to be copied, [0] at the start of one. *)
Fixpoint replace_runes (new : list byte) (left : nat) (s : list byte) : list byte :=
  match s with
  | [] => []
  | b :: s' =>
    match (match left with O => snd (utf8_DecodeRune s) | S _ => left end) with
    | S (S k) => b :: replace_runes new (S k) s'
    | _ => b :: new ++ replace_runes new 0 s'
    end
  end.

(** [bytes.Replace(s, old, new, -1)]. Without a match the result is
    [append([]byte(nil), s...)], which is nil for an empty [s]. *)
Definition bytes_Replace (s : slice byte) (old new : list byte) : slice byte :=
  match old with
  | [] => Some (new ++ replace_runes new 0 (elems s))
  | _ :: _ =>
    match count_scan old 0 (elems s) with
    | O => match elems s with [] => None | _ :: _ => Some (elems s) end
    | S _ => Some (replace_scan old new 0 (elems s))
    end
  end.

(** [reflect.DeepEqual] at type [[]byte]. *)
Definition reflect_DeepEqual (a b : slice byte) : bool :=
  match a, b with
  | None, None => true
  | Some x, Some y => bool_decide (x = y)
  | _, _ => false
  end.

(** ** encoding/base64: the standard encoding with padding *)

Definition encodeStd : list byte :=
  list_byte_of_string "ABCDEFGHIJKLMNOPQRSTUVWXYZabcdefghijklmnopqrstuvwxyz0123456789+/".

Definition b64_char (i : Z) : byte := nth (Z.to_nat i) encodeStd x00.

Fixpoint index_of (b : byte) (l : list byte) : option Z :=
  match l with
  | [] => None
  | x :: l' => if Byte.eqb b x then Some 0%Z else Z.succ <$> index_of b l'
  end.

Definition b64_index (b : byte) : option Z := index_of b encodeStd.

Definition b64_pad : byte := "="%byte.

(** [base64.StdEncoding.EncodeToString]: three bytes give four symbols;
    the shifts and masks of the source are written as quotients and
    remainders. *)
Fixpoint base64_Encode (src : list byte) : list byte :=
  match src with
  | [] => []
  | [a] =>
    let a := code a in
    [b64_char (a / 4); b64_char (a mod 4 * 16); b64_pad; b64_pad]
  | [a; b] =>
    let a := code a in
    let b := code b in
    [b64_char (a / 4); b64_char (a mod 4 * 16 + b / 16); b64_char (b mod 16 * 4); b64_pad]
  | a :: b :: c :: rest =>
    let a := code a in
    let b := code b in
    let c := code c in
    b64_char (a / 4) :: b64_char (a mod 4 * 16 + b / 16)
      :: b64_char (b mod 16 * 4 + c / 64) :: b64_char (c mod 64)
      :: base64_Encode rest
  end%Z.

(** [base64.StdEncoding.DecodeString] on text without line breaks;
    [None] is a corrupt input. *)
Fixpoint base64_Decode (s : list byte) : option (list byte) :=
  match s with
  | [] => Some []
  | c1 :: c2 :: c3 :: c4 :: rest =>
    i1 ← b64_index c1;
    i2 ← b64_index c2;
    let b1 := byte_of_code (i1 * 4 + i2 / 16) in
    if Byte.eqb c4 b64_pad then
      match rest with
      | [] =>
        if Byte.eqb c3 b64_pad then Some [b1]
        else
          i3 ← b64_index c3;
          Some [b1; byte_of_code (i2 mod 16 * 16 + i3 / 4)]
      | _ :: _ => None
      end
    else
      i3 ← b64_index c3;
      i4 ← b64_index c4;
      tl ← base64_Decode rest;
      Some (b1 :: byte_of_code (i2 mod 16 * 16 + i3 / 4)
               :: byte_of_code (i3 mod 4 * 64 + i4) :: tl)
  | _ => None
  end%Z.

(** ** encoding/json: documents and their text *)

Unset Elimination Schemes.
Inductive json : Type :=
| JNull
| JBool (b : bool)
| JNumber (z : Z)
| JString (s : string)
| JArray (l : list json)
| JObject (l : list (string * json)).
Set Elimination Schemes.

(** *** Strings *)

Definition hex (n : Z) : byte :=
  nth (Z.to_nat n) (list_byte_of_string "0123456789abcdef") x00.

(** [htmlSafeSet]: the ASCII bytes written without escape. *)
Definition htmlSafe (c : Z) : bool :=
  ((0x20 <=? c) && (c <? 0x80) && negb (c =? 0x22) && negb (c =? 0x5C)
   && negb (c =? 0x3C) && negb (c =? 0x3E) && negb (c =? 0x26))%Z.

(** The escape of an ASCII byte; backspace and form feed are written as
    [\u0008] and [\u000c], as Go did before it gave them short forms. *)
Definition escape_ascii (b : byte) : list byte :=
  let c := code b in
  if htmlSafe c then [b]
  else if ((c =? 0x5C) || (c =? 0x22))%Z then [x5c; b]
  else if (c =? 0x0A)%Z then [x5c; "n"%byte]
  else if (c =? 0x0D)%Z then [x5c; "r"%byte]
  else if (c =? 0x09)%Z then [x5c; "t"%byte]
  else [x5c; "u"%byte; "0"%byte; "0"%byte; hex (c / 16); hex (c mod 16)].

(** Position inside a UTF-8 sequence: at its start, or with [k] more
    bytes of it to copy or to drop. *)
Inductive seqpos : Type :=
| AtStart
| Copying (k : nat)
| Dropping (k : nat).

Definition more (mk : nat -> seqpos) (k : nat) : seqpos :=
  match k with
  | O => AtStart
  | S _ => mk k
  end.

(** The loop of [appendString] with HTML escaping on, as [json.Marshal]
    runs it: an invalid byte becomes the escape of U+FFFD, U+2028 and U+2029 are
    escaped, other sequences are copied. *)
Fixpoint quote_scan (st : seqpos) (s : list byte) : list byte :=
  match s with
  | [] => []
  | b :: s' =>
    match st with
    | Copying k => b :: quote_scan (more Copying (k - 1)) s'
    | Dropping k => quote_scan (more Dropping (k - 1)) s'
    | AtStart =>
      if (code b <? 0x80)%Z then escape_ascii b ++ quote_scan AtStart s'
      else
        let '(c, size) := utf8_DecodeRune s in
        if (c =? RuneError)%Z && (size =? 1) then
          x5c :: list_byte_of_string "ufffd" ++ quote_scan AtStart s'
        else if ((c =? 0x2028) || (c =? 0x2029))%Z then
          x5c :: list_byte_of_string "u202" ++ hex (Z.land c 0xF)
            :: quote_scan (more Dropping (size - 1)) s'
        else b :: quote_scan (more Copying (size - 1)) s'
    end
  end.

Definition json_quote (s : string) : list byte :=
  x22 :: quote_scan AtStart (list_byte_of_string s) ++ [x22].

Definition hex_value (b : byte) : option Z :=
  let c := code b in
  if ((0x30 <=? c) && (c <=? 0x39))%Z then Some (c - 0x30)%Z
  else if ((0x61 <=? c) && (c <=? 0x66))%Z then Some (c - 0x61 + 10)%Z
  else if ((0x41 <=? c) && (c <=? 0x46))%Z then Some (c - 0x41 + 10)%Z
  else None.

Inductive unquote_state : Type :=
| InText (p : seqpos)
| InEscape
| InHex (k : nat) (acc : Z).

Definition emit (out : list byte) (r : option (list byte * list byte))
  : option (list byte * list byte) :=
  '(tl, rest) ← r; Some (out ++ tl, rest).

(** [unquote], entered after the opening quote: the text of the literal
    and the input after its closing quote. A valid UTF-8 sequence is
    copied, which is what decoding and encoding it again gives; an escape
    of a surrogate half is not modelled and is refused. *)
Fixpoint unquote_scan (st : unquote_state) (s : list byte) : option (list byte * list byte) :=
  match s with
  | [] => None
  | b :: s' =>
    let c := code b in
    match st with
    | InText (Copying k) => emit [b] (unquote_scan (InText (more Copying (k - 1))) s')
    | InText (Dropping k) => unquote_scan (InText (more Dropping (k - 1))) s'
    | InText AtStart =>
      if (c =? 0x22)%Z then Some ([], s')
      else if (c =? 0x5C)%Z then unquote_scan InEscape s'
      else if (c <? 0x20)%Z then None
      else if (c <? 0x80)%Z then emit [b] (unquote_scan (InText AtStart) s')
      else
        let '(r, size) := utf8_DecodeRune s in
        if (r =? RuneError)%Z && (size =? 1) then
          emit (utf8_EncodeRune RuneError) (unquote_scan (InText AtStart) s')
        else emit [b] (unquote_scan (InText (more Copying (size - 1))) s')
    | InEscape =>
      if ((c =? 0x22) || (c =? 0x5C) || (c =? 0x2F))%Z then
        emit [b] (unquote_scan (InText AtStart) s')
      else if (c =? 0x62)%Z then emit [x08] (unquote_scan (InText AtStart) s')
      else if (c =? 0x66)%Z then emit [x0c] (unquote_scan (InText AtStart) s')
      else if (c =? 0x6E)%Z then emit [x0a] (unquote_scan (InText AtStart) s')
      else if (c =? 0x72)%Z then emit [x0d] (unquote_scan (InText AtStart) s')
      else if (c =? 0x74)%Z then emit [x09] (unquote_scan (InText AtStart) s')
      else if (c =? 0x75)%Z then unquote_scan (InHex 4 0) s'
      else None
    | InHex k acc =>
      d ← hex_value b;
      let acc := (acc * 16 + d)%Z in
      match k with
      | S (S k') => unquote_scan (InHex (S k') acc) s'
      | _ =>
        if ((0xD800 <=? acc) && (acc <=? 0xDFFF))%Z then None
        else emit (utf8_EncodeRune acc) (unquote_scan (InText AtStart) s')
      end
    end
  end.

(** *** Numbers *)

Definition is_digit (b : byte) : bool := ((0x30 <=? code b) && (code b <=? 0x39))%Z.

Fixpoint span_digits (s : list byte) : list byte * list byte :=
  match s with
  | [] => ([], [])
  | b :: s' =>
    if is_digit b then let '(d, r) := span_digits s' in (b :: d, r)
    else ([], s)
  end.

(** [strconv.AppendInt(_, z, 10)]. *)
Definition render_int (z : Z) : list byte :=
  list_byte_of_string (NilZero.string_of_int (Z.to_int z)).

(** The byte after an integer literal: not one that would continue it. *)
Definition number_end (s : list byte) : bool :=
  match s with
  | [] => true
  | b :: _ => negb (is_digit b || (code b =? 0x2E) || (code b =? 0x65) || (code b =? 0x45))%Z
  end.

(** An integer literal: sign and digits. Literals with a fraction or an
    exponent, which no integer field accepts, are refused. *)
Definition scan_int (s : list byte) : option (Z * list byte) :=
  let '(sign, s1) :=
    match s with
    | b :: s' => if (code b =? 0x2D)%Z then ([b], s') else ([], s)
    | [] => ([], s)
    end in
  let '(digits, rest) := span_digits s1 in
  if number_end rest then
    i ← NilZero.int_of_string (string_of_list_byte (sign ++ digits));
    Some (Z.of_int i, rest)
  else None.

(** *** Layout *)

Definition is_space (b : byte) : bool :=
  ((code b =? 0x20) || (code b =? 0x09) || (code b =? 0x0A) || (code b =? 0x0D))%Z.

Fixpoint skip_space (s : list byte) : list byte :=
  match s with
  | b :: s' => if is_space b then skip_space s' else s
  | [] => []
  end.

(** [newline] of [json.Indent] with prefix [""] and indent ["  "]. *)
Definition newline (depth : nat) : list byte :=
  x0a :: concat (replicate depth [x20; x20]).

(** The text [json.Indent(_, json.Marshal(v), "", "  ")] leaves for the
    document of [v]: a member or element per line, [": "] after a key,
    empty arrays and objects closed at once. *)
Fixpoint json_render (depth : nat) (j : json) : list byte :=
  match j with
  | JNull => list_byte_of_string "null"
  | JBool true => list_byte_of_string "true"
  | JBool false => list_byte_of_string "false"
  | JNumber z => render_int z
  | JString s => json_quote s
  | JArray [] => list_byte_of_string "[]"
  | JArray (x :: xs) =>
    "["%byte :: newline (S depth) ++ json_render (S depth) x
      ++ (fix elements (l : list json) : list byte :=
            match l with
            | [] => []
            | y :: l' => ","%byte :: newline (S depth) ++ json_render (S depth) y ++ elements l'
            end) xs
      ++ newline depth ++ ["]"%byte]
  | JObject [] => list_byte_of_string "{}"
  | JObject ((k, v) :: kvs) =>
    "{"%byte :: newline (S depth) ++ json_quote k ++ [":"%byte; x20] ++ json_render (S depth) v
      ++ (fix members (l : list (string * json)) : list byte :=
            match l with
            | [] => []
            | (k', v') :: l' =>
              ","%byte :: newline (S depth) ++ json_quote k' ++ [":"%byte; x20]
                ++ json_render (S depth) v' ++ members l'
            end) kvs
      ++ newline depth ++ ["}"%byte]
  end.

(** The elements after the first and the members after the first, as
    [json_render] lays them out. *)
Fixpoint render_elements (depth : nat) (l : list json) : list byte :=
  match l with
  | [] => []
  | y :: l' =>
    ","%byte :: newline (S depth) ++ json_render (S depth) y ++ render_elements depth l'
  end.

Fixpoint render_members (depth : nat) (l : list (string * json)) : list byte :=
  match l with
  | [] => []
  | (k, v) :: l' =>
    ","%byte :: newline (S depth) ++ json_quote k ++ [":"%byte; x20]
      ++ json_render (S depth) v ++ render_members depth l'
  end.

(** The first byte of a rendered document: not a blank, not a closing
    bracket or brace. *)
Definition opens_value (b : byte) : Prop :=
  (code b <> 0x20 /\ code b <> 0x09 /\ code b <> 0x0A /\ code b <> 0x0D /\
   code b <> 0x5D /\ code b <> 0x7D)%Z.

(** Every string and member name of a document is valid UTF-8. *)
Fixpoint json_text_valid (j : json) : bool :=
  match j with
  | JString s => utf8_ValidString s
  | JArray l => forallb json_text_valid l
  | JObject l => forallb (fun kv => utf8_ValidString (fst kv) && json_text_valid (snd kv)) l
  | _ => true
  end.

(** *** Reading a document *)

Definition expect (word : string) (v : json) (s : list byte) : option (json * list byte) :=
  if bytes_HasPrefix s (list_byte_of_string word)
  then Some (v, drop (String.length word) s) else None.

(** A recursive-descent reader; [fuel] bounds the number of values and
    list cells visited. *)
Fixpoint json_parse (fuel : nat) (s : list byte) : option (json * list byte) :=
  match fuel with
  | O => None
  | S fuel =>
    match skip_space s with
    | [] => None
    | b :: r =>
      let c := code b in
      if (c =? 0x6E)%Z then expect "null" JNull (b :: r)
      else if (c =? 0x74)%Z then expect "true" (JBool true) (b :: r)
      else if (c =? 0x66)%Z then expect "false" (JBool false) (b :: r)
      else if (c =? 0x22)%Z then
        '(text, rest) ← unquote_scan (InText AtStart) r;
        Some (JString (string_of_list_byte text), rest)
      else if (c =? 0x5B)%Z then
        match skip_space r with
        | b' :: r' =>
          if (code b' =? 0x5D)%Z then Some (JArray [], r')
          else '(l, rest) ← parse_elements fuel r; Some (JArray l, rest)
        | [] => None
        end
      else if (c =? 0x7B)%Z then
        match skip_space r with
        | b' :: r' =>
          if (code b' =? 0x7D)%Z then Some (JObject [], r')
          else '(l, rest) ← parse_members fuel r; Some (JObject l, rest)
        | [] => None
        end
      else
        '(z, rest) ← scan_int (b :: r);
        Some (JNumber z, rest)
    end
  end
with parse_elements (fuel : nat) (s : list byte) : option (list json * list byte) :=
  match fuel with
  | O => None
  | S fuel =>
    '(v, r) ← json_parse fuel s;
    match skip_space r with
    | b :: r' =>
      if (code b =? 0x2C)%Z then
        '(l, rest) ← parse_elements fuel r'; Some (v :: l, rest)
      else if (code b =? 0x5D)%Z then Some ([v], r')
      else None
    | [] => None
    end
  end
with parse_members (fuel : nat) (s : list byte) : option (list (string * json) * list byte) :=
  match fuel with
  | O => None
  | S fuel =>
    match skip_space s with
    | q :: r0 =>
      if (code q =? 0x22)%Z then
        '(key, r1) ← unquote_scan (InText AtStart) r0;
        match skip_space r1 with
        | colon :: r2 =>
          if (code colon =? 0x3A)%Z then
            '(v, r) ← json_parse fuel r2;
            match skip_space r with
            | b :: r' =>
              if (code b =? 0x2C)%Z then
                '(l, rest) ← parse_members fuel r';
                Some ((string_of_list_byte key, v) :: l, rest)
              else if (code b =? 0x7D)%Z then Some ([(string_of_list_byte key, v)], r')
              else None
            | [] => None
            end
          else None
        | [] => None
        end
      else None
    | [] => None
    end
  end.

(** A whole text holds one document and, after it, blanks only. *)
Definition json_decode (s : list byte) : option json :=
  '(j, rest) ← json_parse (S (length s)) s;
  match skip_space rest with
  | [] => Some j
  | _ :: _ => None
  end.

(** ** net/http *)

(** [http.Header]: a nil or allocated map from names to value lists. *)
Abbreviation http_Header := (option (gmap string (slice string))).

(** [*http.Request], with [URL] kept as the text [request.URL.String()]
    gives; [Request_Body] is [None] for a nil body. *)
Record http_Request : Type := {
  Request_Method : string;
  Request_URL : string;
  Request_Header : http_Header;
  Request_ContentLength : Z;
  Request_Body : option Buffer
}.

Record http_Response : Type := {
  Response_Status : string;
  Response_StatusCode : Z;
  Response_Proto : string;
  Response_ProtoMajor : Z;
  Response_ProtoMinor : Z;
  Response_Header : http_Header;
  Response_ContentLength : Z;
  Response_Body : option Buffer
}.

(** ** request.go *)

Record VCRRequest : Type := {
  (* Header is intentionally not included and is not used for episode matching *)
  Method : string;
  URL : string;
  Body : slice byte
}.

(** The filter map is given as the list of its entries in the order the
    [range] statement of one capture visits them. Go leaves that order
    open and picks it anew for each loop: a statement about one capture
    that holds for every list holds for every order, and a statement
    about two captures gives each a list of its own, the one a
    permutation of the other. *)
Abbreviation filter_map := (list (string * string)).

Definition apply_filters (filterMap : filter_map) (body : slice byte) : slice byte :=
  foldl (fun body '(original, replacement) =>
           bytes_Replace body (bytes_of_string original) (bytes_of_string replacement))
        body filterMap.

(** [newVCRRequest]: the snapshot, and the request as the call leaves it. *)
Definition newVCRRequest (request : http_Request) (filterMap : filter_map)
  : VCRRequest * http_Request :=
  let '(body, request) :=
    match Request_Body request with
    | Some rd =>
      let body := Some (fst (ioutil_ReadAll rd)) in
      let request :=
        {| Request_Method := Request_Method request;
           Request_URL := Request_URL request;
           Request_Header := Request_Header request;
           Request_ContentLength := Request_ContentLength request;
           Request_Body := Some (bytes_NewBuffer body) |} in
      (apply_filters filterMap body, request)
    | None => (None, request)
    end in
  ({| Method := Request_Method request;
      URL := Request_URL request;
      Body := body |}, request).

(** ** response.go *)

Record VCRResponse : Type := {
  Status : string;
  StatusCode : Z;
  ContentLength : Z;
  Header : http_Header;
  ResponseBody : slice byte
}.

Definition newVCRResponse (response : http_Response) : VCRResponse :=
  let body :=
    match Response_Body response with
    | Some rd => Some (fst (ioutil_ReadAll rd))
    | None => None
    end in
  {| Status := Response_Status response;
     StatusCode := Response_StatusCode response;
     Header := Response_Header response;
     ContentLength := Response_ContentLength response;
     ResponseBody := body |}.

Definition httpResponse (vr : VCRResponse) : http_Response :=
  {| Response_Status := Status vr;
     Response_StatusCode := StatusCode vr;
     Response_Proto := "HTTP/1.0";
     Response_ProtoMajor := 1;
     Response_ProtoMinor := 0;
     Response_Header := Header vr;
     Response_ContentLength := ContentLength vr;
     Response_Body := Some (bytes_NewBuffer (ResponseBody vr)) |}.

(** ** cassette.go: episodes and the default matcher *)

(** The two snapshots of an episode are always present: [RoundTrip]
    builds both before it appends the episode. In cassette.go they are
    pointers, and nil only in an episode loaded from a file written by
    hand that leaves a snapshot out or gives [null] for it; such a file
    has no counterpart here. *)
Record Episode : Type := {
  Request : VCRRequest;
  Response : VCRResponse
}.

Record DefaultEpisodeMatcher : Type := {
  episodes : slice Episode
}.

Definition Init (m : DefaultEpisodeMatcher) (episodes : slice Episode) : DefaultEpisodeMatcher :=
  {| episodes := episodes |}.

Definition nl : string := String "010" EmptyString.

Definition panicEpisodeMismatch {A : Type} (request : VCRRequest)
    (field expected actual : string) : outcome A :=
  Panic ("httpvcr: problem with episode for " +:+ Method request +:+ " " +:+ URL request
         +:+ nl +:+ "  episode " +:+ field +:+ " does not match:"
         +:+ nl +:+ "  expected: " +:+ expected
         +:+ nl +:+ "  but got: " +:+ actual).

Definition MatchEpisode (m : DefaultEpisodeMatcher) (request : VCRRequest)
  : outcome (Episode * DefaultEpisodeMatcher) :=
  match elems (episodes m) with
  | [] => Panic "httpvcr: no more episodes!"
  | e :: rest =>
    let expected := Request e in
    when negb (String.eqb (Method expected) (Method request))
      then panicEpisodeMismatch request "Method" (Method expected) (Method request);
    when negb (String.eqb (URL expected) (URL request))
      then panicEpisodeMismatch request "URL" (URL expected) (URL request);
    when negb (reflect_DeepEqual (Body expected) (Body request))
      then panicEpisodeMismatch request "Body"
             (string_of_bytes (Body expected)) (string_of_bytes (Body request));
    Ok (e, {| episodes := Some rest |})
  end.

(** ** cassette.go: the cassette and its persisted form *)

(** [episodeMatcher] has interface type [EpisodeMatcher]; the package has
    one implementation, [DefaultEpisodeMatcher], which is the one kept
    here. *)
Record cassette : Type := {
  name : string;
  Episodes : slice Episode;
  Gzip : bool;
  episodeMatcher : DefaultEpisodeMatcher
}.

Definition Name (c : cassette) : string := name c.

Definition Filename (c : cassette) : string :=
  if Gzip c then "fixtures/vcr/" +:+ name c +:+ ".json.gz"
  else "fixtures/vcr/" +:+ name c +:+ ".json".

Definition matchEpisode (c : cassette) (request : VCRRequest) : outcome (Episode * cassette) :=
  do (e, m) <- MatchEpisode (episodeMatcher c) request;
  Ok (e, {| name := name c; Episodes := Episodes c; Gzip := Gzip c; episodeMatcher := m |}).

(** *** [json.Marshal]: from values to documents

    Exported fields in declaration order under their own names, a
    [[]byte] as base64 text, nil slices and maps as [null], the names of
    a map in byte order. *)

Definition json_of_bytes (b : slice byte) : json :=
  match b with
  | None => JNull
  | Some l => JString (string_of_list_byte (base64_Encode l))
  end.

Definition json_of_strings (l : slice string) : json :=
  match l with
  | None => JNull
  | Some l => JArray (JString <$> l)
  end.

Definition key_le (x y : string * slice string) : Prop := String.leb (fst x) (fst y).

#[global] Instance key_le_dec : RelDecision key_le.
Proof. intros x y. unfold key_le. apply _. Defined.

Definition json_of_Header (h : http_Header) : json :=
  match h with
  | None => JNull
  | Some m =>
    JObject ((fun kv => (fst kv, json_of_strings (snd kv))) <$> merge_sort key_le (map_to_list m))
  end.

Definition json_of_VCRRequest (r : VCRRequest) : json :=
  JObject [("Method", JString (Method r));
           ("URL", JString (URL r));
           ("Body", json_of_bytes (Body r))].

Definition json_of_VCRResponse (r : VCRResponse) : json :=
  JObject [("Status", JString (Status r));
           ("StatusCode", JNumber (StatusCode r));
           ("ContentLength", JNumber (ContentLength r));
           ("Header", json_of_Header (Header r));
           ("Body", json_of_bytes (ResponseBody r))].

Definition json_of_Episode (e : Episode) : json :=
  JObject [("Request", json_of_VCRRequest (Request e));
           ("Response", json_of_VCRResponse (Response e))].

(** [name] and [episodeMatcher] are not exported and are left out. *)
Definition json_of_cassette (c : cassette) : json :=
  JObject [("Episodes",
            match Episodes c with
            | None => JNull
            | Some l => JArray (json_of_Episode <$> l)
            end);
           ("Gzip", JBool (Gzip c))].

(** *** [json.Unmarshal]: from documents to values

    Members are taken in order, each into the field of its name; other
    names are skipped; [null] leaves a string, number or boolean as it is
    and makes a slice or map nil. Names are compared exactly, numbers are
    not checked against the range of the field, and an episode with a
    [null] or missing snapshot, which [Episode] cannot hold, is refused
    where Go loads it with a nil pointer. The elements
    of the episode array are decoded into new values, which is what Go
    does for a cassette that holds no episode yet, as [New] leaves it.
    [None] is a decoding error. *)

Fixpoint fill {A : Type} (member : A -> string * json -> option A)
    (l : list (string * json)) (a : A) : option A :=
  match l with
  | [] => Some a
  | kv :: l' => a' ← member a kv; fill member l' a'
  end.

Definition string_of_json (old : string) (j : json) : option string :=
  match j with
  | JString s => Some s
  | JNull => Some old
  | _ => None
  end.

Definition int_of_json (old : Z) (j : json) : option Z :=
  match j with
  | JNumber z => Some z
  | JNull => Some old
  | _ => None
  end.

Definition bool_of_json (old : bool) (j : json) : option bool :=
  match j with
  | JBool b => Some b
  | JNull => Some old
  | _ => None
  end.

Definition bytes_of_json (j : json) : option (slice byte) :=
  match j with
  | JString s => Some <$> base64_Decode (list_byte_of_string s)
  | JNull => Some None
  | _ => None
  end.

Definition strings_of_json (j : json) : option (slice string) :=
  match j with
  | JArray l => Some <$> mapM (string_of_json "") l
  | JNull => Some None
  | _ => None
  end.

Definition Header_member (m : gmap string (slice string)) (kv : string * json)
  : option (gmap string (slice string)) :=
  v ← strings_of_json (snd kv); Some (<[fst kv := v]> m).

Definition Header_of_json (old : http_Header) (j : json) : option http_Header :=
  match j with
  | JObject l => Some <$> fill Header_member l (default ∅ old)
  | JNull => Some None
  | _ => None
  end.

Definition VCRRequest_member (r : VCRRequest) (kv : string * json) : option VCRRequest :=
  let '(k, v) := kv in
  if String.eqb k "Method" then
    s ← string_of_json (Method r) v; Some {| Method := s; URL := URL r; Body := Body r |}
  else if String.eqb k "URL" then
    s ← string_of_json (URL r) v; Some {| Method := Method r; URL := s; Body := Body r |}
  else if String.eqb k "Body" then
    b ← bytes_of_json v; Some {| Method := Method r; URL := URL r; Body := b |}
  else Some r.

Definition VCRResponse_member (r : VCRResponse) (kv : string * json) : option VCRResponse :=
  let '(k, v) := kv in
  if String.eqb k "Status" then
    s ← string_of_json (Status r) v;
    Some {| Status := s; StatusCode := StatusCode r; ContentLength := ContentLength r;
            Header := Header r; ResponseBody := ResponseBody r |}
  else if String.eqb k "StatusCode" then
    z ← int_of_json (StatusCode r) v;
    Some {| Status := Status r; StatusCode := z; ContentLength := ContentLength r;
            Header := Header r; ResponseBody := ResponseBody r |}
  else if String.eqb k "ContentLength" then
    z ← int_of_json (ContentLength r) v;
    Some {| Status := Status r; StatusCode := StatusCode r; ContentLength := z;
            Header := Header r; ResponseBody := ResponseBody r |}
  else if String.eqb k "Header" then
    h ← Header_of_json (Header r) v;
    Some {| Status := Status r; StatusCode := StatusCode r; ContentLength := ContentLength r;
            Header := h; ResponseBody := ResponseBody r |}
  else if String.eqb k "Body" then
    b ← bytes_of_json v;
    Some {| Status := Status r; StatusCode := StatusCode r; ContentLength := ContentLength r;
            Header := Header r; ResponseBody := b |}
  else Some r.

Definition zero_VCRRequest : VCRRequest := {| Method := ""; URL := ""; Body := None |}.

Definition zero_VCRResponse : VCRResponse :=
  {| Status := ""; StatusCode := 0; ContentLength := 0; Header := None; ResponseBody := None |}.

(** The two pointers of an episode under decoding: nil until a member
    allocates them. *)
Definition Episode_member (e : option VCRRequest * option VCRResponse) (kv : string * json)
  : option (option VCRRequest * option VCRResponse) :=
  let '(k, v) := kv in
  if String.eqb k "Request" then
    match v with
    | JObject l => r ← fill VCRRequest_member l (default zero_VCRRequest (fst e)); Some (Some r, snd e)
    | _ => None
    end
  else if String.eqb k "Response" then
    match v with
    | JObject l => r ← fill VCRResponse_member l (default zero_VCRResponse (snd e)); Some (fst e, Some r)
    | _ => None
    end
  else Some e.

Definition Episode_of_json (j : json) : option Episode :=
  match j with
  | JObject l =>
    e ← fill Episode_member l (None, None);
    req ← fst e; res ← snd e;
    Some {| Request := req; Response := res |}
  | _ => None
  end.

Definition cassette_member (c : cassette) (kv : string * json) : option cassette :=
  let '(k, v) := kv in
  if String.eqb k "Episodes" then
    match v with
    | JArray l =>
      es ← mapM Episode_of_json l;
      Some {| name := name c; Episodes := Some es; Gzip := Gzip c;
              episodeMatcher := episodeMatcher c |}
    | JNull =>
      Some {| name := name c; Episodes := None; Gzip := Gzip c;
              episodeMatcher := episodeMatcher c |}
    | _ => None
    end
  else if String.eqb k "Gzip" then
    b ← bool_of_json (Gzip c) v;
    Some {| name := name c; Episodes := Episodes c; Gzip := b;
            episodeMatcher := episodeMatcher c |}
  else Some c.

(** [json.Unmarshal(data, c)]. *)
Definition json_Unmarshal (data : list byte) (c : cassette) : option cassette :=
  j ← json_decode data;
  match j with
  | JObject l => fill cassette_member l c
  | JNull => Some c
  | _ => None
  end.

(** ** The world outside: files, compression, transports *)

Inductive node : Type :=
| File (data : list byte)
| Dir.

(** The file tree as a map from path to node; paths are compared as
    written, so a name with a [.], [..] or empty segment, which the
    system would resolve, names no node of the tree. *)
Abbreviation filesystem := (gmap string node).

(** The directory part of a path, [None] for a path without separator. *)
Fixpoint dirname (p : string) : option string :=
  match p with
  | EmptyString => None
  | String a p' =>
    match dirname p' with
    | Some d => Some (String a d)
    | None => if Ascii.eqb a "/" then Some EmptyString else None
    end
  end.

Definition parent_is_dir (fs : filesystem) (p : string) : bool :=
  match dirname p with
  | None | Some EmptyString => true
  | Some d => match fs !! d with Some Dir => true | _ => false end
  end.

Definition os_Mkdir (fs : filesystem) (p : string) : option filesystem :=
  match fs !! p with
  | Some Dir => Some fs
  | Some (File _) => None
  | None => if parent_is_dir fs p then Some (<[p := Dir]> fs) else None
  end.

(** [os.MkdirAll("fixtures/vcr", 0755)], its error dropped as in [write]. *)
Definition os_MkdirAll_fixtures_vcr (fs : filesystem) : filesystem :=
  match os_Mkdir fs "fixtures" with
  | Some fs1 => default fs1 (os_Mkdir fs1 "fixtures/vcr")
  | None => fs
  end.

(** [os.Stat] succeeds. *)
Definition os_Stat_ok (fs : filesystem) (p : string) : bool :=
  match fs !! p with
  | Some _ => true
  | None => false
  end.

(** [ioutil.ReadFile] with its error dropped as in [read]: no bytes for
    a missing file or a directory. *)
Definition ioutil_ReadFile (fs : filesystem) (p : string) : list byte :=
  match fs !! p with
  | Some (File data) => data
  | _ => []
  end.

(** A path can be written when no directory sits at it and its parent is
    a directory, for the cassette names that are plain file names. *)
Definition writable (fs : filesystem) (p : string) : bool :=
  match fs !! p with
  | Some Dir => false
  | _ => parent_is_dir fs p
  end.

Definition ioutil_WriteFile (fs : filesystem) (p : string) (data : list byte)
  : option filesystem :=
  if writable fs p then Some (<[p := File data]> fs) else None.

(** [compress/gzip], outside the package: what the writer leaves for a
    text, and what reading a stream back gives. *)
Inductive gunzip_result : Type :=
| Inflated (data : list byte)
| BadHeader
| BadStream.

Record Compressor : Type := {
  gzip_deflate : list byte -> list byte;
  gzip_inflate : list byte -> gunzip_result
}.

Definition error : Type := string.

(** A transport answers a request with a response or an error; [Self]
    is the recorder itself installed as transport. *)
Inductive RoundTripper : Type :=
| Transport (perform : http_Request -> http_Response + error)
| Self.

Record World : Type := {
  fs : filesystem;
  gzip : Compressor;
  http_DefaultTransport : RoundTripper
}.

Definition with_fs (w : World) (fs' : filesystem) : World :=
  {| fs := fs'; gzip := gzip w; http_DefaultTransport := http_DefaultTransport w |}.

Definition with_DefaultTransport (w : World) (t : RoundTripper) : World :=
  {| fs := fs w; gzip := gzip w; http_DefaultTransport := t |}.

Definition nil_dereference : string :=
  "runtime error: invalid memory address or nil pointer dereference".

(** ** cassette.go: the store *)

Definition Exists (c : cassette) (w : World) : bool := os_Stat_ok (fs w) (Filename c).

(** [gunzipWrite]: a stream whose header is refused leaves a nil reader,
    which the deferred [Close] dereferences. *)
Definition gunzipWrite (w : World) (data : list byte) : outcome (option (list byte)) :=
  match gzip_inflate (gzip w) data with
  | Inflated d => Ok (Some d)
  | BadStream => Ok None
  | BadHeader => Panic nil_dereference
  end.

Definition gzipWrite (w : World) (data : list byte) : list byte :=
  gzip_deflate (gzip w) data.

Definition read (c : cassette) (w : World) : outcome cassette :=
  let fileData := ioutil_ReadFile (fs w) (Filename c) in
  do jsonData <-
    (if Gzip c then
       do r <- gunzipWrite w fileData;
       match r with
       | Some d => Ok d
       | None => Panic "httpvcr: gzip read failed"
       end
     else Ok fileData);
  match json_Unmarshal jsonData c with
  | None => Panic "httpvcr: cannot parse json!"
  | Some c' =>
    Ok {| name := name c'; Episodes := Episodes c'; Gzip := Gzip c';
          episodeMatcher := Init (episodeMatcher c') (Episodes c') |}
  end.

Definition write (c : cassette) (w : World) : outcome World :=
  let jsonOut := json_render 0 (json_of_cassette c) in
  let fs1 := os_MkdirAll_fixtures_vcr (fs w) in
  let fileOut := if Gzip c then gzipWrite w jsonOut else jsonOut in
  match ioutil_WriteFile fs1 (Filename c) fileOut with
  | None => Panic "httpvcr: cannot write cassette file!"
  | Some fs2 => Ok (with_fs w fs2)
  end.

(** ** httpvcr.go: the session *)

Inductive Mode : Type := ModeStopped | ModeRecord | ModeReplay.

#[global] Instance Mode_eq_dec : EqDecision Mode.
Proof. solve_decision. Defined.

Record Options : Type := { HTTPDefaultOverride : bool }.

Definition DefaultOptions : Options := {| HTTPDefaultOverride := true |}.

(** [ctx.Err()] of the session context. *)
Inductive ctx_err : Type := NoError | Canceled | DeadlineExceeded.

(** The session, in the version of httpvcr.go that has the session
    context; the versions without it differ by the context check and the
    closing [Stop] of [RoundTrip] only. [ctx] is [None] until the first
    [Start]; the mutex is left out, the calls being taken one at a time. *)
Record HTTPVCR : Type := {
  options : Options;
  ctx : option ctx_err;
  mode : Mode;
  Cassette : cassette;
  FilterMap : filter_map;
  RequestModifier : option (http_Request -> http_Request);
  originalTransport : option RoundTripper
}.

(** [New]. The matcher of the cassette is allocated, a queue not yet
    set, as [read] and [matchEpisode] of cassette.go need it; [New] as
    httpvcr.go has it builds the cassette from its name alone and leaves
    the matcher to the package. *)
Definition New (cassetteName : string) (opts : list Options) : HTTPVCR :=
  {| options := match opts with o :: _ => o | [] => DefaultOptions end;
     ctx := None;
     mode := ModeStopped;
     Cassette := {| name := cassetteName; Episodes := None; Gzip := false;
                    episodeMatcher := {| episodes := None |} |};
     FilterMap := [];
     RequestModifier := None;
     originalTransport := None |}.

Definition set_mode (v : HTTPVCR) (m : Mode) : HTTPVCR :=
  {| options := options v; ctx := ctx v; mode := m; Cassette := Cassette v;
     FilterMap := FilterMap v; RequestModifier := RequestModifier v;
     originalTransport := originalTransport v |}.

Definition set_ctx (v : HTTPVCR) (c : option ctx_err) : HTTPVCR :=
  {| options := options v; ctx := c; mode := mode v; Cassette := Cassette v;
     FilterMap := FilterMap v; RequestModifier := RequestModifier v;
     originalTransport := originalTransport v |}.

Definition set_Cassette (v : HTTPVCR) (c : cassette) : HTTPVCR :=
  {| options := options v; ctx := ctx v; mode := mode v; Cassette := c;
     FilterMap := FilterMap v; RequestModifier := RequestModifier v;
     originalTransport := originalTransport v |}.

Definition set_originalTransport (v : HTTPVCR) (t : option RoundTripper) : HTTPVCR :=
  {| options := options v; ctx := ctx v; mode := mode v; Cassette := Cassette v;
     FilterMap := FilterMap v; RequestModifier := RequestModifier v;
     originalTransport := t |}.

(** [Start(ctx)]; [parent] is the state of the context passed in. *)
Definition Start (v : HTTPVCR) (parent : ctx_err) (w : World) : outcome (HTTPVCR * World) :=
  when negb (bool_decide (mode v = ModeStopped))
    then Panic "httpvcr: session already started!";
  let v := set_ctx v (Some parent) in
  let v := set_originalTransport v (Some (http_DefaultTransport w)) in
  let w := if HTTPDefaultOverride (options v) then with_DefaultTransport w Self else w in
  if Exists (Cassette v) w then
    let v := set_mode v ModeReplay in
    do c <- read (Cassette v) w;
    Ok (set_Cassette v c, w)
  else Ok (set_mode v ModeRecord, w).

(** [v.ctxCancel()]: a nil function before the first [Start]. *)
Definition ctxCancel (v : HTTPVCR) : outcome HTTPVCR :=
  match ctx v with
  | None => Panic nil_dereference
  | Some NoError => Ok (set_ctx v (Some Canceled))
  | Some _ => Ok v
  end.

Definition Stop (v : HTTPVCR) (w : World) : outcome (HTTPVCR * World) :=
  if bool_decide (mode v = ModeStopped) then Ok (v, w) else
  do w <- (if bool_decide (mode v = ModeRecord) then write (Cassette v) w else Ok w);
  let w :=
    match originalTransport v with
    | Some t => if HTTPDefaultOverride (options v) then with_DefaultTransport w t else w
    | None => w
    end in
  let v := set_mode v ModeStopped in
  do v <- ctxCancel v;
  Ok (v, w).

Definition FilterResponseBody (v : HTTPVCR) (original replacement : string) : HTTPVCR :=
  {| options := options v; ctx := ctx v; mode := mode v; Cassette := Cassette v;
     FilterMap :=
       (if bool_decide (original ∈ (fst <$> FilterMap v))
        then (fun kv => if String.eqb (fst kv) original then (original, replacement) else kv)
               <$> FilterMap v
        else FilterMap v ++ [(original, replacement)]);
     RequestModifier := RequestModifier v;
     originalTransport := originalTransport v |}.

(** A call through the transport saved at [Start]. A recorder saved as
    its own transport would call itself without end; that is reported as
    the fatal error of the runtime. *)
Definition original_RoundTrip (v : HTTPVCR) (request : http_Request)
  : outcome (http_Response + error) :=
  match originalTransport v with
  | None => Panic nil_dereference
  | Some (Transport perform) => Ok (perform request)
  | Some Self => Panic "runtime: goroutine stack exceeds 1000000000-byte limit"
  end.

(** What [RoundTrip] leaves: the returned pair, the session, the world,
    and the request as the caller finds it afterwards. *)
Record RoundTripResult : Type := {
  returned : option http_Response * option error;
  session : HTTPVCR;
  world : World;
  request_after : http_Request
}.

Definition RoundTrip (v : HTTPVCR) (w : World) (request : http_Request)
  : outcome RoundTripResult :=
  let '(vcrReq, request) := newVCRRequest request (FilterMap v) in
  match ctx v with
  | None => Panic nil_dereference
  | Some Canceled =>
    Ok {| returned := (None, Some "httpvcr: stopped"); session := v; world := w;
          request_after := request |}
  | Some _ =>
    if bool_decide (mode v = ModeStopped) then
      do r <- original_RoundTrip v request;
      Ok {| returned := match r with inl res => (Some res, None) | inr err => (None, Some err) end;
            session := v; world := w; request_after := request |}
    else
      let request :=
        match RequestModifier v with
        | Some f => f request
        | None => request
        end in
      if bool_decide (mode v = ModeRecord) then
        do r <- original_RoundTrip v request;
        match r with
        | inr err =>
          Ok {| returned := (None, Some err); session := v; world := w;
                request_after := request |}
        | inl response =>
          let vcrRes := newVCRResponse response in
          let e := {| Request := vcrReq; Response := vcrRes |} in
          let c := Cassette v in
          let v := set_Cassette v {| name := name c; Episodes := append (Episodes c) e;
                                     Gzip := Gzip c; episodeMatcher := episodeMatcher c |} in
          Ok {| returned := (Some (httpResponse vcrRes), None); session := v; world := w;
                request_after := request |}
        end
      else
        do (e, c) <- matchEpisode (Cassette v) vcrReq;
        let vcrRes := Response e in
        let v := set_Cassette v c in
        do (v, w) <-
          (if bool_decide (mode v = ModeReplay) && (length (elems (Episodes (Cassette v))) =? 0)
           then Stop v w else Ok (v, w));
        Ok {| returned := (Some (httpResponse vcrRes), None); session := v; world := w;
              request_after := request |}
  end.

(** ** Statements and sample values used in Part II *)

(** The request as [RoundTrip] hands it to the transport: its body
    stream restored by the capture, then changed by the modifier. *)
Definition request_sent (v : HTTPVCR) (request : http_Request) : http_Request :=
  let request := snd (newVCRRequest request (FilterMap v)) in
  match RequestModifier v with
  | Some f => f request
  | None => request
  end.

Definition idle_gzip : Compressor :=
  {| gzip_deflate := fun data => data; gzip_inflate := fun data => Inflated data |}.

Definition refusing_transport : RoundTripper :=
  Transport (fun _ => inr "unsupported protocol scheme").

(** The statement the spec makes, that a match takes the episode off the
    sequence of the cassette itself. *)
Definition replay_shrinks_cassette : Prop :=
  forall (v : HTTPVCR) (w : World) (request : http_Request) (r : RoundTripResult)
         (res : http_Response),
    mode v = ModeReplay ->
    RoundTrip v w request = Ok r ->
    returned r = (Some res, None) ->
    S (length (elems (Episodes (Cassette (session r))))) =
    length (elems (Episodes (Cassette v))).

Definition sample_episode : Episode :=
  {| Request := {| Method := "GET"; URL := "http://127.0.0.1/"; Body := None |};
     Response := {| Status := "200 OK"; StatusCode := 200; ContentLength := 2;
                    Header := None; ResponseBody := Some (bytes_of_string "ok") |} |}.

Definition sample_world : World :=
  {| fs := ∅; gzip := idle_gzip; http_DefaultTransport := Self |}.

(** A session replaying a cassette of one episode, as [Start] leaves it. *)
Definition sample_replay : HTTPVCR :=
  {| options := DefaultOptions;
     ctx := Some NoError;
     mode := ModeReplay;
     Cassette := {| name := "test_cassette"; Episodes := Some [sample_episode]; Gzip := false;
                    episodeMatcher := {| episodes := Some [sample_episode] |} |};
     FilterMap := [];
     RequestModifier := None;
     originalTransport := Some refusing_transport |}.

Definition sample_request : http_Request :=
  {| Request_Method := "GET"; Request_URL := "http://127.0.0.1/";
     Request_Header := None; Request_ContentLength := 0; Request_Body := None |}.


(** One recording session on an empty file tree: the filter set, the
    session started, one request sent, the session stopped. The result
    is the snapshot taken of the request and the cassette file. *)
Definition record_one (cassetteName : string) (filters : filter_map)
    (perform : http_Request -> http_Response + error) (request : http_Request)
  : outcome (slice Episode * list byte) :=
  let w0 := {| fs := ∅; gzip := idle_gzip; http_DefaultTransport := Transport perform |} in
  let v0 := foldl (fun v kv => FilterResponseBody v (fst kv) (snd kv))
                  (New cassetteName []) filters in
  do (v1, w1) <- Start v0 NoError w0;
  do r <- RoundTrip v1 w1 request;
  do (v2, w2) <- Stop (session r) (world r);
  Ok (Episodes (Cassette v2), ioutil_ReadFile (fs w2) (Filename (Cassette v2))).

Definition secret_key : list byte := bytes_of_string "secret-key".

Definition dummy_key : list byte := bytes_of_string "dummy-key".

Definition secret_filter : filter_map := [("secret-key", "dummy-key")].

(** The statement the spec makes: with the filter set, a request whose
    body is the key leaves no copy of the key in the cassette file. *)
Definition filter_keeps_key_out_of_file : Prop :=
  forall (perform : http_Request -> http_Response + error) (request : http_Request)
         (rd : Buffer) (es : slice Episode) (file : list byte),
    Request_Body request = Some rd ->
    fst (ioutil_ReadAll rd) = secret_key ->
    record_one "test_cassette" secret_filter perform request = Ok (es, file) ->
    bytes_Contains file secret_key = false.

Definition ok_transport (request : http_Request) : http_Response + error :=
  inl {| Response_Status := "200 OK"; Response_StatusCode := 200;
         Response_Proto := "HTTP/1.1"; Response_ProtoMajor := 1; Response_ProtoMinor := 1;
         Response_Header := Some {[ "Test" := Some ["yes"] ]};
         Response_ContentLength := 2;
         Response_Body := Some (bytes_NewBuffer (Some (bytes_of_string "ok"))) |}.

(** A request that carries the key in its body and in its URL. *)
Definition keyed_request : http_Request :=
  {| Request_Method := "POST";
     Request_URL := "http://127.0.0.1/?token=secret-key";
     Request_Header := None;
     Request_ContentLength := 10;
     Request_Body := Some (bytes_NewBuffer (Some secret_key)) |}.

(** The pieces with [sep] between them. *)
Fixpoint joined (sep : list byte) (pieces : list (list byte)) : list byte :=
  match pieces with
  | [] => []
  | p :: rest =>
    match rest with
    | [] => p
    | _ :: _ => p ++ sep ++ joined sep rest
    end
  end.

(** The pieces are what lies between the occurrences of [old] that a
    scan from the left finds, none overlapping the one before: [old]
    starts nowhere in a piece before the occurrence that ends it, and
    the last piece holds no [old]. A byte string has one such list of
    pieces, never an empty one. *)
Fixpoint cut_at (old : list byte) (pieces : list (list byte)) : bool :=
  match pieces with
  | [] => false
  | p :: rest =>
    match rest with
    | [] => negb (bytes_Contains p old)
    | _ :: _ => negb (bytes_Contains (p ++ removelast old) old) && cut_at old rest
    end
  end.

(** A text, a list of header values, a header and a document that hold
    no copy of the key; in a document, every string and member name. *)
Definition text_free (s : string) : bool :=
  negb (bytes_Contains (list_byte_of_string s) secret_key).

Definition strings_free (l : slice string) : bool := forallb text_free (elems l).

Definition Header_free (h : http_Header) : bool :=
  match h with
  | None => true
  | Some m => forallb (fun kv => text_free (fst kv) && strings_free (snd kv)) (map_to_list m)
  end.

Fixpoint json_free (j : json) : bool :=
  match j with
  | JString s => text_free s
  | JArray l => forallb json_free l
  | JObject l => forallb (fun kv => text_free (fst kv) && json_free (snd kv)) l
  | _ => true
  end.

(** An episode and a cassette whose fields persisted as they are, the
    method, the URL, the status text and the header, hold no copy of the
    key. *)
Definition Episode_free (e : Episode) : bool :=
  text_free (Method (Request e)) && text_free (URL (Request e))
  && text_free (Status (Response e)) && Header_free (Header (Response e)).

Definition cassette_free (c : cassette) : bool :=
  forallb Episode_free (elems (Episodes c)).

(** The first byte, if there is one, is not a byte of the key. *)
Definition starts_apart (s : list byte) : Prop :=
  match s with
  | [] => True
  | b :: _ => b ∉ secret_key
  end.

(** The text fields of a cassette, those [encoding/json] writes as JSON
    strings rather than as base64, are valid UTF-8: method, URL, status
    text, header names and header values. *)
Definition strings_text_valid (l : slice string) : bool :=
  forallb utf8_ValidString (elems l).

Definition Header_text_valid (h : http_Header) : bool :=
  match h with
  | None => true
  | Some m =>
    forallb (fun kv => utf8_ValidString (fst kv) && strings_text_valid (snd kv)) (map_to_list m)
  end.

Definition VCRRequest_text_valid (r : VCRRequest) : bool :=
  utf8_ValidString (Method r) && utf8_ValidString (URL r).

Definition VCRResponse_text_valid (r : VCRResponse) : bool :=
  utf8_ValidString (Status r) && Header_text_valid (Header r).

Definition Episode_text_valid (e : Episode) : bool :=
  VCRRequest_text_valid (Request e) && VCRResponse_text_valid (Response e).

Definition cassette_text_valid (c : cassette) : bool :=
  forallb Episode_text_valid (elems (Episodes c)).

(** The compressor gives back what it was given. *)
Definition gzip_round_trip (z : Compressor) : Prop :=
  forall data : list byte, gzip_inflate z (gzip_deflate z data) = Inflated data.

(** The statement the spec makes: whatever the episodes are, the
    sequence read from the written file is the sequence written. *)
Definition cassette_round_trip : Prop :=
  forall (c c0 : cassette) (w w' : World),
    gzip_round_trip (gzip w) ->
    Episodes c0 = None ->
    name c0 = name c ->
    Gzip c0 = Gzip c ->
    write c w = Ok w' ->
    exists c' : cassette, read c0 w' = Ok c' /\ Episodes c' = Episodes c.

(** The cassette of a new session of the same name. *)
Definition fresh_cassette (c : cassette) : cassette :=
  {| name := name c; Episodes := None; Gzip := Gzip c;
     episodeMatcher := {| episodes := None |} |}.

(** A cassette of one episode whose response has a header value that is
    not UTF-8: the single byte 0xFF. *)
Definition latin1_episode : Episode :=
  {| Request := {| Method := "GET"; URL := "http://127.0.0.1/"; Body := None |};
     Response := {| Status := "200 OK"; StatusCode := 200; ContentLength := 0;
                    Header := Some {[ "X-Name" := Some [String "255" EmptyString] ]};
                    ResponseBody := Some [] |} |}.

Definition latin1_cassette : cassette :=
  {| name := "test_cassette"; Episodes := Some [latin1_episode]; Gzip := false;
     episodeMatcher := {| episodes := None |} |}.

(** The bytes a capture reads from a request: those left in its body
    stream, none when it has no body. *)
Definition body_bytes (r : http_Request) : list byte :=
  match Request_Body r with
  | Some rd => fst (ioutil_ReadAll rd)
  | None => []
  end.

(** Two requests both without a body, or both with a body whose
    streams yield the same bytes. *)
Definition same_body (r1 r2 : http_Request) : Prop :=
  match Request_Body r1, Request_Body r2 with
  | None, None => True
  | Some rd1, Some rd2 => fst (ioutil_ReadAll rd1) = fst (ioutil_ReadAll rd2)
  | _, _ => False
  end.

(** The statement the spec makes: two requests equal in method, URL and
    body bytes are captured as the same snapshot. Each capture ranges
    over the filter map on its own, so the two captures are given two
    lists of the entries of one map. *)
Definition header_independence : Prop :=
  forall (r1 r2 : http_Request) (fm1 fm2 : filter_map),
    Request_Method r1 = Request_Method r2 ->
    Request_URL r1 = Request_URL r2 ->
    body_bytes r1 = body_bytes r2 ->
    NoDup (fst <$> fm1) ->
    fm1 ≡ₚ fm2 ->
    fst (newVCRRequest r1 fm1) = fst (newVCRRequest r2 fm2).

(** Two filters that chain, in the two orders a range over their map
    can visit them. *)
Definition chained_filters : filter_map := [("a", "b"); ("b", "c")].

Definition chained_filters_reversed : filter_map := [("b", "c"); ("a", "b")].

(** A POST request with the given body and no header. *)
Definition sample_post (body : list byte) : http_Request :=
  {| Request_Method := "POST"; Request_URL := "http://127.0.0.1/";
     Request_Header := None; Request_ContentLength := Z.of_nat (length body);
     Request_Body := Some (bytes_NewBuffer (Some body)) |}.

(** ** Further statements: compositions of the functions above *)

(** A filter whose plaintext is not empty and does not occur in a body. *)
Definition filter_misses (body : list byte) (kv : string * string) : bool :=
  negb (String.eqb (fst kv) "") && negb (bytes_Contains body (bytes_of_string (fst kv))).

(** The value a filter map holds for a plaintext, as [v.FilterMap[k]]
    reads it. *)
Fixpoint filter_lookup (filterMap : filter_map) (original : string) : option string :=
  match filterMap with
  | [] => None
  | (k, r) :: rest => if String.eqb k original then Some r else filter_lookup rest original
  end.

(** A run of calls of [MatchEpisode], one per request, stopped by the
    first panic: the episodes returned and the matcher left. *)
Fixpoint replay_all (m : DefaultEpisodeMatcher) (requests : list VCRRequest)
  : outcome (list Episode * DefaultEpisodeMatcher) :=
  match requests with
  | [] => Ok ([], m)
  | request :: rest =>
    do (e, m1) <- MatchEpisode m request;
    do (es, m2) <- replay_all m1 rest;
    Ok (e :: es, m2)
  end.

(** What a caller and the cassette see of a call: the returned pair, the
    cassette and the mode left. *)
Definition replay_view (o : outcome RoundTripResult)
  : outcome ((option http_Response * option error) * cassette * Mode) :=
  do r <- o; Ok (returned r, Cassette (session r), mode (session r)).

(** A recording session with one filter and a live context. *)
Definition sample_record : HTTPVCR :=
  {| options := DefaultOptions;
     ctx := Some NoError;
     mode := ModeRecord;
     Cassette := {| name := "test_cassette"; Episodes := Some [sample_episode]; Gzip := false;
                    episodeMatcher := {| episodes := None |} |};
     FilterMap := secret_filter;
     RequestModifier := None;
     originalTransport := Some (Transport ok_transport) |}.

(** The calls of one client taken in turn, as a test body makes them:
    what each call returned, and the session and the world left. The
    first panic ends the run. Every capture of the run visits the
    filters in the order of the list the session holds; Go picks the
    order anew at each capture, so for a map of two or more filters a
    statement that rests on the snapshots of several calls is one of the
    runs in which the orders agree. *)
Fixpoint RoundTrips (v : HTTPVCR) (w : World) (requests : list http_Request)
  : outcome (list (option http_Response * option error) * HTTPVCR * World) :=
  match requests with
  | [] => Ok ([], v, w)
  | request :: rest =>
    do r <- RoundTrip v w request;
    do (rets, v', w') <- RoundTrips (session r) (world r) rest;
    Ok (returned r :: rets, v', w')
  end.

(** The queue of the matcher is an end piece of the sequence of the
    cassette, as it is from the load on. *)
Definition queue_within (c : cassette) : Prop :=
  elems (episodes (episodeMatcher c)) `suffix_of` elems (Episodes c).

(** A call was answered with a response and no error. *)
Definition answered (ret : option http_Response * option error) : bool :=
  match ret with
  | (Some _, None) => true
  | _ => false
  end.

#[global] Instance ctx_err_eq_dec : EqDecision ctx_err.
Proof. solve_decision. Defined.

(** ** httpvcr.go without the session context

    The versions of the file before and after the one with the context:
    [Start] takes no argument, and [RoundTrip] neither asks a context
    nor stops the session. The field [ctx] of the session is carried
    along untouched. Their [Stop] can leave a nil default transport,
    which [World] has no value for; it is not given here. *)
Module NoContext.

Definition Start (v : HTTPVCR) (w : World) : outcome (HTTPVCR * World) :=
  when negb (bool_decide (mode v = ModeStopped))
    then Panic "httpvcr: session already started!";
  let v := set_originalTransport v (Some (http_DefaultTransport w)) in
  let w := if HTTPDefaultOverride (options v) then with_DefaultTransport w Self else w in
  if Exists (Cassette v) w then
    let v := set_mode v ModeReplay in
    do c <- read (Cassette v) w;
    Ok (set_Cassette v c, w)
  else Ok (set_mode v ModeRecord, w).

Definition RoundTrip (v : HTTPVCR) (w : World) (request : http_Request)
  : outcome RoundTripResult :=
  let '(vcrReq, request) := newVCRRequest request (FilterMap v) in
  if bool_decide (mode v = ModeStopped) then
    do r <- original_RoundTrip v request;
    Ok {| returned := match r with inl res => (Some res, None) | inr err => (None, Some err) end;
          session := v; world := w; request_after := request |}
  else
    let request :=
      match RequestModifier v with
      | Some f => f request
      | None => request
      end in
    if bool_decide (mode v = ModeRecord) then
      do r <- original_RoundTrip v request;
      match r with
      | inr err =>
        Ok {| returned := (None, Some err); session := v; world := w;
              request_after := request |}
      | inl response =>
        let vcrRes := newVCRResponse response in
        let e := {| Request := vcrReq; Response := vcrRes |} in
        let c := Cassette v in
        let v := set_Cassette v {| name := name c; Episodes := append (Episodes c) e;
                                   Gzip := Gzip c; episodeMatcher := episodeMatcher c |} in
        Ok {| returned := (Some (httpResponse vcrRes), None); session := v; world := w;
              request_after := request |}
      end
    else
      do (e, c) <- matchEpisode (Cassette v) vcrReq;
      let vcrRes := Response e in
      let v := set_Cassette v c in
      Ok {| returned := (Some (httpResponse vcrRes), None); session := v; world := w;
            request_after := request |}.

End NoContext.
(* ================================================================== *)
(** * Part II: properties                                              *)
(* ================================================================== *)

(** ** Deep equality of byte slices *)

Lemma reflect_DeepEqual_true (a b : slice byte) :
  reflect_DeepEqual a b = true <-> a = b.
Proof.
  destruct a as [x|], b as [y|]; simpl; split; intros H;
    try discriminate; try reflexivity.
  - apply bool_decide_eq_true in H. by subst.
  - apply bool_decide_eq_true. by inversion H.
Qed.


(** ** The matcher *)

Section Matcher.
Variables (m : DefaultEpisodeMatcher) (request : VCRRequest).

Lemma MatchEpisode_exhausted :
  elems (episodes m) = [] ->
  MatchEpisode m request = Panic "httpvcr: no more episodes!".
Proof. unfold MatchEpisode. by intros ->. Qed.

Variables (e : Episode) (rest : list Episode).
Hypothesis Hqueue : elems (episodes m) = e :: rest.




Lemma MatchEpisode_consumes :
  Method (Request e) = Method request ->
  URL (Request e) = URL request ->
  Body (Request e) = Body request ->
  MatchEpisode m request = Ok (e, {| episodes := Some rest |}).
Proof.
  intros Hm Hu Hb. unfold MatchEpisode. rewrite Hqueue.
  apply String.eqb_eq in Hm. apply String.eqb_eq in Hu.
  apply reflect_DeepEqual_true in Hb.
  by rewrite Hm, Hu, Hb.
Qed.
End Matcher.





(** ** Capture *)

(** Where the two kinds of body come from: a request without a body is
    captured with a nil body, a request whose stream yields no byte is
    captured, with no filter set, with a present empty one. *)
Lemma newVCRRequest_nil_body (request : http_Request) (filterMap : filter_map) :
  Request_Body request = None ->
  Body (fst (newVCRRequest request filterMap)) = None.
Proof. unfold newVCRRequest. by intros ->. Qed.

Lemma newVCRRequest_empty_body (request : http_Request) (rd : Buffer) :
  Request_Body request = Some rd ->
  fst (ioutil_ReadAll rd) = [] ->
  Body (fst (newVCRRequest request [])) = Some [].
Proof.
  unfold newVCRRequest. intros -> Hrd. cbn [fst snd Body apply_filters foldl].
  by rewrite Hrd.
Qed.

(** With a filter set, [bytes.Replace] finds no match in an empty body
    and returns its copy of it, which is nil. *)
Lemma newVCRRequest_empty_body_filtered (request : http_Request) (rd : Buffer) :
  Request_Body request = Some rd ->
  fst (ioutil_ReadAll rd) = [] ->
  Body (fst (newVCRRequest request secret_filter)) = None.
Proof.
  unfold newVCRRequest. intros -> Hrd. cbn [fst snd Body apply_filters foldl secret_filter].
  by rewrite Hrd.
Qed.

(** With at most one filter there is one order to visit the map in. *)
Lemma filter_order_unique (fm1 fm2 : filter_map) :
  fm1 ≡ₚ fm2 -> length fm1 <= 1 \/ fm1 = fm2 -> fm1 = fm2.
Proof.
  intros Hp [Hlen | Heq]; [| exact Heq].
  destruct fm1 as [|kv [|kv' fm1]]; [| | cbn in Hlen; lia].
  - by apply Permutation_nil_l in Hp.
  - by apply Permutation_singleton_l in Hp.
Qed.

Lemma newVCRRequest_same_body (r1 r2 : http_Request) (filterMap : filter_map) :
  Request_Method r1 = Request_Method r2 ->
  Request_URL r1 = Request_URL r2 ->
  same_body r1 r2 ->
  fst (newVCRRequest r1 filterMap) = fst (newVCRRequest r2 filterMap).
Proof.
  unfold same_body, newVCRRequest. intros Hm Hu Hb.
  destruct (Request_Body r1) as [rd1|], (Request_Body r2) as [rd2|];
    try contradiction; cbn [fst snd Request_Method Request_URL].
  - by rewrite Hm, Hu, Hb.
  - by rewrite Hm, Hu.
Qed.

(** C5, as the code has it. Two live requests with the same method and
    URL text, both without a body or both with a body whose stream
    yields the same bytes, are captured as the same snapshot, whatever
    their headers (and declared lengths) are, when the two captures
    visit the filters in the same order, as they are bound to when the
    map holds at most one filter; every matcher state then answers both
    the same way, and the episodes recorded from them with one response
    are the same. *)
Theorem newVCRRequest_ignores_headers
    (r1 r2 : http_Request) (fm1 fm2 : filter_map) :
  Request_Method r1 = Request_Method r2 ->
  Request_URL r1 = Request_URL r2 ->
  same_body r1 r2 ->
  fm1 ≡ₚ fm2 ->
  length fm1 <= 1 \/ fm1 = fm2 ->
  fst (newVCRRequest r1 fm1) = fst (newVCRRequest r2 fm2) /\
  (forall m : DefaultEpisodeMatcher,
     MatchEpisode m (fst (newVCRRequest r1 fm1)) =
     MatchEpisode m (fst (newVCRRequest r2 fm2))) /\
  (forall res : VCRResponse,
     {| Request := fst (newVCRRequest r1 fm1); Response := res |} =
     {| Request := fst (newVCRRequest r2 fm2); Response := res |}).
Proof.
  intros Hm Hu Hb Hp Horder.
  rewrite <- (filter_order_unique fm1 fm2 Hp Horder).
  rewrite (newVCRRequest_same_body r1 r2 fm1 Hm Hu Hb). auto.
Qed.

(** Two requests with other headers, other declared lengths and other
    streams, the second read from its third byte on. *)
Lemma newVCRRequest_ignores_headers_witness :
  let r1 := {| Request_Method := "POST"; Request_URL := "http://127.0.0.1/";
               Request_Header := Some {[ "Accept" := Some ["text/plain"] ]};
               Request_ContentLength := 3;
               Request_Body := Some (bytes_NewBuffer (Some (bytes_of_string "abc"))) |} in
  let r2 := {| Request_Method := "POST"; Request_URL := "http://127.0.0.1/";
               Request_Header := Some {[ "X-Token" := Some ["1"; "2"] ]};
               Request_ContentLength := 5;
               Request_Body := Some {| buf := bytes_of_string "xyabc"; off := 2 |} |} in
  Request_Header r1 <> Request_Header r2 /\
  Request_Body r1 <> Request_Body r2 /\
  fst (newVCRRequest r1 [("b", "x")]) = fst (newVCRRequest r2 [("b", "x")]).
Proof.
  intros r1 r2. split; [| split].
  - intros H. apply (f_equal (fun h => h ≫= (fun hm => hm !! "Accept"))) in H.
    vm_compute in H. discriminate.
  - discriminate.
  - apply (newVCRRequest_ignores_headers r1 r2 [("b", "x")] [("b", "x")]);
      [reflexivity | reflexivity | reflexivity | reflexivity | left; cbn; lia].
Defined.

(** Equal method, URL and body bytes do not make equal snapshots, and
    not by the headers. A request captured under two filters that chain
    gives one snapshot when the range visits them in one order and
    another in the other order; and with no filter a request without a
    body and one with an empty body, which have the same body bytes, are
    captured with a nil and with an empty body. *)
Lemma header_independence_fails :
  ~ header_independence /\
  fst (newVCRRequest (sample_post (bytes_of_string "a")) chained_filters) <>
  fst (newVCRRequest (sample_post (bytes_of_string "a")) chained_filters_reversed) /\
  fst (newVCRRequest sample_request []) <>
  fst (newVCRRequest {| Request_Method := "GET"; Request_URL := "http://127.0.0.1/";
                        Request_Header := None; Request_ContentLength := 0;
                        Request_Body := Some (bytes_NewBuffer (Some [])) |} []).
Proof.
  split; [| split].
  - intros H.
    specialize (H (sample_post (bytes_of_string "a")) (sample_post (bytes_of_string "a"))
                  chained_filters chained_filters_reversed eq_refl eq_refl eq_refl).
    assert (Hnd : NoDup (fst <$> chained_filters)).
    { apply NoDup_cons. split; [| apply NoDup_singleton].
      intros Hin. apply list_elem_of_singleton in Hin. discriminate. }
    assert (Hp : chained_filters ≡ₚ chained_filters_reversed) by apply Permutation_swap.
    specialize (H Hnd Hp). vm_compute in H. discriminate.
  - vm_compute. discriminate.
  - vm_compute. discriminate.
Qed.

(** C7. Capturing a request that has a body changes nothing of the
    request but the body stream; the new stream is unread and yields the
    bytes that were read from the old one, before any filter. *)
Theorem newVCRRequest_restores_body
    (request : http_Request) (filterMap : filter_map) (rd : Buffer) :
  Request_Body request = Some rd ->
  let request' := snd (newVCRRequest request filterMap) in
  Request_Method request' = Request_Method request /\
  Request_URL request' = Request_URL request /\
  Request_Header request' = Request_Header request /\
  Request_ContentLength request' = Request_ContentLength request /\
  exists rd' : Buffer,
    Request_Body request' = Some rd' /\
    off rd' = 0 /\
    buf rd' = fst (ioutil_ReadAll rd) /\
    fst (ioutil_ReadAll rd') = fst (ioutil_ReadAll rd).
Proof.
  intros Hb. unfold newVCRRequest. rewrite Hb. simpl.
  repeat split; try reflexivity.
  eexists. repeat split; reflexivity.
Qed.

Lemma newVCRRequest_restores_body_witness :
  let rd := {| buf := bytes_of_string "xxsecret-key"; off := 2 |} in
  let request := {| Request_Method := "POST"; Request_URL := "http://127.0.0.1/";
                    Request_Header := None; Request_ContentLength := 10;
                    Request_Body := Some rd |} in
  Body (fst (newVCRRequest request [("secret-key", "dummy-key")])) =
    Some (bytes_of_string "dummy-key") /\
  exists rd' : Buffer,
    Request_Body (snd (newVCRRequest request [("secret-key", "dummy-key")])) = Some rd' /\
    fst (ioutil_ReadAll rd') = bytes_of_string "secret-key".
Proof.
  intros rd request. split; [reflexivity |].
  destruct (newVCRRequest_restores_body request [("secret-key", "dummy-key")] rd eq_refl)
    as (_ & _ & _ & _ & rd' & Hrd' & _ & _ & Hread).
  exists rd'. split; [exact Hrd' | exact Hread].
Defined.

(** ** Materialising a response *)

(** C6. The response built from a snapshot has protocol "HTTP/1.0",
    major 1, minor 0; its body is an unread stream over the stored body
    bytes; status text, status code, headers and declared length are those
    of the snapshot. *)
Theorem httpResponse_spec (vr : VCRResponse) :
  Response_Proto (httpResponse vr) = "HTTP/1.0" /\
  Response_ProtoMajor (httpResponse vr) = 1%Z /\
  Response_ProtoMinor (httpResponse vr) = 0%Z /\
  Response_Status (httpResponse vr) = Status vr /\
  Response_StatusCode (httpResponse vr) = StatusCode vr /\
  Response_Header (httpResponse vr) = Header vr /\
  Response_ContentLength (httpResponse vr) = ContentLength vr /\
  exists rd : Buffer,
    Response_Body (httpResponse vr) = Some rd /\
    off rd = 0 /\
    fst (ioutil_ReadAll rd) = elems (ResponseBody vr).
Proof.
  repeat split. exists (bytes_NewBuffer (ResponseBody vr)). repeat split.
Qed.

(** ** The session: recording *)

Lemma newVCRRequest_pair (request : http_Request) (filterMap : filter_map) :
  newVCRRequest request filterMap =
    (fst (newVCRRequest request filterMap), snd (newVCRRequest request filterMap)).
Proof. by destruct (newVCRRequest request filterMap). Qed.

(** C8. While recording, when the call of the real transport fails,
    [RoundTrip] returns no response and that very error, and leaves the
    session, hence the episode sequence of the cassette, as it was. *)
Theorem RoundTrip_record_transport_error
    (v : HTTPVCR) (w : World) (request : http_Request)
    (c : ctx_err) (perform : http_Request -> http_Response + error) (err : error) :
  mode v = ModeRecord ->
  ctx v = Some c ->
  c <> Canceled ->
  originalTransport v = Some (Transport perform) ->
  perform (request_sent v request) = inr err ->
  exists r : RoundTripResult,
    RoundTrip v w request = Ok r /\
    returned r = (None, Some err) /\
    session r = v /\
    Episodes (Cassette (session r)) = Episodes (Cassette v).
Proof.
  intros Hmode Hctx Hc Ht Herr.
  unfold RoundTrip. rewrite newVCRRequest_pair, Hctx, Hmode.
  unfold request_sent in Herr.
  assert (Hcall : original_RoundTrip v
            (match RequestModifier v with
             | Some f => f (snd (newVCRRequest request (FilterMap v)))
             | None => snd (newVCRRequest request (FilterMap v))
             end) = Ok (inr err)).
  { unfold original_RoundTrip. rewrite Ht. by rewrite Herr. }
  destruct c; try congruence; simpl; rewrite Hcall; simpl; eauto.
Qed.

Lemma RoundTrip_record_transport_error_witness :
  let w := {| fs := ∅; gzip := idle_gzip; http_DefaultTransport := Self |} in
  let v := set_originalTransport (set_ctx (set_mode (New "test_cassette" []) ModeRecord)
                                    (Some NoError)) (Some refusing_transport) in
  let request := {| Request_Method := "GET"; Request_URL := "xhttp://foo";
                    Request_Header := None; Request_ContentLength := 0;
                    Request_Body := None |} in
  exists r : RoundTripResult,
    RoundTrip v w request = Ok r /\
    returned r = (None, Some "unsupported protocol scheme") /\
    session r = v /\
    Episodes (Cassette (session r)) = Episodes (Cassette v).
Proof.
  intros w v request.
  apply (RoundTrip_record_transport_error v w request NoError
           (fun _ => inr "unsupported protocol scheme") "unsupported protocol scheme");
    [reflexivity | reflexivity | discriminate | reflexivity | reflexivity].
Defined.

(** ** The session: replay *)

Lemma Stop_replay_Cassette (v : HTTPVCR) (w : World) (v' : HTTPVCR) (w' : World) :
  mode v = ModeReplay ->
  Stop v w = Ok (v', w') ->
  Cassette v' = Cassette v.
Proof.
  intros Hmode. unfold Stop. rewrite Hmode. simpl.
  unfold ctxCancel. simpl.
  destruct (ctx v) as [[| |]|]; simpl; intros H; inversion H; reflexivity.
Qed.

Lemma MatchEpisode_Ok_inv (m m' : DefaultEpisodeMatcher) (request : VCRRequest) (e : Episode) :
  MatchEpisode m request = Ok (e, m') ->
  exists rest : list Episode,
    elems (episodes m) = e :: rest /\ m' = {| episodes := Some rest |}.
Proof.
  unfold MatchEpisode. intros H.
  destruct (elems (episodes m)) as [|e0 rest]; [discriminate |].
  exists rest.
  destruct (negb (String.eqb (Method (Request e0)) _)); [discriminate |].
  destruct (negb (String.eqb (URL (Request e0)) _)); [discriminate |].
  destruct (negb (reflect_DeepEqual (Body (Request e0)) _)); [discriminate |].
  simpl in H. by inversion H.
Qed.

(** The end of the replay branch: the session is stopped when the
    sequence of the cassette is empty; the cassette is kept either way. *)
Lemma replay_tail (v : HTTPVCR) (c0 : cassette) (w : World) (stop : bool)
    (ret : option http_Response * option error) (req : http_Request) (r : RoundTripResult) :
  mode v = ModeReplay ->
  (do (v1, w1) <- (if stop then Stop (set_Cassette v c0) w else Ok (set_Cassette v c0, w));
   Ok {| returned := ret; session := v1; world := w1; request_after := req |}) = Ok r ->
  Cassette (session r) = c0 /\ returned r = ret.
Proof.
  intros Hmode H. destruct stop.
  - destruct (Stop (set_Cassette v c0) w) as [[v1 w1]|msg] eqn:Hstop; [| discriminate].
    apply Stop_replay_Cassette in Hstop; [| exact Hmode].
    simpl in H. injection H as <-. by simpl.
  - simpl in H. injection H as <-. by simpl.
Qed.

(** While replaying, a call that is answered from the cassette leaves
    the episode sequence of the cassette as it was: nothing is appended
    and nothing is removed. The episode that answers is the head of the
    queue of the matcher, and it is that queue, set from the cassette on
    load, which loses its head. *)
Lemma RoundTrip_replay_consumes_matcher_queue
    (v : HTTPVCR) (w : World) (request : http_Request) (r : RoundTripResult)
    (res : http_Response) :
  mode v = ModeReplay ->
  RoundTrip v w request = Ok r ->
  returned r = (Some res, None) ->
  Episodes (Cassette (session r)) = Episodes (Cassette v) /\
  exists (e : Episode) (rest : list Episode),
    elems (episodes (episodeMatcher (Cassette v))) = e :: rest /\
    episodes (episodeMatcher (Cassette (session r))) = Some rest /\
    res = httpResponse (Response e).
Proof.
  intros Hmode Hrt Hret. unfold RoundTrip in Hrt.
  rewrite newVCRRequest_pair in Hrt.
  destruct (ctx v) as [c|] eqn:Hctx; [| discriminate].
  destruct c.
  2: { injection Hrt as <-. simpl in Hret. discriminate. }
  all: rewrite Hmode in Hrt; simpl in Hrt.
  all: unfold matchEpisode in Hrt.
  all: destruct (MatchEpisode _ _) as [[e m]|msg] eqn:Hmatch; [| discriminate].
  all: apply MatchEpisode_Ok_inv in Hmatch as (rest & Hq & ->).
  all: simpl in Hrt.
  all: apply (replay_tail v) in Hrt as [HC Hr]; [| exact Hmode].
  all: rewrite HC; simpl.
  all: split; [reflexivity |]; exists e, rest.
  all: repeat split; [exact Hq | congruence].
Qed.

Lemma sample_replay_RoundTrip :
  RoundTrip sample_replay sample_world sample_request =
  Ok {| returned := (Some (httpResponse (Response sample_episode)), None);
        session := set_Cassette sample_replay
                     {| name := "test_cassette"; Episodes := Some [sample_episode];
                        Gzip := false; episodeMatcher := {| episodes := Some [] |} |};
        world := sample_world;
        request_after := sample_request |}.
Proof. reflexivity. Qed.

(** The sequence of the cassette keeps its one episode after the match. *)
Lemma replay_shrinks_cassette_fails : ~ replay_shrinks_cassette.
Proof.
  intros H.
  specialize (H sample_replay sample_world sample_request _ _ eq_refl
                sample_replay_RoundTrip eq_refl).
  simpl in H. discriminate.
Qed.


(** ** The session: an unwritable cassette file *)

Lemma os_Mkdir_keeps (fs fs' : filesystem) (p q : string) (n : node) :
  os_Mkdir fs p = Some fs' -> fs !! q = Some n -> fs' !! q = Some n.
Proof.
  unfold os_Mkdir. intros H Hq.
  destruct (fs !! p) as [[d|]|] eqn:Hp.
  - discriminate.
  - by inversion H; subst.
  - destruct (parent_is_dir fs p); [| discriminate].
    inversion H; subst. rewrite lookup_insert_ne; [exact Hq | congruence].
Qed.

Lemma os_MkdirAll_keeps (fs : filesystem) (q : string) (n : node) :
  fs !! q = Some n -> os_MkdirAll_fixtures_vcr fs !! q = Some n.
Proof.
  intros Hq. unfold os_MkdirAll_fixtures_vcr.
  destruct (os_Mkdir fs "fixtures") as [fs1|] eqn:H1; [| exact Hq].
  pose proof (os_Mkdir_keeps _ _ _ _ _ H1 Hq) as Hq1.
  destruct (os_Mkdir fs1 "fixtures/vcr") as [fs2|] eqn:H2; simpl; [| exact Hq1].
  exact (os_Mkdir_keeps _ _ _ _ _ H2 Hq1).
Qed.

Lemma write_unwritable (c : cassette) (w : World) :
  writable (os_MkdirAll_fixtures_vcr (fs w)) (Filename c) = false ->
  write c w = Panic "httpvcr: cannot write cassette file!".
Proof. unfold write, ioutil_WriteFile. by intros ->. Qed.

Lemma Stop_record_unwritable (v : HTTPVCR) (w : World) :
  mode v = ModeRecord ->
  writable (os_MkdirAll_fixtures_vcr (fs w)) (Filename (Cassette v)) = false ->
  Stop v w = Panic "httpvcr: cannot write cassette file!".
Proof.
  intros Hmode Hw. unfold Stop. rewrite Hmode. simpl.
  by rewrite (write_unwritable _ _ Hw).
Qed.

Lemma Start_without_file (v : HTTPVCR) (parent : ctx_err) (w : World) :
  mode v = ModeStopped ->
  Exists (Cassette v) w = false ->
  exists (v' : HTTPVCR) (w' : World),
    Start v parent w = Ok (v', w') /\
    mode v' = ModeRecord /\ Cassette v' = Cassette v /\ fs w' = fs w.
Proof.
  intros Hmode Hex. unfold Start. rewrite Hmode. simpl.
  unfold Exists in *.
  destruct (HTTPDefaultOverride (options v)); simpl; rewrite Hex;
    eexists _, _; repeat split.
Qed.

(** C9. A session whose cassette file does not exist starts, and starts
    recording, whatever the state of the target path otherwise. When the
    session is stopped while the target cannot be written, in particular
    while a directory sits at the path of the file, [Stop] panics with
    "cannot write cassette file". *)
Theorem unwritable_cassette_fails_at_Stop :
  (forall (v : HTTPVCR) (parent : ctx_err) (w : World),
     mode v = ModeStopped ->
     Exists (Cassette v) w = false ->
     exists (v' : HTTPVCR) (w' : World),
       Start v parent w = Ok (v', w') /\
       mode v' = ModeRecord /\ Cassette v' = Cassette v /\ fs w' = fs w) /\
  (forall (v : HTTPVCR) (w : World),
     mode v = ModeRecord ->
     writable (os_MkdirAll_fixtures_vcr (fs w)) (Filename (Cassette v)) = false ->
     Stop v w = Panic "httpvcr: cannot write cassette file!") /\
  (forall (v : HTTPVCR) (w : World),
     mode v = ModeRecord ->
     fs w !! Filename (Cassette v) = Some Dir ->
     Stop v w = Panic "httpvcr: cannot write cassette file!").
Proof.
  split; [exact Start_without_file |].
  split; [exact Stop_record_unwritable |].
  intros v w Hmode Hdir. apply Stop_record_unwritable; [exact Hmode |].
  unfold writable. by rewrite (os_MkdirAll_keeps _ _ _ Hdir).
Qed.

(** The run of [TestFileWriteError]: the session starts on an empty
    tree, a directory is made at the path of the file, [Stop] panics. *)
Lemma unwritable_cassette_fails_at_Stop_witness :
  let w0 := {| fs := ∅; gzip := idle_gzip; http_DefaultTransport := refusing_transport |} in
  exists (v1 : HTTPVCR) (w1 : World),
    Start (New "test" []) NoError w0 = Ok (v1, w1) /\
    mode v1 = ModeRecord /\
    Stop v1 (with_fs w1 (<["fixtures/vcr/test.json" := Dir]>
                           (<["fixtures/vcr" := Dir]> (<["fixtures" := Dir]> (fs w1))))) =
      Panic "httpvcr: cannot write cassette file!".
Proof.
  intros w0.
  destruct (proj1 unwritable_cassette_fails_at_Stop (New "test" []) NoError w0
              eq_refl eq_refl) as (v1 & w1 & HS & Hm & HC & Hfs).
  exists v1, w1. split; [exact HS |]. split; [exact Hm |].
  apply (proj2 (proj2 unwritable_cassette_fails_at_Stop)); [exact Hm |].
  rewrite HC. simpl. apply lookup_insert_eq.
Defined.

(** ** The filter and the cassette file *)

Lemma bytes_HasPrefix_In (s sub : list byte) (b : byte) :
  bytes_HasPrefix s sub = true -> b ∈ sub -> b ∈ s.
Proof.
  revert s. induction sub as [|p sub IH]; intros s H Hb.
  - by apply elem_of_nil in Hb.
  - destruct s as [|x s]; [discriminate |]. simpl in H.
    apply andb_prop in H as [Hx Hs]. apply bool_decide_eq_true in Hx. subst x.
    apply elem_of_cons in Hb as [-> | Hb]; [left | right; by apply IH].
Qed.

Lemma bytes_Contains_In (s sub : list byte) (b : byte) :
  bytes_Contains s sub = true -> b ∈ sub -> b ∈ s.
Proof.
  induction s as [|x s IH]; simpl; intros H Hb.
  - apply orb_prop in H as [H | H]; [| discriminate].
    by apply (bytes_HasPrefix_In [] sub).
  - apply orb_prop in H as [H | H].
    + by apply (bytes_HasPrefix_In (x :: s) sub).
    + right. by apply IH.
Qed.

Lemma b64_char_in_alphabet (i : Z) : b64_char i ∈ x00 :: encodeStd.
Proof.
  unfold b64_char. destruct (nth_in_or_default (Z.to_nat i) encodeStd x00) as [H | ->].
  - right. by apply list_elem_of_In.
  - left.
Qed.

Lemma base64_Encode_alphabet (src : list byte) (b : byte) :
  b ∈ base64_Encode src -> b ∈ b64_pad :: x00 :: encodeStd.
Proof.
  remember (length src) as n eqn:Hn. revert src Hn.
  induction n as [n IH] using lt_wf_ind. intros src Hn.
  destruct src as [|a0 [|a1 [|a2 rest]]]; simpl.
  - intros H. by apply elem_of_nil in H.
  - intros H. repeat (apply elem_of_cons in H as [-> | H]);
      try (right; apply b64_char_in_alphabet); try left.
    by apply elem_of_nil in H.
  - intros H. repeat (apply elem_of_cons in H as [-> | H]);
      try (right; apply b64_char_in_alphabet); try left.
    by apply elem_of_nil in H.
  - intros H. repeat (apply elem_of_cons in H as [-> | H]);
      try (right; apply b64_char_in_alphabet).
    apply (IH (length rest)) with (src := rest); [simpl in Hn; lia | reflexivity | exact H].
Qed.

(** No base64 text holds the key: the alphabet has no hyphen. *)
Lemma base64_Encode_never_holds_key (src : list byte) :
  bytes_Contains (base64_Encode src) secret_key = false.
Proof.
  destruct (bytes_Contains (base64_Encode src) secret_key) eqn:H; [| reflexivity].
  exfalso.
  assert (Hin : "-"%byte ∈ base64_Encode src).
  { apply (bytes_Contains_In _ secret_key); [exact H |].
    apply list_elem_of_In. vm_compute. repeat (first [left; reflexivity | right]). }
  apply base64_Encode_alphabet in Hin.
  apply list_elem_of_In in Hin. vm_compute in Hin.
  repeat (destruct Hin as [Hin | Hin]; [discriminate |]). exact Hin.
Qed.

Lemma bytes_HasPrefix_app (old s : list byte) : bytes_HasPrefix (old ++ s) old = true.
Proof.
  induction old as [|o old IH]; [reflexivity |].
  cbn [app bytes_HasPrefix]. by rewrite bool_decide_eq_true_2, IH.
Qed.

Lemma replace_scan_passes (old new l s : list byte) :
  replace_scan old new (length l) (l ++ s) = replace_scan old new 0 s.
Proof. induction l as [|b l IH]; [reflexivity | exact IH]. Qed.

(** Left to right, without overlap: a match at the front is replaced and
    the scan goes on after it. *)
Lemma replace_scan_match (old new s : list byte) :
  old <> [] ->
  replace_scan old new 0 (old ++ s) = new ++ replace_scan old new 0 s.
Proof.
  intros Hold. pose proof (bytes_HasPrefix_app old s) as Hp.
  destruct old as [|o old]; [congruence |].
  cbn [app replace_scan] in *. rewrite Hp. f_equal.
  cbn [length]. rewrite Nat.sub_succ, Nat.sub_0_r. apply replace_scan_passes.
Qed.

(** The key in the URL of the request is written to the file as it is. *)
Lemma filter_keeps_key_out_of_file_fails : ~ filter_keeps_key_out_of_file.
Proof.
  intros H.
  assert (Hrun : exists es file,
            record_one "test_cassette" secret_filter ok_transport keyed_request = Ok (es, file) /\
            bytes_Contains file secret_key = true).
  { eexists _, _. split; [vm_compute; reflexivity | vm_compute; reflexivity]. }
  destruct Hrun as (es & file & Hrun & Hc).
  rewrite (H ok_transport keyed_request (bytes_NewBuffer (Some secret_key)) es file
             eq_refl eq_refl Hrun) in Hc.
  discriminate.
Qed.

(** ** Bytes as numbers *)

Lemma code_range (b : byte) : (0 <= code b < 256)%Z.
Proof. unfold code. pose proof (Byte.to_N_bounded b). lia. Qed.

Lemma byte_of_code_code (b : byte) : byte_of_code (code b) = b.
Proof. unfold byte_of_code, code. by rewrite N2Z.id, Byte.of_to_N. Qed.

Lemma code_inj (a b : byte) : code a = code b -> a = b.
Proof. intros H. by rewrite <- (byte_of_code_code a), H, byte_of_code_code. Qed.

Ltac divmod := Z.div_mod_to_equations; lia.

(** ** base64 *)

Lemma b64_index_char (i : Z) :
  (0 <= i < 64)%Z ->
  b64_index (b64_char i) = Some i /\ Byte.eqb (b64_char i) b64_pad = false.
Proof.
  intros Hi. rewrite <- (Z2Nat.id i) by lia.
  assert (Hn : Z.to_nat i < 64) by lia.
  generalize dependent (Z.to_nat i). clear Hi. intros n Hn.
  do 64 (destruct n as [|n]; [by vm_compute |]). lia.
Qed.

Lemma base64_round_trip (src : list byte) :
  base64_Decode (base64_Encode src) = Some src.
Proof.
  remember (length src) as n eqn:Hn. revert src Hn.
  induction n as [n IH] using lt_wf_ind. intros src Hn.
  destruct src as [|a [|b [|c rest]]].
  - reflexivity.
  - pose proof (code_range a) as Ha.
    cbn [base64_Encode base64_Decode].
    destruct (b64_index_char (code a / 4)) as [-> _]; [divmod |].
    destruct (b64_index_char (code a mod 4 * 16)) as [-> _]; [divmod |].
    cbn. replace (code a / 4 * 4 + code a mod 4 * 16 / 16)%Z with (code a) by divmod.
    by rewrite byte_of_code_code.
  - pose proof (code_range a) as Ha. pose proof (code_range b) as Hb.
    cbn [base64_Encode base64_Decode].
    destruct (b64_index_char (code a / 4)) as [-> _]; [divmod |].
    destruct (b64_index_char (code a mod 4 * 16 + code b / 16)) as [-> _]; [divmod |].
    destruct (b64_index_char (code b mod 16 * 4)) as [-> ->]; [divmod |].
    cbn.
    replace (code a / 4 * 4 + (code a mod 4 * 16 + code b / 16) / 16)%Z with (code a) by divmod.
    replace ((code a mod 4 * 16 + code b / 16) mod 16 * 16 + code b mod 16 * 4 / 4)%Z
      with (code b) by divmod.
    by rewrite !byte_of_code_code.
  - pose proof (code_range a) as Ha. pose proof (code_range b) as Hb.
    pose proof (code_range c) as Hc.
    cbn [base64_Encode base64_Decode].
    destruct (b64_index_char (code a / 4)) as [-> _]; [divmod |].
    destruct (b64_index_char (code a mod 4 * 16 + code b / 16)) as [-> _]; [divmod |].
    destruct (b64_index_char (code b mod 16 * 4 + code c / 64)) as [-> _]; [divmod |].
    destruct (b64_index_char (code c mod 64)) as [-> ->]; [divmod |].
    rewrite (IH (length rest)) by (simpl in Hn; lia || reflexivity).
    cbn.
    replace (code a / 4 * 4 + (code a mod 4 * 16 + code b / 16) / 16)%Z with (code a) by divmod.
    replace ((code a mod 4 * 16 + code b / 16) mod 16 * 16 + (code b mod 16 * 4 + code c / 64) / 4)%Z
      with (code b) by divmod.
    replace ((code b mod 16 * 4 + code c / 64) mod 4 * 64 + code c mod 64)%Z
      with (code c) by divmod.
    by rewrite !byte_of_code_code.
Qed.

Lemma bytes_of_json_of_bytes (b : slice byte) : bytes_of_json (json_of_bytes b) = Some b.
Proof.
  destruct b as [l|]; [| reflexivity]. simpl.
  by rewrite list_byte_of_string_of_list_byte, base64_round_trip.
Qed.

(** ** UTF-8 *)

Lemma lor_shiftl_add (hi lo k : Z) :
  (0 <= k)%Z -> (0 <= lo < 2 ^ k)%Z ->
  Z.lor (Z.shiftl hi k) lo = (hi * 2 ^ k + lo)%Z.
Proof.
  intros Hk Hlo.
  assert (Hland : Z.land (Z.shiftl hi k) lo = 0%Z).
  { apply Z.bits_inj'. intros n Hn. rewrite Z.land_spec, Z.bits_0.
    destruct (Z.lt_ge_cases n k) as [Hlt | Hge].
    - by rewrite Z.shiftl_spec_low.
    - destruct (Z.eq_dec lo 0%Z) as [-> | Hne].
      + by rewrite Z.bits_0, andb_false_r.
      + rewrite (Z.bits_above_log2 lo n), andb_false_r; [reflexivity | lia |].
        apply Z.lt_le_trans with k; [| exact Hge].
        apply Z.log2_lt_pow2; lia. }
  rewrite <- Z.lxor_lor, <- Z.add_nocarry_lxor by exact Hland.
  by rewrite Z.shiftl_mul_pow2.
Qed.

Lemma land_3F (c : Z) : Z.land c 0x3F = (c mod 64)%Z.
Proof. change 0x3F%Z with (Z.ones 6). by rewrite Z.land_ones. Qed.

Lemma rune2_value (c0 c1 : Z) :
  Z.lor (Z.shiftl (Z.land c0 0x1F) 6) (Z.land c1 0x3F) = (c0 mod 32 * 64 + c1 mod 64)%Z.
Proof.
  rewrite land_3F. change 0x1F%Z with (Z.ones 5). rewrite Z.land_ones by lia.
  rewrite lor_shiftl_add; [reflexivity | lia |].
  change (2 ^ 6)%Z with 64%Z. divmod.
Qed.

Lemma rune3_value (c0 c1 c2 : Z) :
  Z.lor (Z.shiftl (Z.land c0 0x0F) 12)
    (Z.lor (Z.shiftl (Z.land c1 0x3F) 6) (Z.land c2 0x3F)) =
  (c0 mod 16 * 4096 + c1 mod 64 * 64 + c2 mod 64)%Z.
Proof.
  rewrite !land_3F. change 0x0F%Z with (Z.ones 4). rewrite Z.land_ones by lia.
  rewrite (lor_shiftl_add (c1 mod 64) (c2 mod 64) 6); [| lia | change (2 ^ 6)%Z with 64%Z; divmod].
  rewrite lor_shiftl_add; [change (2 ^ 4)%Z with 16%Z; change (2 ^ 12)%Z with 4096%Z;
                           change (2 ^ 6)%Z with 64%Z; lia | lia |].
  change (2 ^ 12)%Z with 4096%Z. change (2 ^ 6)%Z with 64%Z. divmod.
Qed.

Lemma rune4_value (c0 c1 c2 c3 : Z) :
  Z.lor (Z.shiftl (Z.land c0 0x07) 18)
    (Z.lor (Z.shiftl (Z.land c1 0x3F) 12)
       (Z.lor (Z.shiftl (Z.land c2 0x3F) 6) (Z.land c3 0x3F))) =
  (c0 mod 8 * 262144 + c1 mod 64 * 4096 + c2 mod 64 * 64 + c3 mod 64)%Z.
Proof.
  rewrite !land_3F. change 0x07%Z with (Z.ones 3). rewrite Z.land_ones by lia.
  rewrite (lor_shiftl_add (c2 mod 64) (c3 mod 64) 6); [| lia | change (2 ^ 6)%Z with 64%Z; divmod].
  rewrite (lor_shiftl_add (c1 mod 64) _ 12);
    [| lia | change (2 ^ 12)%Z with 4096%Z; change (2 ^ 6)%Z with 64%Z; divmod].
  rewrite lor_shiftl_add;
    [change (2 ^ 3)%Z with 8%Z; change (2 ^ 18)%Z with 262144%Z;
     change (2 ^ 12)%Z with 4096%Z; change (2 ^ 6)%Z with 64%Z; lia | lia |].
  change (2 ^ 18)%Z with 262144%Z. change (2 ^ 12)%Z with 4096%Z.
  change (2 ^ 6)%Z with 64%Z. divmod.
Qed.

(** The rows of the table [first]. *)
Lemma utf8_first_Some (c : Z) (sz : nat) (lo hi : Z) :
  utf8_first c = Some (sz, (lo, hi)) ->
  (sz = 2 /\ (0xC2 <= c < 0xE0 /\ lo = 0x80 /\ hi = 0xBF)%Z) \/
  (sz = 3 /\ (c = 0xE0 /\ lo = 0xA0 /\ hi = 0xBF)%Z) \/
  (sz = 3 /\ (c = 0xED /\ lo = 0x80 /\ hi = 0x9F)%Z) \/
  (sz = 3 /\ (0xE1 <= c < 0xF0 /\ c <> 0xED /\ lo = 0x80 /\ hi = 0xBF)%Z) \/
  (sz = 4 /\ (c = 0xF0 /\ lo = 0x90 /\ hi = 0xBF)%Z) \/
  (sz = 4 /\ (0xF1 <= c < 0xF4 /\ lo = 0x80 /\ hi = 0xBF)%Z) \/
  (sz = 4 /\ (c = 0xF4 /\ lo = 0x80 /\ hi = 0x8F)%Z).
Proof.
  unfold utf8_first.
  repeat match goal with
         | |- context [if ?b then _ else _] => destruct b eqn:?
         end; intros H; inversion H; subst; lia.
Qed.

Lemma utf8_first_None (c : Z) :
  utf8_first c = None -> (c < 0xC2 \/ 0xF4 < c)%Z.
Proof.
  unfold utf8_first.
  repeat match goal with
         | |- context [if ?b then _ else _] => destruct b eqn:?
         end; intros H; inversion H; lia.
Qed.

Lemma outside_false (lo hi c : Z) : outside lo hi c = false <-> (lo <= c <= hi)%Z.
Proof. unfold outside. rewrite orb_false_iff, !Z.ltb_ge. lia. Qed.

Lemma DecodeRune_ascii (b : byte) (s : list byte) :
  (code b < 0x80)%Z -> utf8_DecodeRune (b :: s) = (code b, 1).
Proof.
  intros Hb. unfold utf8_DecodeRune.
  destruct (utf8_first (code b)) as [[sz [lo hi]]|] eqn:Hf.
  - apply utf8_first_Some in Hf. lia.
  - by rewrite (proj2 (Z.ltb_lt _ _) Hb).
Qed.

(** A sequence that decodes to more than one byte: its bytes, and the
    same result whatever follows them. *)
Lemma DecodeRune_multi (p : list byte) (r : Z) (size : nat) :
  utf8_DecodeRune p = (r, size) ->
  2 <= size ->
  exists chunk rest : list byte,
    p = chunk ++ rest /\ length chunk = size /\
    forall q : list byte, utf8_DecodeRune (chunk ++ q) = (r, size).
Proof.
  unfold utf8_DecodeRune. destruct p as [|b0 t]; [intros H; inversion H; lia |].
  destruct (utf8_first (code b0)) as [[sz [lo hi]]|] eqn:Hf; [| intros H; inversion H; lia].
  assert (Hsz : sz = 2 \/ sz = 3 \/ sz = 4) by (apply utf8_first_Some in Hf; lia).
  destruct (length (b0 :: t) <? sz) eqn:Hlen; [intros H; inversion H; lia |].
  apply Nat.ltb_ge in Hlen. simpl in Hlen.
  destruct t as [|b1 t1]; [intros H; inversion H; lia |].
  destruct (outside lo hi (code b1)) eqn:H1; [intros H; inversion H; lia |].
  destruct (sz <=? 2) eqn:Hle2.
  { intros H Hs. inversion H; subst r size. exists [b0; b1], t1.
    repeat split. intros q. simpl. rewrite Hf, H1, Hle2.
    apply Nat.leb_le in Hle2.
    destruct (S (S (length q)) <? sz) eqn:E; [apply Nat.ltb_lt in E; lia | reflexivity]. }
  destruct t1 as [|b2 t2]; [intros H; inversion H; lia |].
  destruct (outside 128 191 (code b2)) eqn:H2; [intros H; inversion H; lia |].
  destruct (sz <=? 3) eqn:Hle3.
  { intros H Hs. inversion H; subst r size. exists [b0; b1; b2], t2.
    repeat split. intros q. simpl. rewrite Hf, H1, Hle2, H2, Hle3.
    apply Nat.leb_le in Hle3.
    destruct (S (S (S (length q))) <? sz) eqn:E; [apply Nat.ltb_lt in E; lia | reflexivity]. }
  destruct t2 as [|b3 t3]; [intros H; inversion H; lia |].
  destruct (outside 128 191 (code b3)) eqn:H3; [intros H; inversion H; lia |].
  intros H Hs. inversion H; subst r size. exists [b0; b1; b2; b3], t3.
  repeat split. intros q. simpl. rewrite Hf, H1, Hle2, H2, Hle3, H3.
  destruct (S (S (S (S (length q)))) <? sz) eqn:E; [apply Nat.ltb_lt in E; lia | reflexivity].
Qed.

(** What [DecodeRune] gives when the first byte is not ASCII: an error
    of width one, or a sequence of two to four bytes. *)
Lemma DecodeRune_width (b : byte) (s : list byte) (r : Z) (size : nat) :
  (0x80 <= code b)%Z ->
  utf8_DecodeRune (b :: s) = (r, size) ->
  (r = RuneError /\ size = 1) \/ 2 <= size.
Proof.
  intros Hb. unfold utf8_DecodeRune.
  destruct (utf8_first (code b)) as [[sz [lo hi]]|] eqn:Hf.
  - assert (Hsz : sz = 2 \/ sz = 3 \/ sz = 4) by (apply utf8_first_Some in Hf; lia).
    repeat match goal with
           | |- context [if ?c then _ else _] => destruct c eqn:?
           | |- context [match ?l with [] => _ | _ :: _ => _ end] => destruct l
           end; intros H; inversion H; subst; auto; lia.
  - destruct (code b <? 128)%Z eqn:E; [apply Z.ltb_lt in E; lia |].
    intros H; inversion H; auto.
Qed.

(** The only sequences that decode to U+2028 and U+2029. *)
Lemma DecodeRune_line_separator (p : list byte) (r : Z) (size : nat) :
  utf8_DecodeRune p = (r, size) ->
  (r = 0x2028 \/ r = 0x2029)%Z ->
  2 <= size ->
  size = 3 /\ exists rest : list byte, p = utf8_EncodeRune r ++ rest.
Proof.
  unfold utf8_DecodeRune. destruct p as [|b0 t]; [intros H; inversion H; lia |].
  pose proof (code_range b0) as R0.
  destruct (utf8_first (code b0)) as [[sz [lo hi]]|] eqn:Hf; [| intros H; inversion H; lia].
  apply utf8_first_Some in Hf.
  destruct (length (b0 :: t) <? sz); [intros H; inversion H; lia |].
  destruct t as [|b1 t1]; [intros H; inversion H; lia |].
  pose proof (code_range b1) as R1.
  destruct (outside lo hi (code b1)) eqn:H1; [intros H; inversion H; lia |].
  apply outside_false in H1.
  destruct (sz <=? 2) eqn:Hle2.
  { apply Nat.leb_le in Hle2. rewrite rune2_value.
    intros H Hr Hs. inversion H; subst r size. exfalso. divmod. }
  apply Nat.leb_gt in Hle2.
  destruct t1 as [|b2 t2]; [intros H; inversion H; lia |].
  pose proof (code_range b2) as R2.
  destruct (outside 128 191 (code b2)) eqn:H2; [intros H; inversion H; lia |].
  apply outside_false in H2.
  destruct (sz <=? 3) eqn:Hle3.
  { apply Nat.leb_le in Hle3. rewrite rune3_value.
    intros H Hr Hs. inversion H; subst size. split; [reflexivity |].
    exists t2.
    assert (H0 : code b0 = 0xE2%Z) by divmod.
    assert (H1' : code b1 = 0x80%Z) by divmod.
    assert (H2' : (r = 0x2028 /\ code b2 = 0xA8 \/ r = 0x2029 /\ code b2 = 0xA9)%Z) by divmod.
    rewrite <- (byte_of_code_code b0), <- (byte_of_code_code b1), <- (byte_of_code_code b2).
    rewrite H0, H1'.
    destruct H2' as [[-> ->] | [-> ->]]; reflexivity. }
  apply Nat.leb_gt in Hle3.
  destruct t2 as [|b3 t3]; [intros H; inversion H; lia |].
  pose proof (code_range b3) as R3.
  destruct (outside 128 191 (code b3)) eqn:H3; [intros H; inversion H; lia |].
  apply outside_false in H3. rewrite rune4_value.
  intros H Hr Hs. inversion H; subst r size. exfalso. divmod.
Qed.

(** ** JSON strings *)

Lemma emit_Some (out tl rest : list byte) :
  emit out (Some (tl, rest)) = Some (out ++ tl, rest).
Proof. reflexivity. Qed.

Lemma unquote_ascii (b : byte) (s : list byte) :
  (code b < 0x80)%Z ->
  unquote_scan (InText AtStart) (escape_ascii b ++ s) =
  emit [b] (unquote_scan (InText AtStart) s).
Proof.
  destruct b; intros H; try (vm_compute in H; discriminate H); reflexivity.
Qed.

Lemma sub_1_S (n : nat) : S n - 1 = n.
Proof. lia. Qed.

Lemma quote_scan_copy (chunk s : list byte) :
  quote_scan (more Copying (length chunk)) (chunk ++ s) = chunk ++ quote_scan AtStart s.
Proof.
  induction chunk as [|b chunk IH]; [reflexivity |].
  cbn [length more app quote_scan]. by rewrite sub_1_S, IH.
Qed.

Lemma quote_scan_drop (chunk s : list byte) :
  quote_scan (more Dropping (length chunk)) (chunk ++ s) = quote_scan AtStart s.
Proof.
  induction chunk as [|b chunk IH]; [reflexivity |].
  cbn [length more app quote_scan]. by rewrite sub_1_S, IH.
Qed.

Lemma unquote_scan_copy (chunk s : list byte) :
  unquote_scan (InText (more Copying (length chunk))) (chunk ++ s) =
  emit chunk (unquote_scan (InText AtStart) s).
Proof.
  induction chunk as [|b chunk IH].
  - simpl. by destruct (unquote_scan (InText AtStart) s) as [[tl rest]|].
  - cbn [length more app unquote_scan]. rewrite sub_1_S, IH.
    by destruct (unquote_scan (InText AtStart) s) as [[tl rest]|].
Qed.

Lemma utf8_valid_scan_skip (chunk s : list byte) :
  utf8_valid_scan (length chunk) (chunk ++ s) = utf8_valid_scan 0 s.
Proof. induction chunk as [|b chunk IH]; [reflexivity | exact IH]. Qed.

(** Reading back what [json_quote] writes for a valid UTF-8 text. *)
Lemma unquote_quote_scan (s : list byte) :
  utf8_Valid s = true ->
  forall rest : list byte,
    unquote_scan (InText AtStart) (quote_scan AtStart s ++ x22 :: rest) = Some (s, rest).
Proof.
  unfold utf8_Valid.
  remember (length s) as n eqn:Hn. revert s Hn.
  induction n as [n IH] using lt_wf_ind. intros s Hn Hvalid rest.
  destruct s as [|b s']; [reflexivity |].
  cbn [quote_scan].
  destruct (code b <? 128)%Z eqn:Hascii.
  - apply Z.ltb_lt in Hascii.
    cbn [utf8_valid_scan] in Hvalid. rewrite DecodeRune_ascii in Hvalid by exact Hascii.
    assert (Hne : ((code b =? RuneError)%Z && (1 =? 1)) = false).
    { unfold RuneError. destruct (code b =? 65533)%Z eqn:E; [apply Z.eqb_eq in E; lia | reflexivity]. }
    rewrite Hne in Hvalid. simpl in Hvalid.
    rewrite <- app_assoc, unquote_ascii by exact Hascii.
    by rewrite (IH (length s')) with (s := s') by (simpl in Hn; lia || done).
  - apply Z.ltb_ge in Hascii.
    cbn [utf8_valid_scan] in Hvalid.
    destruct (utf8_DecodeRune (b :: s')) as [r size] eqn:Hdec.
    destruct ((r =? RuneError)%Z && (size =? 1)) eqn:Hbad; [discriminate |].
    assert (Hsize : 2 <= size).
    { destruct (DecodeRune_width b s' r size Hascii Hdec) as [[-> ->] | H]; [| exact H].
      by rewrite Z.eqb_refl in Hbad. }
    destruct (DecodeRune_multi _ _ _ Hdec Hsize) as (chunk & tail & Hp & Hlen & Hany).
    destruct chunk as [|b0 chunk]; [simpl in Hlen; lia |].
    simpl in Hp. injection Hp as <- ->. simpl in Hlen.
    assert (Hk : size - 1 = length chunk) by lia.
    rewrite Hk in Hvalid. rewrite utf8_valid_scan_skip in Hvalid.
    assert (Htail : unquote_scan (InText AtStart) (quote_scan AtStart tail ++ x22 :: rest) =
                    Some (tail, rest)).
    { apply (IH (length tail)); [| reflexivity | exact Hvalid].
      simpl in Hn. rewrite length_app in Hn. lia. }
    destruct ((r =? 8232)%Z || (r =? 8233)%Z) eqn:Hsep.
    + assert (Hr : (r = 0x2028 \/ r = 0x2029)%Z).
      { apply orb_prop in Hsep as [E | E]; apply Z.eqb_eq in E; auto. }
      destruct (DecodeRune_line_separator _ _ _ Hdec Hr Hsize) as [-> [tail' Heq]].
      rewrite Hk, quote_scan_drop.
      destruct chunk as [|b1 [|b2 [|b3 chunk]]]; simpl in Hlen; try lia.
      destruct Hr as [-> | ->]; simpl in Heq; injection Heq as -> -> -> _;
        cbn; rewrite Htail; reflexivity.
    + rewrite Hk, quote_scan_copy. cbn [app unquote_scan].
      assert (Hb : (code b =? 34)%Z = false) by (apply Z.eqb_neq; lia).
      assert (Hb1 : (code b =? 92)%Z = false) by (apply Z.eqb_neq; lia).
      assert (Hb2 : (code b <? 32)%Z = false) by (apply Z.ltb_ge; lia).
      assert (Hb3 : (code b <? 128)%Z = false) by (apply Z.ltb_ge; lia).
      rewrite Hb, Hb1, Hb2, Hb3.
      rewrite <- app_assoc.
      change (b :: chunk ++ quote_scan AtStart tail ++ x22 :: rest)
        with ((b :: chunk) ++ quote_scan AtStart tail ++ x22 :: rest).
      rewrite Hany, Hbad, Hk. cbn [app].
      rewrite unquote_scan_copy, Htail. reflexivity.
Qed.

Lemma unquote_json_quote (s : string) (rest : list byte) :
  utf8_ValidString s = true ->
  exists q : list byte,
    json_quote s ++ rest = x22 :: q /\
    unquote_scan (InText AtStart) q = Some (list_byte_of_string s, rest).
Proof.
  intros Hv. exists (quote_scan AtStart (list_byte_of_string s) ++ x22 :: rest). split.
  - unfold json_quote. simpl. by rewrite <- app_assoc.
  - by apply unquote_quote_scan.
Qed.

(** ** JSON numbers *)

Lemma uint_digits (d : Decimal.uint) :
  Forall (fun b => is_digit b = true) (list_byte_of_string (NilEmpty.string_of_uint d)).
Proof. induction d; simpl; constructor; try reflexivity; assumption. Qed.

Lemma span_digits_app (ds rest : list byte) :
  Forall (fun b => is_digit b = true) ds ->
  number_end rest = true ->
  span_digits (ds ++ rest) = (ds, rest).
Proof.
  intros Hds Hrest. induction Hds as [|b ds Hb _ IH]; simpl.
  - destruct rest as [|b rest]; [reflexivity |]. simpl in *.
    destruct (is_digit b); [discriminate | reflexivity].
  - by rewrite Hb, IH.
Qed.

(** The text of an integer: an optional sign, then digits. *)
Lemma render_int_shape (z : Z) :
  exists sign digits : list byte,
    render_int z = sign ++ digits /\
    (sign = [] \/ sign = [x2d]) /\
    digits <> [] /\
    Forall (fun b => is_digit b = true) digits /\
    NilZero.int_of_string (string_of_list_byte (sign ++ digits)) = Some (Z.to_int z).
Proof.
  assert (Hnil : forall d, d <> Decimal.Nil ->
            NilZero.string_of_uint d = NilEmpty.string_of_uint d /\
            list_byte_of_string (NilEmpty.string_of_uint d) <> []).
  { intros d Hd. destruct d; try congruence; split; try reflexivity; simpl; discriminate. }
  assert (Hrt : forall d, d <> Decimal.Nil ->
            NilZero.int_of_string (NilZero.string_of_int (Decimal.Pos d)) = Some (Decimal.Pos d) /\
            NilZero.int_of_string (NilZero.string_of_int (Decimal.Neg d)) = Some (Decimal.Neg d)).
  { intros d Hd. split; apply NilZero.isi; congruence. }
  unfold render_int.
  assert (Hcases : exists d, d <> Decimal.Nil /\
            (Z.to_int z = Decimal.Pos d \/ Z.to_int z = Decimal.Neg d)).
  { destruct z as [|p|p]; simpl.
    - exists (Decimal.D0 Decimal.Nil). split; [discriminate | by left].
    - exists (Pos.to_uint p). split; [apply Unsigned.to_uint_nonnil | by left].
    - exists (Pos.to_uint p). split; [apply Unsigned.to_uint_nonnil | by right]. }
  destruct Hcases as (d & Hd & [-> | ->]); destruct (Hnil d Hd) as [Hs Hne];
    destruct (Hrt d Hd) as [Hp Hn].
  - exists [], (list_byte_of_string (NilEmpty.string_of_uint d)).
    cbn [NilZero.string_of_int app] in *. rewrite Hs in *.
    split; [reflexivity |]. split; [by left |]. split; [exact Hne |].
    split; [apply uint_digits |].
    by rewrite string_of_list_byte_of_string.
  - exists [x2d], (list_byte_of_string (NilEmpty.string_of_uint d)).
    cbn [NilZero.string_of_int app] in *. rewrite Hs in *.
    split; [reflexivity |]. split; [by right |]. split; [exact Hne |].
    split; [apply uint_digits |].
    change (x2d :: list_byte_of_string (NilEmpty.string_of_uint d))
      with (list_byte_of_string (String "-" (NilEmpty.string_of_uint d))).
    by rewrite string_of_list_byte_of_string.
Qed.

Lemma scan_int_render_int (z : Z) (rest : list byte) :
  number_end rest = true ->
  scan_int (render_int z ++ rest) = Some (z, rest).
Proof.
  intros Hrest.
  destruct (render_int_shape z) as (sign & digits & -> & Hsign & Hne & Hds & Hint).
  unfold scan_int.
  destruct Hsign as [-> | ->].
  - destruct digits as [|b ds]; [congruence |]. simpl app.
    pose proof (Forall_inv Hds) as Hb. unfold is_digit in Hb.
    apply andb_prop in Hb as [Hb1 Hb2]. apply Z.leb_le in Hb1, Hb2.
    destruct (code b =? 45)%Z eqn:E; [apply Z.eqb_eq in E; lia |].
    change (b :: ds ++ rest) with ((b :: ds) ++ rest).
    rewrite span_digits_app by assumption. rewrite Hrest.
    cbn [app] in *. rewrite Hint. simpl. by rewrite DecimalZ.of_to.
  - cbn [app]. assert (E : (code x2d =? 45)%Z = true) by reflexivity.
    rewrite E. cbn iota beta.
    rewrite span_digits_app by assumption. rewrite Hrest.
    cbn [app] in *. rewrite Hint. simpl. by rewrite DecimalZ.of_to.
Qed.

(** The first byte of an integer is a sign or a digit. *)
Lemma render_int_head (z : Z) :
  exists (b : byte) (t : list byte),
    render_int z = b :: t /\ (code b = 0x2D \/ 0x30 <= code b <= 0x39)%Z.
Proof.
  destruct (render_int_shape z) as (sign & digits & -> & Hsign & Hne & Hds & _).
  destruct Hsign as [-> | ->].
  - destruct digits as [|b ds]; [congruence |]. exists b, ds. split; [reflexivity |].
    right. pose proof (Forall_inv Hds) as Hb. unfold is_digit in Hb.
    apply andb_prop in Hb as [Hb1 Hb2]. apply Z.leb_le in Hb1, Hb2. lia.
  - exists x2d, digits. split; [reflexivity | by left].
Qed.

(** ** JSON documents: reading back what is rendered *)

Lemma skip_space_spaces (n : nat) (s : list byte) :
  skip_space (concat (replicate n [x20; x20]) ++ s) = skip_space s.
Proof. induction n as [|n IH]; [reflexivity | exact IH]. Qed.

Lemma skip_space_newline (d : nat) (s : list byte) :
  skip_space (newline d ++ s) = skip_space s.
Proof. unfold newline. simpl. apply skip_space_spaces. Qed.

Lemma newline_length (d : nat) : 1 <= length (newline d).
Proof. unfold newline. simpl. lia. Qed.

Lemma json_render_JArray (d : nat) (x : json) (xs : list json) :
  json_render d (JArray (x :: xs)) =
  x5b :: newline (S d) ++ json_render (S d) x ++ render_elements d xs ++ newline d ++ [x5d].
Proof.
  cbn [json_render].
  match goal with
  | |- context [?F xs ++ newline d ++ _] => set (elements := F)
  end.
  assert (H : forall l, elements l = render_elements d l).
  { induction l as [|y l IH]; [reflexivity |].
    subst elements. cbn [render_elements]. by rewrite <- IH. }
  by rewrite H.
Qed.

Lemma json_render_JObject (d : nat) (k : string) (v : json) (kvs : list (string * json)) :
  json_render d (JObject ((k, v) :: kvs)) =
  x7b :: newline (S d) ++ json_quote k ++ x3a :: x20 :: json_render (S d) v
    ++ render_members d kvs ++ newline d ++ [x7d].
Proof.
  cbn [json_render].
  match goal with
  | |- context [?F kvs ++ newline d ++ _] => set (members := F)
  end.
  assert (H : forall l, members l = render_members d l).
  { induction l as [|[k' v'] l IH]; [reflexivity |].
    subst members. cbn [render_members]. by rewrite <- IH. }
  by rewrite H.
Qed.

Ltac code_tests :=
  repeat match goal with
         | |- context [(code ?b =? ?k)%Z] =>
           let E := fresh "E" in
           first [ assert (E : (code b =? k)%Z = false) by (apply Z.eqb_neq; lia)
                 | assert (E : (code b =? k)%Z = true) by (apply Z.eqb_eq; lia) ];
           rewrite E; clear E
         end.

Lemma render_head (d : nat) (j : json) :
  exists (b : byte) (t : list byte), json_render d j = b :: t /\ opens_value b.
Proof.
  destruct j as [|[|]|z|s|[|x xs]|[|[k v] kvs]].
  - eexists _, _. split; [reflexivity | unfold opens_value; vm_compute; repeat split; discriminate].
  - eexists _, _. split; [reflexivity | unfold opens_value; vm_compute; repeat split; discriminate].
  - eexists _, _. split; [reflexivity | unfold opens_value; vm_compute; repeat split; discriminate].
  - destruct (render_int_head z) as (b & t & Hr & Hb). exists b, t. split; [exact Hr |].
    unfold opens_value. lia.
  - eexists _, _. split; [reflexivity | unfold opens_value; vm_compute; repeat split; discriminate].
  - eexists _, _. split; [reflexivity | unfold opens_value; vm_compute; repeat split; discriminate].
  - rewrite json_render_JArray.
    eexists _, _. split; [reflexivity | unfold opens_value; vm_compute; repeat split; discriminate].
  - eexists _, _. split; [reflexivity | unfold opens_value; vm_compute; repeat split; discriminate].
  - rewrite json_render_JObject.
    eexists _, _. split; [reflexivity | unfold opens_value; vm_compute; repeat split; discriminate].
Qed.

Lemma skip_space_opens (b : byte) (s : list byte) :
  opens_value b -> skip_space (b :: s) = b :: s.
Proof.
  unfold opens_value. intros Hb. cbn [skip_space]. unfold is_space. code_tests. reflexivity.
Qed.

Lemma json_parse_newline (fuel d : nat) (s : list byte) :
  json_parse fuel (newline d ++ s) = json_parse fuel s.
Proof. destruct fuel; [reflexivity |]. cbn [json_parse]. by rewrite skip_space_newline. Qed.

Lemma json_parse_space (fuel : nat) (s : list byte) :
  json_parse fuel (x20 :: s) = json_parse fuel s.
Proof. destruct fuel; reflexivity. Qed.

Lemma number_end_comma (s : list byte) : number_end (x2c :: s) = true.
Proof. reflexivity. Qed.

Lemma number_end_newline (d : nat) (s : list byte) : number_end (newline d ++ s) = true.
Proof. reflexivity. Qed.

Lemma json_parse_number (fuel : nat) (z : Z) (rest : list byte) :
  number_end rest = true ->
  json_parse (S fuel) (render_int z ++ rest) = Some (JNumber z, rest).
Proof.
  intros Hrest. pose proof (scan_int_render_int z rest Hrest) as Hscan.
  destruct (render_int_head z) as (b & t & Hr & Hb). rewrite Hr in *.
  cbn [json_parse app] in *.
  rewrite skip_space_opens by (unfold opens_value; lia).
  code_tests. by rewrite Hscan.
Qed.

Lemma json_parse_string (fuel : nat) (s : string) (rest : list byte) :
  utf8_ValidString s = true ->
  json_parse (S fuel) (json_quote s ++ rest) = Some (JString s, rest).
Proof.
  intros Hs. destruct (unquote_json_quote s rest Hs) as (q & -> & Hq).
  cbn [json_parse skip_space]. change (is_space x22) with false. cbn iota.
  change (code x22) with 34%Z. cbn. rewrite Hq. cbn.
  by rewrite string_of_list_byte_of_string.
Qed.

(** Enough fuel reads a rendered document back, and leaves what follows
    it; likewise for the elements of an array and the members of an
    object after the opening bracket. *)
Lemma json_parse_render (fuel : nat) :
  (forall (j : json) (d : nat) (rest : list byte),
     json_text_valid j = true ->
     number_end rest = true ->
     length (json_render d j) < fuel ->
     json_parse fuel (json_render d j ++ rest) = Some (j, rest)) /\
  (forall (x : json) (xs : list json) (d : nat) (rest : list byte),
     json_text_valid x = true ->
     forallb json_text_valid xs = true ->
     length (newline (S d) ++ json_render (S d) x ++ render_elements d xs) < fuel ->
     parse_elements fuel
       (newline (S d) ++ json_render (S d) x ++ render_elements d xs
          ++ newline d ++ x5d :: rest) = Some (x :: xs, rest)) /\
  (forall (k : string) (v : json) (kvs : list (string * json)) (d : nat) (rest : list byte),
     utf8_ValidString k = true ->
     json_text_valid v = true ->
     forallb (fun kv => utf8_ValidString (fst kv) && json_text_valid (snd kv)) kvs = true ->
     length (newline (S d) ++ json_quote k ++ x3a :: x20 :: json_render (S d) v
               ++ render_members d kvs) < fuel ->
     parse_members fuel
       (newline (S d) ++ json_quote k ++ x3a :: x20 :: json_render (S d) v
          ++ render_members d kvs ++ newline d ++ x7d :: rest) = Some ((k, v) :: kvs, rest)).
Proof.
  induction fuel as [|fuel (IHv & IHe & IHm)]; [repeat split; intros; lia |].
  split; [| split].
  - (* a value *)
    intros j d rest Hvalid Hrest Hlen.
    destruct j as [|[|]|z|s|[|x xs]|[|[k v] kvs]]; try reflexivity.
    + by apply json_parse_number.
    + by apply json_parse_string.
    + rewrite json_render_JArray in *. cbn [json_text_valid forallb] in Hvalid.
      apply andb_prop in Hvalid as [Hx Hxs].
      cbn [app length] in Hlen. rewrite !length_app in Hlen.
      cbn [app json_parse skip_space].
      change (is_space x5b) with false. cbn iota. change (code x5b) with 91%Z.
      cbn [Z.eqb Pos.eqb]. rewrite <- ?app_assoc. cbn [app]. rewrite skip_space_newline.
      destruct (render_head (S d) x) as (b & t & Hr & Hb).
      rewrite Hr, <- app_comm_cons, skip_space_opens by exact Hb.
      unfold opens_value in Hb. code_tests. rewrite app_comm_cons, <- Hr.
      rewrite IHe; [reflexivity | exact Hx | exact Hxs |].
      rewrite !length_app. cbn [length] in Hlen. lia.
    + rewrite json_render_JObject in *. cbn [json_text_valid forallb fst snd] in Hvalid.
      apply andb_prop in Hvalid as [Hkv Hkvs]. apply andb_prop in Hkv as [Hk Hv].
      cbn [app length] in Hlen. rewrite !length_app in Hlen.
      cbn [app json_parse skip_space].
      change (is_space x7b) with false. cbn iota. change (code x7b) with 123%Z.
      cbn [Z.eqb Pos.eqb]. rewrite <- ?app_assoc. cbn [app]. rewrite skip_space_newline.
      assert (Hq : exists q, json_quote k = x22 :: q) by (eexists; reflexivity).
      destruct Hq as [q Hq]. rewrite Hq, <- app_comm_cons. cbn [skip_space].
      change (is_space x22) with false. cbn iota. change (code x22) with 34%Z.
      cbn [Z.eqb Pos.eqb]. rewrite app_comm_cons, <- Hq.
      rewrite <- ?app_assoc. cbn [app].
      rewrite (IHm k v kvs d rest); [reflexivity | exact Hk | exact Hv | exact Hkvs |].
      cbn [length] in Hlen. rewrite ?length_app in Hlen.
      rewrite !length_app. cbn [length]. rewrite ?length_app. lia.
  - (* the elements of an array *)
    intros x xs d rest Hx Hxs Hlen. rewrite !length_app in Hlen.
    pose proof (newline_length (S d)) as Hnl.
    cbn [parse_elements]. rewrite json_parse_newline.
    destruct xs as [|y ys].
    + cbn [render_elements app].
      rewrite IHv; [| exact Hx | apply number_end_newline | lia].
      cbn [mbind option_bind]. rewrite skip_space_newline. reflexivity.
    + cbn [render_elements] in *. cbn [forallb] in Hxs. apply andb_prop in Hxs as [Hy Hys].
      cbn [length] in Hlen. rewrite !length_app in Hlen.
      rewrite <- app_comm_cons.
      rewrite IHv; [| exact Hx | apply number_end_comma | lia].
      cbn [mbind option_bind skip_space]. change (is_space x2c) with false. cbn iota.
      change (code x2c) with 44%Z. cbn [Z.eqb Pos.eqb].
      rewrite <- ?app_assoc.
      rewrite (IHe y ys d rest); [reflexivity | exact Hy | exact Hys |].
      rewrite !length_app. lia.
  - (* the members of an object *)
    intros k v kvs d rest Hk Hv Hkvs Hlen. rewrite !length_app in Hlen.
    pose proof (newline_length (S d)) as Hnl.
    cbn [parse_members]. rewrite skip_space_newline.
    destruct (unquote_json_quote k
                (x3a :: x20 :: json_render (S d) v ++ render_members d kvs
                   ++ newline d ++ x7d :: rest) Hk) as (q & Hq & Hun).
    rewrite Hq. cbn [skip_space]. change (is_space x22) with false. cbn iota.
    change (code x22) with 34%Z. cbn [Z.eqb Pos.eqb]. rewrite Hun.
    cbn [mbind option_bind app skip_space]. change (is_space x3a) with false. cbn iota.
    change (code x3a) with 58%Z. cbn [Z.eqb Pos.eqb].
    rewrite json_parse_space, string_of_list_byte_of_string.
    cbn [length app] in Hlen. rewrite ?length_app in Hlen.
    destruct kvs as [|[k' v'] kvs'].
    + cbn [render_members app length] in *.
      rewrite IHv; [| exact Hv | apply number_end_newline | lia].
      cbn [mbind option_bind]. rewrite skip_space_newline. reflexivity.
    + cbn [render_members] in *. cbn [forallb fst snd] in Hkvs.
      apply andb_prop in Hkvs as [Hkv' Hkvs']. apply andb_prop in Hkv' as [Hk' Hv'].
      cbn [length] in Hlen. rewrite !length_app in Hlen.
      rewrite <- app_comm_cons.
      rewrite IHv; [| exact Hv | apply number_end_comma | lia].
      cbn [mbind option_bind skip_space]. change (is_space x2c) with false. cbn iota.
      change (code x2c) with 44%Z. cbn [Z.eqb Pos.eqb].
      rewrite <- ?app_assoc. cbn [app]. rewrite <- ?app_assoc. cbn [app].
      rewrite (IHm k' v' kvs' d rest); [reflexivity | exact Hk' | exact Hv' | exact Hkvs' |].
      rewrite !length_app. cbn [length]. rewrite ?length_app. lia.
Qed.

Lemma json_decode_render (j : json) :
  json_text_valid j = true ->
  json_decode (json_render 0 j) = Some j.
Proof.
  intros Hj. unfold json_decode.
  pose proof (proj1 (json_parse_render (S (length (json_render 0 j)))) j 0 [] Hj eq_refl) as H.
  rewrite app_nil_r in H. rewrite H by lia. reflexivity.
Qed.

(** ** From documents back to values *)

Lemma strings_of_json_of_strings (v : slice string) :
  strings_of_json (json_of_strings v) = Some v.
Proof.
  destruct v as [l|]; [| reflexivity]. cbn [json_of_strings strings_of_json].
  assert (H : mapM (string_of_json "") (JString <$> l) = Some l).
  { induction l as [|s l IH]; [reflexivity |]. cbn. by rewrite IH. }
  by rewrite H.
Qed.

Lemma foldl_insert_union (l : list (string * slice string)) (acc : gmap string (slice string)) :
  NoDup (fst <$> l) ->
  foldl (fun a kv => <[fst kv := snd kv]> a) acc l = list_to_map l ∪ acc.
Proof.
  revert acc. induction l as [|[k v] l IH]; intros acc Hnd.
  - cbn. by rewrite (left_id_L ∅ (∪)).
  - cbn [fmap list_fmap fst] in Hnd. apply NoDup_cons in Hnd as [Hk Hnd].
    cbn [foldl list_to_map fst snd]. rewrite IH by exact Hnd.
    rewrite <- insert_union_r by (by apply not_elem_of_list_to_map_1).
    by rewrite insert_union_l.
Qed.

Lemma Header_member_of_strings (acc : gmap string (slice string)) (k : string) (v : slice string) :
  Header_member acc (k, json_of_strings v) = Some (<[k := v]> acc).
Proof. unfold Header_member. cbn [fst snd]. by rewrite strings_of_json_of_strings. Qed.

Lemma fill_Header_member (l : list (string * slice string)) (acc : gmap string (slice string)) :
  fill Header_member ((fun kv => (fst kv, json_of_strings (snd kv))) <$> l) acc =
  Some (foldl (fun a kv => <[fst kv := snd kv]> a) acc l).
Proof.
  revert acc. induction l as [|[k v] l IH]; intros acc; [reflexivity |].
  cbn [fmap list_fmap fill fst snd]. rewrite Header_member_of_strings.
  cbn [mbind option_bind]. apply IH.
Qed.

Lemma Header_of_json_of_Header (h : http_Header) :
  Header_of_json None (json_of_Header h) = Some h.
Proof.
  destruct h as [m|]; [| reflexivity]. cbn [json_of_Header Header_of_json default].
  rewrite fill_Header_member.
  pose proof (merge_sort_Permutation key_le (map_to_list m)) as Hperm.
  rewrite foldl_insert_union.
  - rewrite (right_id_L ∅ (∪)). unfold fmap, option_fmap, option_map. do 2 f_equal.
    transitivity (list_to_map (map_to_list m) : gmap string (slice string)).
    + apply list_to_map_proper; [| exact Hperm].
      rewrite Hperm. apply NoDup_fst_map_to_list.
    + apply list_to_map_to_list.
  - rewrite Hperm. apply NoDup_fst_map_to_list.
Qed.

Lemma fill_VCRRequest (r : VCRRequest) :
  match json_of_VCRRequest r with
  | JObject l => fill VCRRequest_member l zero_VCRRequest
  | _ => None
  end = Some r.
Proof.
  destruct r as [m u b]. cbn [json_of_VCRRequest fill VCRRequest_member String.eqb Ascii.eqb
    Bool.eqb string_of_json mbind option_bind Method URL Body zero_VCRRequest].
  cbn. by rewrite bytes_of_json_of_bytes.
Qed.

Lemma fill_VCRResponse (r : VCRResponse) :
  match json_of_VCRResponse r with
  | JObject l => fill VCRResponse_member l zero_VCRResponse
  | _ => None
  end = Some r.
Proof.
  destruct r as [s sc cl h b]. unfold json_of_VCRResponse, zero_VCRResponse.
  cbn -[Header_of_json json_of_Header bytes_of_json json_of_bytes].
  rewrite Header_of_json_of_Header.
  cbn -[bytes_of_json json_of_bytes]. by rewrite bytes_of_json_of_bytes.
Qed.

Lemma Episode_of_json_of_Episode (e : Episode) :
  Episode_of_json (json_of_Episode e) = Some e.
Proof.
  destruct e as [req res]. unfold json_of_Episode, Episode_of_json.
  pose proof (fill_VCRRequest req) as Hreq. pose proof (fill_VCRResponse res) as Hres.
  unfold json_of_VCRRequest in *. unfold json_of_VCRResponse in *.
  cbn [fill Episode_member String.eqb Ascii.eqb Bool.eqb fst snd default Request Response].
  cbn -[VCRRequest_member VCRResponse_member fill] .
  cbn [fill] in *.
  rewrite Hreq. cbn -[VCRRequest_member VCRResponse_member]. rewrite Hres. reflexivity.
Qed.

Lemma mapM_Episode_of_json (l : list Episode) :
  mapM Episode_of_json (json_of_Episode <$> l) = Some l.
Proof.
  induction l as [|e l IH]; [reflexivity |].
  cbn [fmap list_fmap mapM]. rewrite Episode_of_json_of_Episode. cbn. by rewrite IH.
Qed.

Lemma fill_cassette (c c0 : cassette) :
  match json_of_cassette c with
  | JObject l => fill cassette_member l c0
  | _ => None
  end = Some {| name := name c0; Episodes := Episodes c; Gzip := Gzip c;
                episodeMatcher := episodeMatcher c0 |}.
Proof.
  unfold json_of_cassette. destruct (Episodes c) as [l|].
  - cbn -[Episode_of_json json_of_Episode]. rewrite mapM_Episode_of_json. reflexivity.
  - reflexivity.
Qed.

(** ** The text of a cassette is valid UTF-8 where its text fields are *)

Lemma utf8_Valid_ascii (s : list byte) :
  Forall (fun b => (code b < 0x80)%Z) s -> utf8_Valid s = true.
Proof.
  unfold utf8_Valid. induction 1 as [|b s Hb _ IH]; [reflexivity |].
  cbn [utf8_valid_scan]. rewrite DecodeRune_ascii by exact Hb.
  assert (E : (code b =? RuneError)%Z = false) by (apply Z.eqb_neq; unfold RuneError; lia).
  rewrite E. exact IH.
Qed.

Lemma base64_Encode_ascii (src : list byte) :
  Forall (fun b => (code b < 0x80)%Z) (base64_Encode src).
Proof.
  apply Forall_forall. intros b Hb. apply base64_Encode_alphabet in Hb.
  assert (Hall : Forall (fun b => (code b < 0x80)%Z) (b64_pad :: x00 :: encodeStd)).
  { repeat (constructor; [reflexivity |]). constructor. }
  by apply (proj1 (Forall_forall _ _) Hall).
Qed.

Lemma json_of_bytes_valid (b : slice byte) : json_text_valid (json_of_bytes b) = true.
Proof.
  destruct b as [l|]; [| reflexivity]. cbn [json_of_bytes json_text_valid].
  unfold utf8_ValidString. rewrite list_byte_of_string_of_list_byte.
  apply utf8_Valid_ascii, base64_Encode_ascii.
Qed.

Lemma json_of_strings_valid (v : slice string) :
  strings_text_valid v = true -> json_text_valid (json_of_strings v) = true.
Proof.
  destruct v as [l|]; [| reflexivity]. unfold strings_text_valid. cbn [elems default].
  cbn [json_of_strings json_text_valid]. induction l as [|s l IH]; [reflexivity |].
  cbn [forallb fmap list_fmap json_text_valid]. intros H.
  apply andb_prop in H as [-> H]. exact (IH H).
Qed.

Lemma json_of_Header_valid (h : http_Header) :
  Header_text_valid h = true -> json_text_valid (json_of_Header h) = true.
Proof.
  destruct h as [m|]; [| reflexivity]. cbn [Header_text_valid json_of_Header json_text_valid].
  intros H. rewrite forallb_forall in H. apply forallb_forall. intros [k j] Hin.
  apply in_map_iff in Hin as ([k' v] & Heq & Hin). injection Heq as <- <-.
  assert (Hin' : In (k', v) (map_to_list m)).
  { apply list_elem_of_In. rewrite <- (merge_sort_Permutation key_le (map_to_list m)).
    by apply list_elem_of_In. }
  specialize (H _ Hin'). cbn [fst snd] in *. apply andb_prop in H as [-> H].
  by apply json_of_strings_valid.
Qed.

Lemma json_of_Episode_valid (e : Episode) :
  Episode_text_valid e = true -> json_text_valid (json_of_Episode e) = true.
Proof.
  unfold Episode_text_valid, VCRRequest_text_valid, VCRResponse_text_valid.
  intros H. apply andb_prop in H as [Hreq Hres].
  apply andb_prop in Hreq as [Hm Hu]. apply andb_prop in Hres as [Hs Hh].
  unfold json_of_Episode, json_of_VCRRequest, json_of_VCRResponse.
  cbn [json_text_valid forallb fst snd].
  rewrite Hm, Hu, Hs, !json_of_bytes_valid, (json_of_Header_valid _ Hh).
  reflexivity.
Qed.

Lemma json_of_cassette_valid (c : cassette) :
  cassette_text_valid c = true -> json_text_valid (json_of_cassette c) = true.
Proof.
  unfold cassette_text_valid, json_of_cassette. intros H.
  cbn [json_text_valid forallb fst snd].
  assert (He : json_text_valid
                 match Episodes c with
                 | Some l => JArray (json_of_Episode <$> l)
                 | None => JNull
                 end = true).
  { destruct (Episodes c) as [l|]; [| reflexivity]. cbn [elems default] in H.
    cbn [json_text_valid]. induction l as [|e l IH]; [reflexivity |].
    cbn [forallb fmap list_fmap] in *. apply andb_prop in H as [He H].
    by rewrite (json_of_Episode_valid _ He), (IH H). }
  rewrite He. reflexivity.
Qed.

(** ** Writing a cassette and reading it back *)

Lemma json_Unmarshal_render (c c0 : cassette) :
  cassette_text_valid c = true ->
  json_Unmarshal (json_render 0 (json_of_cassette c)) c0 =
  Some {| name := name c0; Episodes := Episodes c; Gzip := Gzip c;
          episodeMatcher := episodeMatcher c0 |}.
Proof.
  intros Hc. unfold json_Unmarshal.
  rewrite (json_decode_render _ (json_of_cassette_valid _ Hc)).
  cbn [mbind option_bind]. exact (fill_cassette c c0).
Qed.

Lemma Filename_eq (c c0 : cassette) :
  name c0 = name c -> Gzip c0 = Gzip c -> Filename c0 = Filename c.
Proof. unfold Filename. by intros -> ->. Qed.

(** C2, as the code has it. For a cassette whose text fields (method,
    URL, status text, header names and values) are valid UTF-8, saving
    it and loading the written file into a new cassette of the same name
    and compression flag gives back the episode sequence field for field:
    bodies of any bytes, which are written in base64; a nil body or
    header value as nil and an empty one as empty; the values under each
    header name in their order. The queue of the matcher is set to that
    sequence. A compressed cassette needs the compressor to give back
    what it was given. *)
Theorem write_read_round_trip (c c0 : cassette) (w w' : World) :
  cassette_text_valid c = true ->
  (Gzip c = true -> gzip_round_trip (gzip w)) ->
  Episodes c0 = None ->
  name c0 = name c ->
  Gzip c0 = Gzip c ->
  write c w = Ok w' ->
  read c0 w' =
  Ok {| name := name c; Episodes := Episodes c; Gzip := Gzip c;
        episodeMatcher := {| episodes := Episodes c |} |}.
Proof.
  intros Hvalid Hgzip _ Hname Hflag Hwrite.
  pose proof (json_Unmarshal_render c c0 Hvalid) as Hjson.
  unfold write in Hwrite.
  set (jsonOut := json_render 0 (json_of_cassette c)) in *. clearbody jsonOut.
  destruct (ioutil_WriteFile _ _ _) as [fs2|] eqn:Hfile; [| discriminate].
  injection Hwrite as <-.
  unfold ioutil_WriteFile in Hfile.
  destruct (writable _ _); [| discriminate]. injection Hfile as <-.
  unfold read. rewrite (Filename_eq c c0 Hname Hflag), Hflag.
  unfold ioutil_ReadFile. cbn [fs with_fs]. rewrite lookup_insert_eq.
  destruct (Gzip c) eqn:Hg.
  - unfold gunzipWrite, gzipWrite. cbn [gzip with_fs].
    rewrite (Hgzip eq_refl). cbn [outcome_bind].
    rewrite Hjson. cbn [name Episodes Gzip episodeMatcher Init].
    by rewrite Hname.
  - cbn [outcome_bind].
    rewrite Hjson. cbn [name Episodes Gzip episodeMatcher Init].
    by rewrite Hname.
Qed.

Lemma idle_gzip_round_trip : gzip_round_trip idle_gzip.
Proof. intros data. reflexivity. Qed.

Lemma write_read_round_trip_witness :
  exists w' : World,
    write (Cassette sample_replay) sample_world = Ok w' /\
    read (fresh_cassette (Cassette sample_replay)) w' =
    Ok {| name := "test_cassette"; Episodes := Some [sample_episode]; Gzip := false;
          episodeMatcher := {| episodes := Some [sample_episode] |} |}.
Proof.
  destruct (write (Cassette sample_replay) sample_world) as [w'|msg] eqn:Hw.
  - exists w'. split; [reflexivity |].
    apply (write_read_round_trip (Cassette sample_replay)
             (fresh_cassette (Cassette sample_replay)) sample_world w');
      [reflexivity | discriminate | reflexivity | reflexivity | reflexivity | exact Hw].
  - vm_compute in Hw. discriminate Hw.
Defined.

(** The header value that is the byte 0xFF comes back as the three
    bytes of U+FFFD. *)
Lemma cassette_round_trip_fails : ~ cassette_round_trip.
Proof.
  intros H.
  destruct (write latin1_cassette sample_world) as [w'|msg] eqn:Hw;
    [| vm_compute in Hw; discriminate Hw].
  destruct (H latin1_cassette (fresh_cassette latin1_cassette) sample_world w'
              idle_gzip_round_trip eq_refl eq_refl eq_refl Hw) as (c' & Hr & He).
  vm_compute in Hw. injection Hw as <-.
  apply (f_equal (fun r => match r with
                           | Ok c => (fun e => Header (Response e) ≫= (fun m => m !! "X-Name"))
                                       <$> elems (Episodes c)
                           | Panic _ => []
                           end)) in Hr.
  rewrite He in Hr. vm_compute in Hr. discriminate Hr.
Qed.

(** ** A session from recording to replay *)

(** A directory at the path of the file when the session starts makes
    it a replaying session, whose load fails: the case is not one of a
    recording session. *)
Lemma Start_directory_at_path (v : HTTPVCR) (parent : ctx_err) (w : World) :
  mode v = ModeStopped ->
  Gzip (Cassette v) = false ->
  fs w !! Filename (Cassette v) = Some Dir ->
  Start v parent w = Panic "httpvcr: cannot parse json!".
Proof.
  intros Hmode Hg Hdir. unfold Start. rewrite Hmode. cbn [bool_decide negb outcome_bind].
  assert (Hex : forall w0, fs w0 = fs w -> Exists (Cassette v) w0 = true).
  { intros w0 Hw0. unfold Exists, os_Stat_ok. cbn. by rewrite Hw0, Hdir. }
  assert (Hread : forall w0, fs w0 = fs w ->
            read (Cassette v) w0 = Panic "httpvcr: cannot parse json!").
  { intros w0 Hw0. unfold read, ioutil_ReadFile. by rewrite Hw0, Hdir, Hg. }
  cbn. destruct (HTTPDefaultOverride (options v)); cbn.
  - rewrite (Hex (with_DefaultTransport w Self)) by reflexivity.
    cbn. by rewrite (Hread (with_DefaultTransport w Self)) by reflexivity.
  - rewrite (Hex w) by reflexivity. cbn. by rewrite (Hread w) by reflexivity.
Qed.

(** The run of [TestVCR] cut to one call: what was recorded is what the
    next session of the same name answers, as an HTTP/1.0 response. *)
Lemma record_then_replay :
  exists (w1 : World) (es : slice Episode) (v2 : HTTPVCR) (w2 : World) (r : RoundTripResult),
    (do (v, w) <- Start (FilterResponseBody (New "test_cassette" []) "secret-key" "dummy-key")
                    NoError
                    {| fs := ∅; gzip := idle_gzip;
                       http_DefaultTransport := Transport ok_transport |};
     do r <- RoundTrip v w keyed_request;
     do (v', w') <- Stop (session r) (world r);
     Ok (w', Episodes (Cassette v'))) = Ok (w1, es) /\
    Start (FilterResponseBody (New "test_cassette" []) "secret-key" "dummy-key") NoError w1 =
      Ok (v2, w2) /\
    mode v2 = ModeReplay /\
    Episodes (Cassette v2) = es /\
    RoundTrip v2 w2 keyed_request = Ok r /\
    fst (returned r) =
      Some {| Response_Status := "200 OK"; Response_StatusCode := 200;
              Response_Proto := "HTTP/1.0"; Response_ProtoMajor := 1; Response_ProtoMinor := 0;
              Response_Header := Some {[ "Test" := Some ["yes"] ]};
              Response_ContentLength := 2;
              Response_Body := Some (bytes_NewBuffer (Some (bytes_of_string "ok"))) |}.
Proof.
  eexists _, _, _, _, _.
  split; [vm_compute; reflexivity |].
  split; [vm_compute; reflexivity |].
  split; [reflexivity |].
  split; [reflexivity |].
  split; [vm_compute; reflexivity |].
  vm_compute. reflexivity.
Qed.

(** ** Occurrences, left to right *)

Lemma bytes_HasPrefix_extend (s z old : list byte) :
  bytes_HasPrefix s old = true -> bytes_HasPrefix (s ++ z) old = true.
Proof.
  revert s. induction old as [|o old IH]; intros s H; [reflexivity |].
  destruct s as [|b s]; [discriminate |]. cbn [app bytes_HasPrefix] in *.
  apply andb_prop in H as [-> H]. by rewrite (IH _ H).
Qed.

Lemma bytes_HasPrefix_within (s z old : list byte) :
  length old <= length s -> bytes_HasPrefix (s ++ z) old = bytes_HasPrefix s old.
Proof.
  revert s. induction old as [|o old IH]; intros s H; [reflexivity |].
  destruct s as [|b s]; [cbn in H; lia |]. cbn [app bytes_HasPrefix length] in *.
  rewrite IH by lia. reflexivity.
Qed.

Lemma bytes_HasPrefix_length (s old : list byte) :
  bytes_HasPrefix s old = true -> length old <= length s.
Proof.
  revert s. induction old as [|o old IH]; intros s H; [cbn; lia |].
  destruct s as [|b s]; [discriminate |]. cbn [bytes_HasPrefix length] in *.
  apply andb_prop in H as [_ H]. apply IH in H. lia.
Qed.

Lemma bytes_Contains_length (s old : list byte) :
  bytes_Contains s old = true -> length old <= length s.
Proof.
  induction s as [|b s IH]; cbn [bytes_Contains]; intros H.
  - apply orb_prop in H as [H | H]; [by apply bytes_HasPrefix_length | discriminate].
  - apply orb_prop in H as [H | H]; [by apply bytes_HasPrefix_length |].
    apply IH in H. cbn [length]. lia.
Qed.

Lemma bytes_HasPrefix_split (s old : list byte) :
  bytes_HasPrefix s old = true -> exists rest : list byte, s = old ++ rest.
Proof.
  revert s. induction old as [|o old IH]; intros s H; [by exists s |].
  destruct s as [|b s]; [discriminate |]. cbn [bytes_HasPrefix] in H.
  apply andb_prop in H as [Hb H]. apply bool_decide_eq_true in Hb. subst b.
  destruct (IH _ H) as [rest ->]. by exists rest.
Qed.

Lemma removelast_short (old : list byte) :
  old <> [] -> bytes_Contains (removelast old) old = false.
Proof.
  intros Hold. destruct (bytes_Contains (removelast old) old) eqn:H; [| reflexivity].
  apply bytes_Contains_length in H.
  rewrite (app_removelast_last x00 Hold) in H at 1.
  rewrite length_app in H. cbn in H. lia.
Qed.

(** The first occurrence: [old] starts nowhere before it. *)
Lemma bytes_Contains_first (old s : list byte) :
  old <> [] ->
  bytes_Contains s old = true ->
  exists p rest : list byte,
    s = p ++ old ++ rest /\ bytes_Contains (p ++ removelast old) old = false.
Proof.
  intros Hold. induction s as [|b s IH]; intros H.
  - cbn in H. apply orb_prop in H as [H | H]; [| discriminate].
    apply bytes_HasPrefix_length in H. destruct old; [congruence | cbn in H; lia].
  - cbn [bytes_Contains] in H. destruct (bytes_HasPrefix (b :: s) old) eqn:Hp.
    + destruct (bytes_HasPrefix_split _ _ Hp) as [rest Hs].
      exists [], rest. split; [exact Hs | by apply removelast_short].
    + cbn [orb] in H. destruct (IH H) as (p & rest & -> & Hfree).
      exists (b :: p), rest. split; [reflexivity |].
      cbn [app bytes_Contains]. rewrite Hfree, orb_false_r.
      destruct (bytes_HasPrefix (b :: p ++ removelast old) old) eqn:Hq; [| reflexivity].
      pose proof (bytes_HasPrefix_extend _ ([List.last old x00] ++ rest) _ Hq) as Hq'.
      assert (E : (b :: p ++ removelast old) ++ [List.last old x00] ++ rest = b :: p ++ old ++ rest).
      { rewrite (app_removelast_last x00 Hold) at 3.
        cbn [app]. by rewrite <- !app_assoc. }
      rewrite E in Hq'. congruence.
Qed.

Lemma joined_cons (sep p q : list byte) (qs : list (list byte)) :
  joined sep (p :: q :: qs) = p ++ sep ++ joined sep (q :: qs).
Proof. reflexivity. Qed.

Lemma cut_at_cons (old p q : list byte) (qs : list (list byte)) :
  cut_at old (p :: q :: qs) =
  negb (bytes_Contains (p ++ removelast old) old) && cut_at old (q :: qs).
Proof. reflexivity. Qed.

Lemma cut_at_nonempty (old : list byte) (pieces : list (list byte)) :
  cut_at old pieces = true -> pieces <> [].
Proof. by destruct pieces. Qed.

(** Every byte string is cut at the occurrences of [old] in one way. *)
Lemma cut_at_exists (old : list byte) :
  old <> [] ->
  forall s : list byte,
    exists pieces : list (list byte), s = joined old pieces /\ cut_at old pieces = true.
Proof.
  intros Hold s. remember (length s) as n eqn:Hn. revert s Hn.
  induction n as [n IH] using lt_wf_ind. intros s Hn.
  destruct (bytes_Contains s old) eqn:Hc.
  - destruct (bytes_Contains_first old s Hold Hc) as (p & rest & -> & Hfree).
    destruct (IH (length rest)) with (s := rest) as (ps & -> & Hps); [| reflexivity |].
    { rewrite Hn, !length_app. destruct old; [congruence | cbn; lia]. }
    exists (p :: ps). destruct ps as [|q qs]; [discriminate |].
    split; [reflexivity |]. by rewrite cut_at_cons, Hfree, Hps.
  - exists [s]. split; [reflexivity |]. cbn. by rewrite Hc.
Qed.

Lemma bytes_Contains_app_l (s z old : list byte) :
  bytes_Contains (s ++ z) old = false -> bytes_Contains s old = false.
Proof.
  induction s as [|b s IH]; cbn [app bytes_Contains]; intros H.
  - destruct (bytes_HasPrefix [] old) eqn:Hp; [| reflexivity].
    destruct old; [| discriminate]. by destruct z.
  - apply orb_false_iff in H as [Hp Hc]. rewrite (IH Hc), orb_false_r.
    destruct (bytes_HasPrefix (b :: s) old) eqn:Hq; [| reflexivity].
    pose proof (bytes_HasPrefix_extend (b :: s) z old Hq) as Hq'. cbn [app] in Hq'. congruence.
Qed.

Lemma count_scan_passes (old l s : list byte) :
  count_scan old (length l) (l ++ s) = count_scan old 0 s.
Proof. induction l as [|b l IH]; [reflexivity | exact IH]. Qed.

(** The copy loop up to the first occurrence and past it. *)
Lemma replace_scan_first (old new p rest : list byte) :
  old <> [] ->
  bytes_Contains (p ++ removelast old) old = false ->
  replace_scan old new 0 (p ++ old ++ rest) = p ++ new ++ replace_scan old new 0 rest /\
  count_scan old 0 (p ++ old ++ rest) = S (count_scan old 0 rest).
Proof.
  intros Hold. induction p as [|b p IH]; intros Hfree.
  - cbn [app]. split; [by apply replace_scan_match |].
    pose proof (bytes_HasPrefix_app old rest) as Hp.
    destruct old as [|o old]; [congruence |].
    cbn [app count_scan] in *. rewrite Hp. f_equal.
    cbn [length]. rewrite Nat.sub_succ, Nat.sub_0_r.
    apply count_scan_passes.
  - cbn [app bytes_Contains] in Hfree. apply orb_false_iff in Hfree as [Hp Hc].
    destruct (IH Hc) as [IHr IHc].
    assert (Hq : bytes_HasPrefix (b :: p ++ old ++ rest) old = false).
    { rewrite <- Hp.
      assert (E : b :: p ++ old ++ rest = (b :: p ++ removelast old) ++ [List.last old x00] ++ rest).
      { rewrite (app_removelast_last x00 Hold) at 1.
        cbn [app]. by rewrite <- !app_assoc. }
      rewrite E. apply bytes_HasPrefix_within. cbn [length]. rewrite length_app.
      rewrite (app_removelast_last x00 Hold) at 1. rewrite length_app. cbn. lia. }
    cbn [app replace_scan count_scan]. rewrite Hq, IHr, IHc. by split.
Qed.

Lemma replace_scan_absent (old new s : list byte) :
  bytes_Contains s old = false -> replace_scan old new 0 s = s.
Proof.
  induction s as [|b s IH]; [reflexivity |].
  cbn [bytes_Contains replace_scan]. intros H.
  apply orb_false_iff in H as [Hp Hc]. rewrite Hp. by rewrite IH.
Qed.

Lemma count_scan_absent (old s : list byte) :
  bytes_Contains s old = false -> count_scan old 0 s = 0.
Proof.
  induction s as [|b s IH]; [reflexivity |].
  cbn [bytes_Contains count_scan]. intros H.
  apply orb_false_iff in H as [Hp Hc]. rewrite Hp. by apply IH.
Qed.

(** [bytes.Replace] over a string cut at the occurrences of [old]: each
    occurrence gives way to [new], the pieces stay. *)
Lemma replace_scan_joined (old new : list byte) (pieces : list (list byte)) :
  old <> [] ->
  cut_at old pieces = true ->
  replace_scan old new 0 (joined old pieces) = joined new pieces /\
  count_scan old 0 (joined old pieces) = length pieces - 1.
Proof.
  intros Hold. induction pieces as [|p ps IH]; [discriminate |].
  destruct ps as [|q qs].
  - cbn [cut_at joined length]. intros H. apply negb_true_iff in H.
    by rewrite replace_scan_absent, count_scan_absent.
  - intros H. rewrite cut_at_cons in H.
    apply andb_prop in H as [Hp Hps]. apply negb_true_iff in Hp.
    destruct (IH Hps) as [IHr IHc].
    rewrite !joined_cons.
    destruct (replace_scan_first old new p (joined old (q :: qs)) Hold Hp) as [-> ->].
    rewrite IHr, IHc. split; [reflexivity |]. cbn [length]. lia.
Qed.

Lemma bytes_Replace_joined (old new : list byte) (pieces : list (list byte)) :
  old <> [] ->
  cut_at old pieces = true ->
  bytes_Replace (Some (joined old pieces)) old new =
  match joined old pieces with
  | [] => None
  | _ :: _ => Some (joined new pieces)
  end.
Proof.
  intros Hold Hcut. destruct (replace_scan_joined old new pieces Hold Hcut) as [Hr Hc].
  unfold bytes_Replace. destruct old as [|o old]; [congruence |].
  change (elems (Some ?s)) with s. rewrite Hc, Hr.
  destruct pieces as [|p [|q qs]]; [discriminate | |].
  - cbn [length joined Nat.sub]. by destruct p.
  - cbn [length Nat.sub]. 
    rewrite (joined_cons (o :: old)).
    by destruct p.
Qed.

(** ** Where a copy of the key can lie *)

Lemma bytes_HasPrefix_sep (l l2 sub : list byte) (b : byte) :
  b ∉ sub -> bytes_HasPrefix (l ++ b :: l2) sub = bytes_HasPrefix l sub.
Proof.
  intros Hb. revert l. induction sub as [|p sub IH]; intros l; [reflexivity |].
  apply not_elem_of_cons in Hb as [Hp Hsub].
  destruct l as [|x l]; cbn [app bytes_HasPrefix].
  - by rewrite bool_decide_eq_false_2.
  - by rewrite (IH Hsub).
Qed.

(** A byte that is not of [sub] parts the text: a copy of [sub] lies
    before it or after it. *)
Lemma bytes_Contains_sep (l1 l2 sub : list byte) (b : byte) :
  b ∉ sub ->
  bytes_Contains (l1 ++ b :: l2) sub = bytes_Contains l1 sub || bytes_Contains l2 sub.
Proof.
  intros Hb. induction l1 as [|x l1 IH].
  - pose proof (bytes_HasPrefix_sep [] l2 sub b Hb) as E.
    cbn [app bytes_Contains] in *. by rewrite E, orb_false_r.
  - pose proof (bytes_HasPrefix_sep (x :: l1) l2 sub b Hb) as E.
    cbn [app bytes_Contains] in *. by rewrite IH, E, orb_assoc.
Qed.

(** Bytes other than the first of [sub] start no copy of it. *)
Lemma bytes_Contains_skip (e r t : list byte) (h : byte) :
  Forall (fun b => b <> h) e ->
  bytes_Contains (e ++ r) (h :: t) = bytes_Contains r (h :: t).
Proof.
  induction 1 as [|b e Hb _ IH]; [reflexivity |].
  cbn [app]. rewrite <- IH. cbn [bytes_Contains bytes_HasPrefix].
  by rewrite bool_decide_eq_false_2.
Qed.

Lemma secret_key_head : secret_key = "s"%byte :: bytes_of_string "ecret-key".
Proof. reflexivity. Qed.

Lemma key_skip (e r : list byte) :
  Forall (fun b => b <> "s"%byte) e ->
  bytes_Contains (e ++ r) secret_key = bytes_Contains r secret_key.
Proof. rewrite secret_key_head. apply bytes_Contains_skip. Qed.

Lemma key_skip_byte (b : byte) (r : list byte) :
  b <> "s"%byte ->
  bytes_Contains (b :: r) secret_key = bytes_Contains r secret_key.
Proof. intros Hb. apply (key_skip [b]). by constructor. Qed.

Lemma key_absent (e : list byte) :
  Forall (fun b => b <> "s"%byte) e -> bytes_Contains e secret_key = false.
Proof. intros H. rewrite <- (app_nil_r e). by rewrite key_skip. Qed.

Lemma starts_apart_skip (s : list byte) :
  starts_apart s -> bytes_Contains s secret_key = 
                    bytes_Contains (tail s) secret_key.
Proof.
  destruct s as [|b s]; [reflexivity |]. cbn [starts_apart tail]. intros Hb.
  apply key_skip_byte. intros ->. apply Hb. apply list_elem_of_In. by left.
Qed.

(** Before a byte that is not of the key, a text holds the key where it
    or what follows does. *)
Lemma key_before (l s : list byte) :
  starts_apart s ->
  bytes_Contains (l ++ s) secret_key =
  bytes_Contains l secret_key || bytes_Contains s secret_key.
Proof.
  intros Hs. rewrite (starts_apart_skip s Hs). destruct s as [|b s].
  - by rewrite app_nil_r, orb_false_r.
  - cbn [tail]. by apply bytes_Contains_sep.
Qed.

(** The dummy in place of the key leaves no copy of the key. *)
Lemma joined_dummy_free (pieces : list (list byte)) :
  cut_at secret_key pieces = true ->
  bytes_Contains (joined dummy_key pieces) secret_key = false.
Proof.
  induction pieces as [|p ps IH]; [discriminate |].
  destruct ps as [|q qs].
  - cbn [cut_at joined]. intros H. by apply negb_true_iff in H.
  - rewrite cut_at_cons, joined_cons. intros H. apply andb_prop in H as [Hp Hps].
    apply negb_true_iff, bytes_Contains_app_l in Hp.
    change dummy_key with ("d"%byte :: bytes_of_string "ummy-key").
    cbn [app]. rewrite bytes_Contains_sep, Hp.
    + cbn [orb]. rewrite key_skip; [exact (IH Hps) |].
      repeat constructor; discriminate.
    + intros Hin. apply list_elem_of_In in Hin. vm_compute in Hin.
      repeat (destruct Hin as [Hin | Hin]; [discriminate |]). exact Hin.
Qed.

(** ** The key and the text of a JSON string *)

Lemma hex_not_s (n : Z) : hex n <> "s"%byte.
Proof.
  unfold hex.
  destruct (nth_in_or_default (Z.to_nat n) (list_byte_of_string "0123456789abcdef") x00)
    as [H | ->]; [| discriminate].
  intros E. rewrite E in H. vm_compute in H.
  repeat (destruct H as [H | H]; [discriminate |]). exact H.
Qed.

Lemma escape_ascii_cases (b : byte) :
  escape_ascii b = [b] \/
  exists e : list byte, escape_ascii b = x5c :: e /\ Forall (fun c => c <> "s"%byte) e.
Proof.
  unfold escape_ascii. destruct (htmlSafe (code b)); [by left | right].
  destruct ((code b =? 0x5C) || (code b =? 0x22))%Z eqn:E.
  { eexists. split; [reflexivity |]. constructor; [| constructor].
    intros ->. discriminate E. }
  repeat match goal with
         | |- context [if ?c then _ else _] => destruct c
         end;
    (eexists; split; [reflexivity |]);
    repeat (constructor; try discriminate; try apply hex_not_s).
Qed.

(** What the writer of a JSON string puts out begins with a text free
    of backslashes only where its input begins with it. *)
Lemma quote_scan_prefix (sub : list byte) :
  x5c ∉ sub ->
  forall (st : seqpos) (s : list byte),
    (forall k, st <> Dropping k) ->
    bytes_HasPrefix (quote_scan st s) sub = true -> bytes_HasPrefix s sub = true.
Proof.
  induction sub as [|p sub IH]; intros Hsub st s Hst H; [reflexivity |].
  apply not_elem_of_cons in Hsub as [Hp Hsub].
  assert (Hmore : forall k j, more Copying k <> Dropping j).
  { intros [|k] j; discriminate. }
  destruct s as [|b s]; [discriminate |].
  destruct st as [|k|k]; [| | by destruct (Hst k)].
  - cbn [quote_scan] in H.
    destruct (code b <? 0x80)%Z.
    + destruct (escape_ascii_cases b) as [E | (e & E & _)]; rewrite E in H.
      * cbn [app bytes_HasPrefix] in *. apply andb_prop in H as [-> H].
        rewrite (IH Hsub AtStart s); [reflexivity | discriminate | exact H].
      * cbn [app bytes_HasPrefix] in H. apply andb_prop in H as [H _].
        apply bool_decide_eq_true in H. congruence.
    + destruct (utf8_DecodeRune (b :: s)) as [c size].
      destruct ((c =? RuneError)%Z && (size =? 1)).
      { cbn [bytes_HasPrefix] in H. apply andb_prop in H as [H _].
        apply bool_decide_eq_true in H. congruence. }
      destruct ((c =? 0x2028) || (c =? 0x2029))%Z.
      { cbn [bytes_HasPrefix] in H. apply andb_prop in H as [H _].
        apply bool_decide_eq_true in H. congruence. }
      cbn [bytes_HasPrefix] in *. apply andb_prop in H as [-> H].
      rewrite (IH Hsub _ s (Hmore _) H). reflexivity.
  - cbn [quote_scan bytes_HasPrefix] in *. apply andb_prop in H as [-> H].
    rewrite (IH Hsub _ s (Hmore _) H). reflexivity.
Qed.

Lemma secret_key_no_backslash : x5c ∉ secret_key.
Proof.
  intros Hin. apply list_elem_of_In in Hin. vm_compute in Hin.
  repeat (destruct Hin as [Hin | Hin]; [discriminate |]). exact Hin.
Qed.

Lemma bytes_Contains_cons (b : byte) (s sub : list byte) :
  bytes_Contains s sub = true -> bytes_Contains (b :: s) sub = true.
Proof. intros H. cbn [bytes_Contains]. rewrite H. apply orb_true_r. Qed.

(** The writer of a JSON string makes no copy of the key: its output
    holds one only where its input does. *)
Lemma quote_scan_key (s : list byte) (st : seqpos) :
  bytes_Contains s secret_key = false ->
  bytes_Contains (quote_scan st s) secret_key = false.
Proof.
  revert st. induction s as [|b s IH]; intros st Hs; [by destruct st |].
  pose proof Hs as Hs'. cbn [bytes_Contains] in Hs'.
  apply orb_false_iff in Hs' as [Hp Hc].
  assert (Hcopy : forall (st' : seqpos) (q : list byte),
            (forall k, st' <> Dropping k) ->
            quote_scan st' (b :: s) = b :: q ->
            bytes_Contains q secret_key = false ->
            bytes_Contains (quote_scan st' (b :: s)) secret_key = false).
  { intros st' q Hst E Hq.
    destruct (bytes_HasPrefix (quote_scan st' (b :: s)) secret_key) eqn:Hpre.
    - apply (quote_scan_prefix _ secret_key_no_backslash st' _ Hst) in Hpre. congruence.
    - rewrite E in *. cbn [bytes_Contains]. by rewrite Hpre, Hq. }
  destruct st as [|k|k].
  - destruct (code b <? 0x80)%Z eqn:Hascii.
    + destruct (escape_ascii_cases b) as [E | (e & E & He)].
      * apply (Hcopy AtStart (quote_scan AtStart s)); [discriminate | | by apply IH].
        cbn [quote_scan]. by rewrite Hascii, E.
      * cbn [quote_scan]. rewrite Hascii, E.
        rewrite key_skip; [by apply IH |]. constructor; [discriminate | exact He].
    + destruct (utf8_DecodeRune (b :: s)) as [c size] eqn:Hd.
      destruct ((c =? RuneError)%Z && (size =? 1)) eqn:E1.
      { cbn [quote_scan]. rewrite Hascii, Hd, E1.
        transitivity (bytes_Contains (quote_scan AtStart s) secret_key); [| by apply IH].
        apply (key_skip (x5c :: list_byte_of_string "ufffd")).
        repeat constructor; discriminate. }
      destruct ((c =? 0x2028) || (c =? 0x2029))%Z eqn:E2.
      { cbn [quote_scan]. rewrite Hascii, Hd, E1, E2.
        transitivity (bytes_Contains (quote_scan (more Dropping (size - 1)) s) secret_key);
          [| by apply IH].
        apply (key_skip (x5c :: list_byte_of_string "u202" ++ [hex (Z.land c 15)])).
        repeat (constructor; try discriminate). apply hex_not_s. }
      apply (Hcopy AtStart (quote_scan (more Copying (size - 1)) s));
        [discriminate | | by apply IH].
      cbn [quote_scan]. by rewrite Hascii, Hd, E1, E2.
  - apply (Hcopy (Copying k) (quote_scan (more Copying (k - 1)) s));
      [discriminate | reflexivity | by apply IH].
  - cbn [quote_scan]. by apply IH.
Qed.

Lemma json_quote_key (s : string) (r : list byte) :
  text_free s = true ->
  bytes_Contains (json_quote s ++ r) secret_key = bytes_Contains r secret_key.
Proof.
  unfold text_free, json_quote. intros H. apply negb_true_iff in H.
  cbn [app]. rewrite key_skip_byte by discriminate.
  rewrite <- app_assoc. cbn [app].
  rewrite bytes_Contains_sep.
  - by rewrite (quote_scan_key _ AtStart H).
  - intros Hin. apply list_elem_of_In in Hin. vm_compute in Hin.
    repeat (destruct Hin as [Hin | Hin]; [discriminate |]). exact Hin.
Qed.

(** ** The key and the text of a document *)

Lemma json_nested_ind (P : json -> Prop) :
  P JNull ->
  (forall b, P (JBool b)) ->
  (forall z, P (JNumber z)) ->
  (forall s, P (JString s)) ->
  (forall l, Forall P l -> P (JArray l)) ->
  (forall l, Forall (fun kv => P (snd kv)) l -> P (JObject l)) ->
  forall j, P j.
Proof.
  intros Hn Hb Hz Hs Ha Ho. fix IH 1. intros [| b | z | s | l | l].
  - exact Hn.
  - apply Hb.
  - apply Hz.
  - apply Hs.
  - apply Ha. induction l as [|x l IHl]; constructor; [apply IH | exact IHl].
  - apply Ho. induction l as [|[k v] l IHl]; constructor; [apply IH | exact IHl].
Qed.

Lemma newline_no_s (d : nat) : Forall (fun b => b <> "s"%byte) (newline d).
Proof.
  unfold newline. constructor; [discriminate |].
  induction d as [|d IH]; [constructor |].
  cbn [replicate concat app]. repeat (constructor; [discriminate |]). exact IH.
Qed.

Lemma render_int_no_s (z : Z) : Forall (fun b => b <> "s"%byte) (render_int z).
Proof.
  destruct (render_int_shape z) as (sign & digits & -> & Hsign & _ & Hds & _).
  apply Forall_app. split.
  - destruct Hsign as [-> | ->]; repeat constructor; discriminate.
  - eapply Forall_impl; [exact Hds |]. intros b Hb ->. discriminate Hb.
Qed.

Lemma starts_apart_newline (d : nat) (r : list byte) : starts_apart (newline d ++ r).
Proof.
  unfold newline. cbn [app starts_apart]. intros Hin.
  apply list_elem_of_In in Hin. vm_compute in Hin.
  repeat (destruct Hin as [Hin | Hin]; [discriminate |]). exact Hin.
Qed.

Lemma starts_apart_elements (d : nat) (l : list json) (r : list byte) :
  starts_apart r -> starts_apart (render_elements d l ++ r).
Proof.
  destruct l as [|y l]; [done |]. intros _. cbn [render_elements app starts_apart].
  intros Hin. apply list_elem_of_In in Hin. vm_compute in Hin.
  repeat (destruct Hin as [Hin | Hin]; [discriminate |]). exact Hin.
Qed.

Lemma starts_apart_members (d : nat) (l : list (string * json)) (r : list byte) :
  starts_apart r -> starts_apart (render_members d l ++ r).
Proof.
  destruct l as [|[k v] l]; [done |]. intros _. cbn [render_members app starts_apart].
  intros Hin. apply list_elem_of_In in Hin. vm_compute in Hin.
  repeat (destruct Hin as [Hin | Hin]; [discriminate |]). exact Hin.
Qed.

Lemma render_elements_key (d : nat) (l : list json) (r : list byte) :
  Forall (fun j => json_free j = true ->
                   forall d, bytes_Contains (json_render d j) secret_key = false) l ->
  forallb json_free l = true ->
  starts_apart r ->
  bytes_Contains (render_elements d l ++ r) secret_key = bytes_Contains r secret_key.
Proof.
  intros Hall. induction Hall as [|y l Hy _ IH]; intros Hfree Hr; [reflexivity |].
  cbn [forallb] in Hfree. apply andb_prop in Hfree as [Hfy Hfl].
  cbn [render_elements app]. rewrite key_skip_byte by discriminate.
  rewrite <- !app_assoc. rewrite key_skip by apply newline_no_s.
  rewrite key_before by (by apply starts_apart_elements).
  rewrite (Hy Hfy). cbn [orb]. by apply IH.
Qed.

Lemma render_members_key (d : nat) (l : list (string * json)) (r : list byte) :
  Forall (fun kv => json_free (snd kv) = true ->
                    forall d, bytes_Contains (json_render d (snd kv)) secret_key = false) l ->
  forallb (fun kv => text_free (fst kv) && json_free (snd kv)) l = true ->
  starts_apart r ->
  bytes_Contains (render_members d l ++ r) secret_key = bytes_Contains r secret_key.
Proof.
  intros Hall. induction Hall as [|[k v] l Hv _ IH]; intros Hfree Hr; [reflexivity |].
  cbn [forallb fst snd] in *. apply andb_prop in Hfree as [Hkv Hfl].
  apply andb_prop in Hkv as [Hk Hfv].
  cbn [render_members app]. rewrite key_skip_byte by discriminate.
  rewrite <- !app_assoc. rewrite key_skip by apply newline_no_s.
  rewrite (json_quote_key _ _ Hk). cbn [app].
  rewrite !key_skip_byte by discriminate. rewrite <- app_assoc.
  rewrite key_before by (by apply starts_apart_members).
  rewrite (Hv Hfv). cbn [orb]. by apply IH.
Qed.

(** A document whose strings and member names are free of the key is
    rendered free of it. *)
Lemma json_render_key (j : json) :
  json_free j = true ->
  forall d : nat, bytes_Contains (json_render d j) secret_key = false.
Proof.
  induction j as [| b | z | s | l IH | l IH] using json_nested_ind; intros Hfree d.
  - reflexivity.
  - by destruct b.
  - apply key_absent, render_int_no_s.
  - rewrite <- (app_nil_r (json_render d (JString s))). cbn [json_render].
    by rewrite json_quote_key.
  - destruct l as [|x xs]; [reflexivity |]. rewrite json_render_JArray.
    cbn [json_free forallb] in Hfree. apply andb_prop in Hfree as [Hx Hxs].
    rewrite key_skip_byte by discriminate. rewrite key_skip by apply newline_no_s.
    rewrite key_before by (apply starts_apart_elements, starts_apart_newline).
    rewrite (Forall_inv IH Hx). cbn [orb].
    rewrite (render_elements_key d xs _ (Forall_inv_tail IH) Hxs)
      by apply starts_apart_newline.
    rewrite key_skip by apply newline_no_s. reflexivity.
  - destruct l as [|[k v] kvs]; [reflexivity |]. rewrite json_render_JObject.
    cbn [json_free forallb fst snd] in Hfree. apply andb_prop in Hfree as [Hkv Hkvs].
    apply andb_prop in Hkv as [Hk Hv].
    rewrite key_skip_byte by discriminate. rewrite key_skip by apply newline_no_s.
    rewrite (json_quote_key _ _ Hk). rewrite !key_skip_byte by discriminate.
    rewrite key_before by (apply starts_apart_members, starts_apart_newline).
    rewrite (Forall_inv IH Hv). cbn [orb fst snd].
    rewrite (render_members_key d kvs _ (Forall_inv_tail IH) Hkvs)
      by apply starts_apart_newline.
    rewrite key_skip by apply newline_no_s. reflexivity.
Qed.

(** ** The key and the document of a cassette *)

Lemma json_of_bytes_free (b : slice byte) : json_free (json_of_bytes b) = true.
Proof.
  destruct b as [l|]; [| reflexivity]. cbn [json_of_bytes json_free]. unfold text_free.
  by rewrite list_byte_of_string_of_list_byte, base64_Encode_never_holds_key.
Qed.

Lemma json_of_strings_free (v : slice string) :
  strings_free v = true -> json_free (json_of_strings v) = true.
Proof.
  destruct v as [l|]; [| reflexivity]. unfold strings_free. cbn [elems default].
  cbn [json_of_strings json_free]. induction l as [|s l IH]; [reflexivity |].
  cbn [forallb fmap list_fmap json_free]. intros H.
  apply andb_prop in H as [-> H]. exact (IH H).
Qed.

Lemma json_of_Header_free (h : http_Header) :
  Header_free h = true -> json_free (json_of_Header h) = true.
Proof.
  destruct h as [m|]; [| reflexivity]. cbn [Header_free json_of_Header json_free].
  intros H. rewrite forallb_forall in H. apply forallb_forall. intros [k j] Hin.
  apply in_map_iff in Hin as ([k' v] & Heq & Hin). injection Heq as <- <-.
  assert (Hin' : In (k', v) (map_to_list m)).
  { apply list_elem_of_In. rewrite <- (merge_sort_Permutation key_le (map_to_list m)).
    by apply list_elem_of_In. }
  specialize (H _ Hin'). cbn [fst snd] in *. apply andb_prop in H as [-> H].
  by apply json_of_strings_free.
Qed.

Lemma json_of_Episode_free (e : Episode) :
  text_free (Method (Request e)) = true ->
  text_free (URL (Request e)) = true ->
  text_free (Status (Response e)) = true ->
  Header_free (Header (Response e)) = true ->
  json_free (json_of_Episode e) = true.
Proof.
  intros Hm Hu Hs Hh.
  unfold json_of_Episode, json_of_VCRRequest, json_of_VCRResponse.
  cbn [json_free forallb fst snd].
  rewrite Hm, Hu, Hs, !json_of_bytes_free, (json_of_Header_free _ Hh).
  reflexivity.
Qed.

(** ** One recording session with the filter set *)

Ltac decide_modes :=
  repeat match goal with
         | |- context [bool_decide (?a = ?b)] =>
           first [ change (bool_decide (a = b)) with true
                 | change (bool_decide (a = b)) with false ]
         end;
  cbv iota zeta.


Lemma record_one_answered (perform : http_Request -> http_Response + error)
    (request : http_Request) (response : http_Response) :
  perform (snd (newVCRRequest request secret_filter)) = inl response ->
  record_one "test_cassette" secret_filter perform request =
  Ok (Some [{| Request := fst (newVCRRequest request secret_filter);
               Response := newVCRResponse response |}],
      json_render 0
        (json_of_cassette
           {| name := "test_cassette";
              Episodes := Some [{| Request := fst (newVCRRequest request secret_filter);
                                   Response := newVCRResponse response |}];
              Gzip := false;
              episodeMatcher := {| episodes := None |} |})).
Proof.
  intros Hperform. unfold record_one.
  change (foldl _ (New "test_cassette" []) secret_filter)
    with {| options := DefaultOptions; ctx := None; mode := ModeStopped;
            Cassette := {| name := "test_cassette"; Episodes := None; Gzip := false;
                           episodeMatcher := {| episodes := None |} |};
            FilterMap := secret_filter; RequestModifier := None;
            originalTransport := None |}.
  set (w0 := {| fs := ∅; gzip := idle_gzip; http_DefaultTransport := Transport perform |}).
  match goal with
  | |- context [Start ?v0 NoError w0] =>
    assert (HS : Start v0 NoError w0 =
                 Ok (set_mode (set_originalTransport (set_ctx v0 (Some NoError))
                                 (Some (Transport perform))) ModeRecord,
                     with_DefaultTransport w0 Self)) by (vm_compute; reflexivity);
    rewrite HS; clear HS
  end.
  cbn [outcome_bind].
  match goal with
  | |- context [RoundTrip ?v _ _] => set (v1 := v)
  end.
  unfold RoundTrip.
  change (FilterMap v1) with secret_filter.
  rewrite (newVCRRequest_pair request secret_filter).
  change (ctx v1) with (Some NoError). change (mode v1) with ModeRecord.
  change (RequestModifier v1) with (@None (http_Request -> http_Request)).
  unfold original_RoundTrip. change (originalTransport v1) with (Some (Transport perform)).
  decide_modes. cbn [outcome_bind]. rewrite Hperform.
  cbn [outcome_bind session world].
  unfold Stop.
  change (mode (set_Cassette v1 _)) with ModeRecord. decide_modes.
  unfold write, ioutil_WriteFile.
  match goal with
  | |- context [writable ?f ?p] => change (writable f p) with true
  end.
  cbv iota. cbn [outcome_bind]. unfold ctxCancel.
  change (ctx (set_mode _ _)) with (Some NoError). cbv iota. cbn [outcome_bind].
  reflexivity.
Qed.

Lemma json_of_cassette_free (c : cassette) :
  cassette_free c = true -> json_free (json_of_cassette c) = true.
Proof.
  unfold cassette_free, json_of_cassette. intros H.
  cbn [json_free forallb fst snd].
  assert (He : json_free
                 match Episodes c with
                 | Some l => JArray (json_of_Episode <$> l)
                 | None => JNull
                 end = true).
  { destruct (Episodes c) as [l|]; [| reflexivity]. cbn [elems default] in H.
    cbn [json_free]. induction l as [|e l IH]; [reflexivity |].
    cbn [forallb fmap list_fmap] in *. apply andb_prop in H as [He H].
    unfold Episode_free in He. apply andb_prop in He as [He Hh].
    apply andb_prop in He as [He Hs]. apply andb_prop in He as [Hm Hu].
    by rewrite (json_of_Episode_free e Hm Hu Hs Hh), (IH H). }
  rewrite He. reflexivity.
Qed.

(** The file of a cassette written as text holds no copy of the key
    when the fields persisted as they are hold none. *)
Lemma write_key_free (c : cassette) (w w' : World) :
  Gzip c = false ->
  cassette_free c = true ->
  write c w = Ok w' ->
  bytes_Contains (ioutil_ReadFile (fs w') (Filename c)) secret_key = false.
Proof.
  intros Hg Hfree.
  pose proof (json_render_key _ (json_of_cassette_free c Hfree) 0) as Hout.
  unfold write, ioutil_WriteFile. rewrite Hg.
  set (jsonOut := json_render 0 (json_of_cassette c)) in *. clearbody jsonOut.
  destruct (writable _ _); [| discriminate]. intros H. injection H as <-.
  unfold ioutil_ReadFile. cbn [fs with_fs]. by rewrite lookup_insert_eq.
Qed.

Lemma newVCRRequest_Method_URL (request : http_Request) (filterMap : filter_map) :
  Method (fst (newVCRRequest request filterMap)) = Request_Method request /\
  URL (fst (newVCRRequest request filterMap)) = Request_URL request.
Proof. unfold newVCRRequest. by destruct (Request_Body request). Qed.

(** C4, as the code has it. With the filter from "secret-key" to
    "dummy-key" set, the body of a request is captured with every
    occurrence of the key, taken left to right without overlap, replaced
    by the dummy: the body read is the pieces between the occurrences
    with the key between them, the body captured is the same pieces with
    the dummy between them, and it holds no copy of the key; a body that
    is the key is captured as "dummy-key". The filter reaches no other
    field: method, URL, status text and header are persisted as they
    are, and bodies in base64. So the file of a cassette written as text
    holds no copy of the key when these fields of its episodes hold
    none; and a session that records one request which the transport
    answers, these fields of the request and of the response holding no
    copy of the key, records the one episode and leaves at [Stop] a
    file without a copy of the key. *)
Theorem filter_replaces_key_in_body :
  (forall (request : http_Request) (rd : Buffer),
     Request_Body request = Some rd ->
     exists pieces : list (list byte),
       fst (ioutil_ReadAll rd) = joined secret_key pieces /\
       cut_at secret_key pieces = true /\
       Body (fst (newVCRRequest request secret_filter)) =
         match fst (ioutil_ReadAll rd) with
         | [] => None
         | _ :: _ => Some (joined dummy_key pieces)
         end /\
       bytes_Contains (joined dummy_key pieces) secret_key = false /\
       (fst (ioutil_ReadAll rd) = secret_key ->
        Body (fst (newVCRRequest request secret_filter)) = Some dummy_key)) /\
  (forall (c : cassette) (w w' : World),
     Gzip c = false ->
     cassette_free c = true ->
     write c w = Ok w' ->
     bytes_Contains (ioutil_ReadFile (fs w') (Filename c)) secret_key = false) /\
  (forall (perform : http_Request -> http_Response + error) (request : http_Request)
          (response : http_Response),
     perform (snd (newVCRRequest request secret_filter)) = inl response ->
     text_free (Request_Method request) = true ->
     text_free (Request_URL request) = true ->
     text_free (Response_Status response) = true ->
     Header_free (Response_Header response) = true ->
     exists file : list byte,
       record_one "test_cassette" secret_filter perform request =
         Ok (Some [{| Request := fst (newVCRRequest request secret_filter);
                      Response := newVCRResponse response |}], file) /\
       bytes_Contains file secret_key = false).
Proof.
  split; [| split].
  - intros request rd Hb.
    destruct (cut_at_exists secret_key ltac:(discriminate) (fst (ioutil_ReadAll rd)))
      as (pieces & Hbody & Hcut).
    exists pieces.
    split; [exact Hbody |]. split; [exact Hcut |].
    split.
    { unfold newVCRRequest. rewrite Hb. cbn [fst snd Body].
      unfold apply_filters, secret_filter. cbn [foldl].
      change (bytes_of_string "secret-key") with secret_key.
      change (bytes_of_string "dummy-key") with dummy_key.
      rewrite Hbody. by apply bytes_Replace_joined. }
    split; [by apply joined_dummy_free |].
    intros E. unfold newVCRRequest. rewrite Hb. cbn [fst snd Body]. rewrite E. reflexivity.
  - exact write_key_free.
  - intros perform request response Hperform Hm Hu Hs Hh.
    eexists. split; [by apply record_one_answered |].
    apply json_render_key, json_of_cassette_free.
    destruct (newVCRRequest_Method_URL request secret_filter) as [Em Eu].
    unfold cassette_free. cbn [Episodes]. change (elems (Some ?l)) with l.
    cbn [forallb]. unfold Episode_free. cbn [Request Response].
    rewrite Em, Eu.
    change (Status (newVCRResponse response)) with (Response_Status response).
    change (Header (newVCRResponse response)) with (Response_Header response).
    by rewrite Hm, Hu, Hs, Hh.
Qed.

(** The run of [TestVCR] with the key in the body only. *)
Lemma filter_replaces_key_in_body_witness :
  exists file : list byte,
    Body (fst (newVCRRequest (sample_post secret_key) secret_filter)) = Some dummy_key /\
    record_one "test_cassette" secret_filter ok_transport (sample_post secret_key) =
      Ok (Some [{| Request := {| Method := "POST"; URL := "http://127.0.0.1/";
                                 Body := Some dummy_key |};
                   Response := {| Status := "200 OK"; StatusCode := 200; ContentLength := 2;
                                  Header := Some {[ "Test" := Some ["yes"] ]};
                                  ResponseBody := Some (bytes_of_string "ok") |} |}],
          file) /\
    bytes_Contains file secret_key = false.
Proof.
  destruct filter_replaces_key_in_body as (Hcapture & _ & Hrun).
  destruct (Hcapture (sample_post secret_key) (bytes_NewBuffer (Some secret_key)) eq_refl)
    as (pieces & _ & _ & _ & _ & Hkey).
  destruct (Hrun ok_transport (sample_post secret_key) _ eq_refl eq_refl eq_refl eq_refl
              eq_refl) as (file & Hfile & Hfree).
  exists file. split; [exact (Hkey eq_refl) |]. split; [exact Hfile | exact Hfree].
Defined.

(* ================================================================== *)
(** * Part III: further properties of the code                         *)
(* ================================================================== *)

(** ** Snapshots and live values *)

Lemma ioutil_ReadAll_NewBuffer (b : slice byte) :
  fst (ioutil_ReadAll (bytes_NewBuffer b)) = elems b.
Proof. reflexivity. Qed.

(** X1. Capturing the response a snapshot was turned into gives the
    snapshot back: status, code, declared length and header as they
    were, and a body of the same bytes, which is present even where the
    snapshot had a nil body. *)
Theorem newVCRResponse_httpResponse (vr : VCRResponse) :
  newVCRResponse (httpResponse vr) =
  {| Status := Status vr; StatusCode := StatusCode vr; ContentLength := ContentLength vr;
     Header := Header vr; ResponseBody := Some (elems (ResponseBody vr)) |}.
Proof. reflexivity. Qed.

(** X2. What the caller of a recording call gets in place of the live
    response: the same status, code, header and declared length, the
    protocol set to HTTP/1.0, and as body a new reader over the bytes
    that were still unread in the live one. When the live response had
    no body the new reader holds nothing, and is not nil. *)
Theorem httpResponse_newVCRResponse (response : http_Response) :
  httpResponse (newVCRResponse response) =
  {| Response_Status := Response_Status response;
     Response_StatusCode := Response_StatusCode response;
     Response_Proto := "HTTP/1.0";
     Response_ProtoMajor := 1;
     Response_ProtoMinor := 0;
     Response_Header := Response_Header response;
     Response_ContentLength := Response_ContentLength response;
     Response_Body :=
       Some {| buf := match Response_Body response with
                      | Some rd => fst (ioutil_ReadAll rd)
                      | None => []
                      end;
               off := 0 |} |}.
Proof. unfold httpResponse, newVCRResponse. by destruct (Response_Body response). Qed.

(** X3. Capturing the request that a first capture left behind is
    capturing the request itself: whatever filters the first capture
    applied, and in whatever order, the second capture gives the
    snapshot and leaves the request that it would have given and left
    had it come first. The stream a capture puts back holds the bytes
    it has read, before any filter. *)
Theorem newVCRRequest_idempotent (request : http_Request) (fm1 fm2 : filter_map) :
  newVCRRequest (snd (newVCRRequest request fm1)) fm2 = newVCRRequest request fm2.
Proof.
  unfold newVCRRequest. destruct (Request_Body request) as [rd|] eqn:Hb.
  - cbn [fst snd Request_Body Request_Method Request_URL Request_Header Request_ContentLength].
    rewrite ioutil_ReadAll_NewBuffer. reflexivity.
  - cbn [fst snd]. rewrite Hb. reflexivity.
Qed.

Lemma bytes_Replace_absent (s old new : list byte) :
  s <> [] -> old <> [] ->
  bytes_Contains s old = false ->
  bytes_Replace (Some s) old new = Some s.
Proof.
  intros Hs Hold Hc. unfold bytes_Replace. destruct old as [|o old]; [done |].
  change (elems (Some s)) with s. rewrite (count_scan_absent _ _ Hc).
  by destruct s.
Qed.

Lemma bytes_of_string_nil (s : string) : bytes_of_string s = [] -> s = "".
Proof. by destruct s. Qed.

Lemma apply_filters_miss (filterMap : filter_map) (body : list byte) :
  body <> [] ->
  forallb (filter_misses body) filterMap = true ->
  apply_filters filterMap (Some body) = Some body.
Proof.
  intros Hbody. unfold apply_filters.
  induction filterMap as [|[k r] fm IH]; [reflexivity |].
  cbn [forallb foldl]. intros H. apply andb_true_iff in H as [Hkv Hfm].
  unfold filter_misses in Hkv. cbn [fst] in Hkv.
  apply andb_true_iff in Hkv as [Hk Hc].
  apply negb_true_iff in Hk, Hc. apply String.eqb_neq in Hk.
  rewrite bytes_Replace_absent; [by apply IH | exact Hbody | | exact Hc].
  intros E. by apply bytes_of_string_nil in E.
Qed.

(** X4. Filters whose plaintexts are not empty and do not occur in the
    body leave a body that holds a byte as it was read, whatever their
    number and order. *)
Theorem newVCRRequest_filters_miss
    (request : http_Request) (filterMap : filter_map) (rd : Buffer) :
  Request_Body request = Some rd ->
  fst (ioutil_ReadAll rd) <> [] ->
  forallb (filter_misses (fst (ioutil_ReadAll rd))) filterMap = true ->
  Body (fst (newVCRRequest request filterMap)) = Some (fst (ioutil_ReadAll rd)).
Proof.
  intros Hb Hne Hmiss. unfold newVCRRequest. rewrite Hb. cbn [fst Body].
  by apply apply_filters_miss.
Qed.

Lemma newVCRRequest_filters_miss_witness :
  Body (fst (newVCRRequest keyed_request [("other-key", "dummy-key")])) = Some secret_key.
Proof.
  apply (newVCRRequest_filters_miss keyed_request [("other-key", "dummy-key")]
           (bytes_NewBuffer (Some secret_key)));
    [reflexivity | discriminate | reflexivity].
Defined.

(** ** File names *)

Lemma list_ascii_of_string_app (s t : string) :
  list_ascii_of_string (s +:+ t) = list_ascii_of_string s ++ list_ascii_of_string t.
Proof. induction s as [|a s IH]; [reflexivity |]. simpl. f_equal. exact IH. Qed.

Lemma list_ascii_of_string_inj (s t : string) :
  list_ascii_of_string s = list_ascii_of_string t -> s = t.
Proof.
  intros H. rewrite <- (string_of_list_ascii_of_string s), <- (string_of_list_ascii_of_string t).
  by rewrite H.
Qed.

Lemma String_app_inv_tail (s t u : string) : s +:+ u = t +:+ u -> s = t.
Proof.
  intros H. apply list_ascii_of_string_inj.
  apply (f_equal list_ascii_of_string) in H.
  rewrite !list_ascii_of_string_app in H. by apply app_inv_tail in H.
Qed.

Lemma json_suffix_differs (s t : string) : s +:+ ".json" <> t +:+ ".json.gz".
Proof.
  intros H. apply (f_equal list_ascii_of_string) in H.
  rewrite !list_ascii_of_string_app in H.
  change (list_ascii_of_string ".json.gz")
    with (list_ascii_of_string ".js" ++ list_ascii_of_string "on.gz") in H.
  rewrite (app_assoc (list_ascii_of_string t)) in H.
  apply app_inj_2 in H as [_ H]; [discriminate | reflexivity].
Qed.

(** X5. Two cassettes have the same file only when they have the same
    name and the same compression flag: the file of a compressed
    cassette is never that of a plain one, whatever the names. *)
Theorem Filename_inj (c1 c2 : cassette) :
  Filename c1 = Filename c2 -> name c1 = name c2 /\ Gzip c1 = Gzip c2.
Proof.
  unfold Filename. intros H.
  destruct (Gzip c1), (Gzip c2); apply String.app_inj in H.
  - split; [| reflexivity]. by apply String_app_inv_tail in H.
  - by apply eq_sym, json_suffix_differs in H.
  - by apply json_suffix_differs in H.
  - split; [| reflexivity]. by apply String_app_inv_tail in H.
Qed.

Lemma Filename_inj_witness :
  name (Cassette sample_record) = name (Cassette sample_replay) /\
  Gzip (Cassette sample_record) = Gzip (Cassette sample_replay).
Proof. apply Filename_inj. reflexivity. Defined.

(** ** The matcher over a run of requests *)

Lemma replay_all_recorded (es rest : list Episode) :
  replay_all {| episodes := Some (es ++ rest) |} (Request <$> es) =
  Ok (es, {| episodes := Some rest |}).
Proof.
  induction es as [|e es IH]; [reflexivity |].
  cbn [fmap list_fmap replay_all].
  rewrite (MatchEpisode_consumes _ _ e (es ++ rest)) by reflexivity.
  cbn [outcome_bind]. rewrite IH. reflexivity.
Qed.

Lemma MatchEpisode_Ok_Request (m m' : DefaultEpisodeMatcher) (request : VCRRequest)
    (e : Episode) :
  MatchEpisode m request = Ok (e, m') -> Request e = request.
Proof.
  unfold MatchEpisode. intros H.
  destruct (elems (episodes m)) as [|e0 rest]; [discriminate |].
  destruct (String.eqb (Method (Request e0)) _) eqn:Hm; [| discriminate].
  destruct (String.eqb (URL (Request e0)) _) eqn:Hu; [| discriminate].
  destruct (reflect_DeepEqual (Body (Request e0)) _) eqn:Hb; [| discriminate].
  cbn in H. injection H as <- _.
  apply String.eqb_eq in Hm, Hu. apply reflect_DeepEqual_true in Hb.
  destruct (Request e0), request. cbn in *. congruence.
Qed.

Lemma replay_all_Ok_inv (requests : list VCRRequest) :
  forall (m m' : DefaultEpisodeMatcher) (es : list Episode),
    replay_all m requests = Ok (es, m') ->
    requests = Request <$> es /\
    elems (episodes m) = es ++ elems (episodes m').
Proof.
  induction requests as [|request requests IH]; intros m m' es H.
  - cbn in H. injection H as <- <-. by split.
  - cbn [replay_all] in H.
    destruct (MatchEpisode m request) as [[e m1]|msg] eqn:Hm; [| discriminate].
    cbn [outcome_bind] in H.
    destruct (replay_all m1 requests) as [[es1 m2]|msg] eqn:Hr; [| discriminate].
    cbn [outcome_bind] in H. injection H as <- <-.
    apply IH in Hr as [-> Hq].
    pose proof (MatchEpisode_Ok_Request _ _ _ _ Hm) as <-.
    apply MatchEpisode_Ok_inv in Hm as (rest & Hm & ->).
    split; [reflexivity |]. rewrite Hm. cbn in Hq. by rewrite Hq.
Qed.

(** X6. A run of requests is answered in full by the matcher exactly
    when it is the requests of the episodes at the head of the queue, in
    their order: then these episodes are returned in that order and
    taken off, and the rest of the queue is left. *)
Theorem replay_all_spec :
  (forall es rest : list Episode,
     replay_all {| episodes := Some (es ++ rest) |} (Request <$> es) =
     Ok (es, {| episodes := Some rest |})) /\
  (forall (m m' : DefaultEpisodeMatcher) (requests : list VCRRequest) (es : list Episode),
     replay_all m requests = Ok (es, m') ->
     requests = Request <$> es /\
     elems (episodes m) = es ++ elems (episodes m')).
Proof.
  split; [exact replay_all_recorded |].
  intros m m' requests es. apply replay_all_Ok_inv.
Qed.

Lemma replay_all_spec_witness :
  replay_all {| episodes := Some ([sample_episode] ++ []) |} (Request <$> [sample_episode]) =
  Ok ([sample_episode], {| episodes := Some [] |}).
Proof. exact (proj1 replay_all_spec [sample_episode] []). Defined.

(** ** The store *)

Lemma os_Mkdir_new (fs fs' : filesystem) (p q : string) :
  os_Mkdir fs p = Some fs' -> fs !! q = None -> fs' !! q <> None -> q = p.
Proof.
  unfold os_Mkdir. intros H Hq Hq'.
  destruct (fs !! p) as [[d|]|] eqn:Hp.
  - discriminate.
  - injection H as <-. by rewrite Hq in Hq'.
  - destruct (parent_is_dir fs p); [| discriminate].
    injection H as <-. destruct (decide (q = p)) as [|Hne]; [done |].
    rewrite lookup_insert_ne in Hq' by congruence. by rewrite Hq in Hq'.
Qed.

Lemma os_MkdirAll_new (fs : filesystem) (q : string) :
  fs !! q = None -> os_MkdirAll_fixtures_vcr fs !! q <> None ->
  q = "fixtures" \/ q = "fixtures/vcr".
Proof.
  intros Hq. unfold os_MkdirAll_fixtures_vcr.
  destruct (os_Mkdir fs "fixtures") as [fs1|] eqn:H1; [| by rewrite Hq].
  destruct (os_Mkdir fs1 "fixtures/vcr") as [fs2|] eqn:H2; cbn; intros Hq'.
  - destruct (fs1 !! q) as [n|] eqn:Hq1.
    + left. apply (os_Mkdir_new _ _ _ _ H1 Hq). by rewrite Hq1.
    + right. exact (os_Mkdir_new _ _ _ _ H2 Hq1 Hq').
  - left. exact (os_Mkdir_new _ _ _ _ H1 Hq Hq').
Qed.

(** X7. What a [write] that succeeds does to the world: the file of the
    cassette holds the rendered text, compressed for a compressed
    cassette; every other node that was there is still there, unchanged;
    the only paths that can be new are the file and the two directories
    above it; compressor and default transport are as they were. *)
Theorem write_effects (c : cassette) (w w' : World) :
  write c w = Ok w' ->
  fs w' !! Filename c =
    Some (File (if Gzip c then gzipWrite w (json_render 0 (json_of_cassette c))
                else json_render 0 (json_of_cassette c))) /\
  (forall (p : string) (n : node),
     p <> Filename c -> fs w !! p = Some n -> fs w' !! p = Some n) /\
  (forall p : string,
     fs w !! p = None -> fs w' !! p <> None ->
     p = Filename c \/ p = "fixtures" \/ p = "fixtures/vcr") /\
  gzip w' = gzip w /\
  http_DefaultTransport w' = http_DefaultTransport w.
Proof.
  unfold write, ioutil_WriteFile. intros H.
  destruct (writable _ _); [| discriminate]. injection H as <-.
  cbn [fs gzip http_DefaultTransport with_fs].
  split; [by rewrite lookup_insert_eq |].
  split.
  { intros p n Hp Hn. rewrite lookup_insert_ne by congruence.
    by apply os_MkdirAll_keeps. }
  split; [| by split].
  intros p Hp Hp'. destruct (decide (p = Filename c)) as [|Hne]; [by left | right].
  rewrite lookup_insert_ne in Hp' by congruence.
  exact (os_MkdirAll_new (fs w) p Hp Hp').
Qed.

Lemma write_effects_witness :
  exists w' : World,
    write (Cassette sample_replay) sample_world = Ok w' /\
    fs w' !! "fixtures/vcr/test_cassette.json" =
      Some (File (json_render 0 (json_of_cassette (Cassette sample_replay)))).
Proof.
  destruct (write (Cassette sample_replay) sample_world) as [w'|msg] eqn:Hw.
  - exists w'. split; [reflexivity |].
    exact (proj1 (write_effects (Cassette sample_replay) sample_world w' Hw)).
  - vm_compute in Hw. discriminate Hw.
Defined.

(** X8. The ways [read] fails. For a plain cassette whose file is
    missing, is a directory or holds no byte, the panic is the one of a
    text that does not parse. For a compressed cassette whose stream
    cannot be read to its end, it is the one of a failed gzip read. For
    a compressed cassette whose header is refused, the nil reader is
    used all the same, and the panic is that of the runtime. *)
Theorem read_failures (c : cassette) (w : World) :
  (Gzip c = false ->
   (forall data : list byte, fs w !! Filename c <> Some (File data)) \/
   fs w !! Filename c = Some (File []) ->
   read c w = Panic "httpvcr: cannot parse json!") /\
  (Gzip c = true ->
   gzip_inflate (gzip w) (ioutil_ReadFile (fs w) (Filename c)) = BadStream ->
   read c w = Panic "httpvcr: gzip read failed") /\
  (Gzip c = true ->
   gzip_inflate (gzip w) (ioutil_ReadFile (fs w) (Filename c)) = BadHeader ->
   read c w = Panic nil_dereference).
Proof.
  unfold read, gunzipWrite. repeat split.
  - intros -> H. cbn [outcome_bind].
    assert (E : ioutil_ReadFile (fs w) (Filename c) = []).
    { unfold ioutil_ReadFile. destruct H as [H | ->]; [| reflexivity].
      destruct (fs w !! Filename c) as [[data|]|]; [by destruct (H data) | done | done]. }
    by rewrite E.
  - by intros -> ->.
  - by intros -> ->.
Qed.

Lemma read_failures_witness :
  read (Cassette sample_replay) sample_world = Panic "httpvcr: cannot parse json!".
Proof.
  apply (proj1 (read_failures (Cassette sample_replay) sample_world)); [reflexivity |].
  left. intros data. vm_compute. discriminate.
Defined.

Lemma fill_cassette_member_name (l : list (string * json)) :
  forall c c' : cassette,
    fill cassette_member l c = Some c' ->
    name c' = name c /\ episodeMatcher c' = episodeMatcher c.
Proof.
  induction l as [|[k j] l IH]; intros c c' H.
  - cbn in H. by injection H as <-.
  - cbn [fill] in H.
    destruct (cassette_member c (k, j)) as [c1|] eqn:Hm; [| discriminate].
    cbn in H. apply IH in H as [-> ->].
    unfold cassette_member in Hm.
    destruct (String.eqb k "Episodes").
    { destruct j; try discriminate.
      - by injection Hm as <-.
      - destruct (mapM Episode_of_json _); [| discriminate]. by injection Hm as <-. }
    destruct (String.eqb k "Gzip").
    { destruct (bool_of_json _ _); [| discriminate]. by injection Hm as <-. }
    by injection Hm as <-.
Qed.

Lemma read_Ok_inv (c c' : cassette) (w : World) :
  read c w = Ok c' ->
  name c' = name c /\ episodes (episodeMatcher c') = Episodes c'.
Proof.
  unfold read. intros H.
  match type of H with outcome_bind ?x _ = _ => destruct x as [jsonData|msg] end;
    [| discriminate].
  cbn [outcome_bind] in H.
  destruct (json_Unmarshal jsonData c) as [c1|] eqn:Hj; [| discriminate].
  injection H as <-. cbn [name episodeMatcher Episodes Init episodes].
  split; [| reflexivity].
  unfold json_Unmarshal in Hj.
  destruct (json_decode jsonData) as [j|]; [| discriminate].
  cbn in Hj. destruct j; try discriminate.
  - by injection Hj as <-.
  - by apply fill_cassette_member_name in Hj as [-> _].
Qed.

Lemma queue_within_refl (c : cassette) :
  episodes (episodeMatcher c) = Episodes c -> queue_within c.
Proof. unfold queue_within. by intros ->. Qed.

(** X9. A load that succeeds keeps the name of the cassette, which is
    not part of the file, and sets the queue of the matcher to the
    sequence the cassette holds after the load. *)
Theorem read_sets_queue (c c' : cassette) (w : World) :
  read c w = Ok c' ->
  name c' = name c /\
  episodes (episodeMatcher c') = Episodes c' /\
  queue_within c'.
Proof.
  intros H. apply read_Ok_inv in H as [Hn He].
  split; [exact Hn |]. split; [exact He |]. by apply queue_within_refl.
Qed.

Lemma read_sets_queue_witness :
  exists (w' : World) (c' : cassette),
    write (Cassette sample_replay) sample_world = Ok w' /\
    read (fresh_cassette (Cassette sample_replay)) w' = Ok c' /\
    name c' = "test_cassette" /\
    episodes (episodeMatcher c') = Episodes c'.
Proof.
  destruct (write (Cassette sample_replay) sample_world) as [w'|msg] eqn:Hw;
    [| vm_compute in Hw; discriminate Hw].
  pose proof Hw as Hw'. vm_compute in Hw'. injection Hw' as <-.
  match goal with
  | _ : _ = Ok ?w |- _ =>
    destruct (read (fresh_cassette (Cassette sample_replay)) w) as [c'|msg] eqn:Hr;
      [| vm_compute in Hr; discriminate Hr]
  end.
  destruct (read_sets_queue _ _ _ Hr) as (Hn & He & _).
  eexists _, c'. split; [exact Hw |]. split; [exact Hr |]. split; [exact Hn | exact He].
Defined.

(** ** The session: start and stop *)

Lemma Start_Ok_inv (v : HTTPVCR) (parent : ctx_err) (w : World) (v' : HTTPVCR) (w' : World) :
  Start v parent w = Ok (v', w') ->
  mode v = ModeStopped /\
  mode v' = (if Exists (Cassette v) w then ModeReplay else ModeRecord) /\
  ctx v' = Some parent /\
  options v' = options v /\
  FilterMap v' = FilterMap v /\
  originalTransport v' = Some (http_DefaultTransport w) /\
  w' = (if HTTPDefaultOverride (options v) then with_DefaultTransport w Self else w) /\
  (if Exists (Cassette v) w then read (Cassette v) w' = Ok (Cassette v')
   else Cassette v' = Cassette v).
Proof.
  unfold Start. destruct (mode v) eqn:Hmode; try discriminate.
  cbn [bool_decide negb outcome_bind decide_rel Mode_eq_dec].
  cbn [options set_originalTransport set_ctx set_mode Cassette].
  assert (Hex : Exists (Cassette v)
                  (if HTTPDefaultOverride (options v) then with_DefaultTransport w Self else w)
                = Exists (Cassette v) w) by (by destruct (HTTPDefaultOverride (options v))).
  rewrite Hex. destruct (Exists (Cassette v) w).
  - destruct (read _ _) as [c|msg] eqn:Hr; [| discriminate].
    cbn [outcome_bind]. intros H. injection H as <- <-. by repeat split.
  - intros H. injection H as <- <-. by repeat split.
Qed.

(** X10. A session that has started cannot be started again: whatever
    the first [Start] found, a second one panics, for every context and
    world it is given. *)
Theorem Start_twice (v : HTTPVCR) (parent parent' : ctx_err) (w w0 : World)
    (v' : HTTPVCR) (w' : World) :
  Start v parent w = Ok (v', w') ->
  Start v' parent' w0 = Panic "httpvcr: session already started!".
Proof.
  intros H. apply Start_Ok_inv in H as (_ & Hmode & _).
  unfold Start. rewrite Hmode. by destruct (Exists (Cassette v) w).
Qed.

Lemma Start_twice_witness :
  exists (v' : HTTPVCR) (w' : World),
    Start (New "test" []) NoError sample_world = Ok (v', w') /\
    Start v' NoError w' = Panic "httpvcr: session already started!".
Proof.
  eexists _, _. split; [reflexivity |].
  eapply (Start_twice (New "test" []) NoError NoError sample_world). reflexivity.
Defined.

Lemma Stop_Ok_inv (v : HTTPVCR) (w : World) (v' : HTTPVCR) (w' : World) :
  mode v <> ModeStopped ->
  Stop v w = Ok (v', w') ->
  exists (c : ctx_err) (w1 : World),
    ctx v = Some c /\
    (if bool_decide (mode v = ModeRecord) then write (Cassette v) w else Ok w) = Ok w1 /\
    v' = set_ctx (set_mode v ModeStopped)
           (Some match c with NoError => Canceled | _ => c end) /\
    w' = match originalTransport v with
         | Some t => if HTTPDefaultOverride (options v) then with_DefaultTransport w1 t else w1
         | None => w1
         end.
Proof.
  intros Hmode. unfold Stop. rewrite bool_decide_eq_false_2 by exact Hmode.
  destruct (if bool_decide (mode v = ModeRecord) then _ else _) as [w1|msg]; [| discriminate].
  cbn [outcome_bind]. unfold ctxCancel. cbn [ctx set_mode].
  destruct (ctx v) as [c|] eqn:Hctx; [| discriminate].
  intros H. exists c, w1.
  destruct c; cbn [outcome_bind] in H; injection H as <- <-; repeat split.
  all: destruct v; cbn in *; by rewrite Hctx.
Qed.

Lemma Stop_replay_Ok (v : HTTPVCR) (w : World) (c : ctx_err) :
  mode v = ModeReplay ->
  ctx v = Some c ->
  Stop v w =
  Ok (set_ctx (set_mode v ModeStopped) (Some match c with NoError => Canceled | _ => c end),
      match originalTransport v with
      | Some t => if HTTPDefaultOverride (options v) then with_DefaultTransport w t else w
      | None => w
      end).
Proof.
  intros Hmode Hctx. unfold Stop, ctxCancel. rewrite Hmode. cbn. rewrite Hctx.
  destruct c; cbn; try reflexivity; destruct v; cbn in *; by subst.
Qed.

(** X11. After [Stop] the session is stopped and its context cancelled
    (the context given to [Start] not having expired), and a call that
    still reaches the recorder is refused with an error that says so:
    no transport is called, the session and the world stay as they are.
    The body of the request has been read and put back all the same. *)
Theorem RoundTrip_after_Stop (v : HTTPVCR) (w : World) (v' : HTTPVCR) (w' : World)
    (c : ctx_err) (w0 : World) (request : http_Request) :
  mode v <> ModeStopped ->
  ctx v = Some c ->
  c <> DeadlineExceeded ->
  Stop v w = Ok (v', w') ->
  mode v' = ModeStopped /\
  RoundTrip v' w0 request =
  Ok {| returned := (None, Some "httpvcr: stopped"); session := v'; world := w0;
        request_after := snd (newVCRRequest request (FilterMap v')) |}.
Proof.
  intros Hmode Hctx Hc H.
  apply Stop_Ok_inv in H as (c' & w1 & Hctx' & _ & -> & _); [| exact Hmode].
  rewrite Hctx in Hctx'. injection Hctx' as <-.
  split; [reflexivity |].
  unfold RoundTrip. rewrite newVCRRequest_pair. cbn [ctx set_ctx].
  by destruct c.
Qed.

Lemma RoundTrip_after_Stop_witness :
  RoundTrip (set_ctx (set_mode sample_replay ModeStopped) (Some Canceled)) sample_world
    sample_request =
  Ok {| returned := (None, Some "httpvcr: stopped");
        session := set_ctx (set_mode sample_replay ModeStopped) (Some Canceled);
        world := sample_world;
        request_after := sample_request |}.
Proof.
  exact (proj2 (RoundTrip_after_Stop sample_replay sample_world
                  (set_ctx (set_mode sample_replay ModeStopped) (Some Canceled))
                  (with_DefaultTransport sample_world refusing_transport)
                  NoError sample_world sample_request
                  ltac:(discriminate) eq_refl ltac:(discriminate) eq_refl)).
Defined.

(** X12. A recorder that was never started has no session context: a
    call that reaches it panics on the nil context, and [Stop] does
    nothing. *)
Theorem New_not_started (cassetteName : string) (opts : list Options) (w : World)
    (request : http_Request) :
  RoundTrip (New cassetteName opts) w request = Panic nil_dereference /\
  Stop (New cassetteName opts) w = Ok (New cassetteName opts, w).
Proof.
  split; [| reflexivity].
  unfold RoundTrip. by rewrite newVCRRequest_pair.
Qed.

(** ** The session: one call *)

(** X13. A stopped session whose context is not cancelled hands the call
    to the saved transport and returns what that returns, response or
    error: the request is sent with its body put back by the capture,
    the modifier is not applied, nothing is recorded. *)
Theorem RoundTrip_stopped_passes_through
    (v : HTTPVCR) (w : World) (request : http_Request) (c : ctx_err)
    (perform : http_Request -> http_Response + error) :
  mode v = ModeStopped ->
  ctx v = Some c ->
  c <> Canceled ->
  originalTransport v = Some (Transport perform) ->
  RoundTrip v w request =
  Ok {| returned := match perform (snd (newVCRRequest request (FilterMap v))) with
                    | inl res => (Some res, None)
                    | inr err => (None, Some err)
                    end;
        session := v; world := w;
        request_after := snd (newVCRRequest request (FilterMap v)) |}.
Proof.
  intros Hmode Hctx Hc Ht. unfold RoundTrip.
  rewrite newVCRRequest_pair, Hctx, Hmode. unfold original_RoundTrip. rewrite Ht.
  by destruct c.
Qed.

Lemma RoundTrip_stopped_passes_through_witness :
  exists r : RoundTripResult,
    RoundTrip (set_ctx (set_mode sample_record ModeStopped) (Some DeadlineExceeded))
      sample_world sample_request = Ok r /\
    session r = set_ctx (set_mode sample_record ModeStopped) (Some DeadlineExceeded) /\
    snd (returned r) = None.
Proof.
  eexists. split.
  - apply (RoundTrip_stopped_passes_through
             (set_ctx (set_mode sample_record ModeStopped) (Some DeadlineExceeded))
             sample_world sample_request DeadlineExceeded ok_transport);
      [reflexivity | reflexivity | discriminate | reflexivity].
  - split; reflexivity.
Defined.

(** X14. A recording call that the transport answers. The transport gets
    the request as the modifier left it; the episode appended to the
    cassette pairs the snapshot taken before the modifier ran, filters
    applied, with the snapshot of the response; the caller gets the
    response built from that snapshot, not the live one. The matcher and
    the world are not touched. *)
Theorem RoundTrip_record_appends
    (v : HTTPVCR) (w : World) (request : http_Request) (c : ctx_err)
    (perform : http_Request -> http_Response + error) (response : http_Response) :
  mode v = ModeRecord ->
  ctx v = Some c ->
  c <> Canceled ->
  originalTransport v = Some (Transport perform) ->
  perform (request_sent v request) = inl response ->
  RoundTrip v w request =
  Ok {| returned := (Some (httpResponse (newVCRResponse response)), None);
        session :=
          set_Cassette v
            {| name := name (Cassette v);
               Episodes := append (Episodes (Cassette v))
                             {| Request := fst (newVCRRequest request (FilterMap v));
                                Response := newVCRResponse response |};
               Gzip := Gzip (Cassette v);
               episodeMatcher := episodeMatcher (Cassette v) |};
        world := w;
        request_after := request_sent v request |}.
Proof.
  intros Hmode Hctx Hc Ht Hp. unfold RoundTrip.
  rewrite newVCRRequest_pair, Hctx, Hmode. unfold original_RoundTrip. rewrite Ht.
  unfold request_sent in *.
  destruct c; try congruence; cbn [bool_decide decide_rel Mode_eq_dec outcome_bind];
    by rewrite Hp.
Qed.

Lemma RoundTrip_record_appends_witness :
  exists r : RoundTripResult,
    RoundTrip sample_record sample_world keyed_request = Ok r /\
    (Body ∘ Request) <$> elems (Episodes (Cassette (session r))) = [None; Some dummy_key].
Proof.
  eexists. split.
  - apply (RoundTrip_record_appends sample_record sample_world keyed_request NoError
             ok_transport); [reflexivity | reflexivity | discriminate | reflexivity | reflexivity].
  - reflexivity.
Defined.

(** The replay branch of [RoundTrip] once the matcher has answered. *)
Lemma RoundTrip_replay_matched
    (v : HTTPVCR) (w : World) (request : http_Request) (c : ctx_err)
    (e : Episode) (m' : DefaultEpisodeMatcher) :
  mode v = ModeReplay ->
  ctx v = Some c ->
  c <> Canceled ->
  MatchEpisode (episodeMatcher (Cassette v)) (fst (newVCRRequest request (FilterMap v))) =
    Ok (e, m') ->
  let c' := {| name := name (Cassette v); Episodes := Episodes (Cassette v);
               Gzip := Gzip (Cassette v); episodeMatcher := m' |} in
  RoundTrip v w request =
  (do (v1, w1) <-
     (if length (elems (Episodes (Cassette v))) =? 0
      then Stop (set_Cassette v c') w else Ok (set_Cassette v c', w));
   Ok {| returned := (Some (httpResponse (Response e)), None); session := v1; world := w1;
         request_after := request_sent v request |}).
Proof.
  intros Hmode Hctx Hc Hm c'. unfold RoundTrip, matchEpisode, request_sent.
  rewrite newVCRRequest_pair, Hctx, Hmode, Hm.
  destruct c; try congruence; cbn [bool_decide decide_rel Mode_eq_dec outcome_bind];
    cbn [mode set_Cassette Cassette Episodes]; rewrite Hmode; reflexivity.
Qed.

Lemma RoundTrip_replay_panics
    (v : HTTPVCR) (w : World) (request : http_Request) (c : ctx_err) (msg : string) :
  mode v = ModeReplay ->
  ctx v = Some c ->
  c <> Canceled ->
  MatchEpisode (episodeMatcher (Cassette v)) (fst (newVCRRequest request (FilterMap v))) =
    Panic msg ->
  RoundTrip v w request = Panic msg.
Proof.
  intros Hmode Hctx Hc Hm. unfold RoundTrip, matchEpisode.
  rewrite newVCRRequest_pair, Hctx, Hmode, Hm.
  by destruct c.
Qed.

(** X15. While replaying with a context that is not cancelled, the
    matcher decides the call: when it panics, [RoundTrip] panics with
    the same message; when it returns an episode, [RoundTrip] returns
    the response of that episode without an error, keeps the matcher as
    the match left it, and leaves the request as the modifier made it. *)
Theorem RoundTrip_replay_follows_matcher
    (v : HTTPVCR) (w : World) (request : http_Request) (c : ctx_err) :
  mode v = ModeReplay ->
  ctx v = Some c ->
  c <> Canceled ->
  match MatchEpisode (episodeMatcher (Cassette v))
          (fst (newVCRRequest request (FilterMap v))) with
  | Panic msg => RoundTrip v w request = Panic msg
  | Ok (e, m') =>
    exists r : RoundTripResult,
      RoundTrip v w request = Ok r /\
      returned r = (Some (httpResponse (Response e)), None) /\
      episodeMatcher (Cassette (session r)) = m' /\
      request_after r = request_sent v request
  end.
Proof.
  intros Hmode Hctx Hc.
  destruct (MatchEpisode _ _) as [[e m']|msg] eqn:Hm.
  - rewrite (RoundTrip_replay_matched v w request c e m' Hmode Hctx Hc Hm).
    destruct (_ =? 0).
    + rewrite (Stop_replay_Ok _ _ c) by (cbn; assumption).
      cbn [outcome_bind]. eexists. by repeat split.
    + cbn [outcome_bind]. eexists. by repeat split.
  - exact (RoundTrip_replay_panics v w request c msg Hmode Hctx Hc Hm).
Qed.

Lemma RoundTrip_replay_follows_matcher_witness :
  RoundTrip sample_replay sample_world keyed_request =
  Panic ("httpvcr: problem with episode for POST http://127.0.0.1/?token=secret-key"
         +:+ nl +:+ "  episode Method does not match:"
         +:+ nl +:+ "  expected: GET"
         +:+ nl +:+ "  but got: POST").
Proof.
  exact (RoundTrip_replay_follows_matcher sample_replay sample_world keyed_request NoError
           eq_refl eq_refl ltac:(discriminate)).
Defined.

Lemma ctx_err_case {A : Type} (c : ctx_err) (x y : A) :
  match c with Canceled => x | _ => y end = if bool_decide (c = Canceled) then x else y.
Proof. by destruct c. Qed.

(** What no call changes. *)
Lemma RoundTrip_keeps (v : HTTPVCR) (w : World) (request : http_Request)
    (r : RoundTripResult) :
  RoundTrip v w request = Ok r ->
  fs (world r) = fs w /\
  gzip (world r) = gzip w /\
  options (session r) = options v /\
  FilterMap (session r) = FilterMap v /\
  RequestModifier (session r) = RequestModifier v /\
  originalTransport (session r) = originalTransport v /\
  name (Cassette (session r)) = name (Cassette v) /\
  Gzip (Cassette (session r)) = Gzip (Cassette v) /\
  (http_DefaultTransport (world r) = http_DefaultTransport w \/
   Some (http_DefaultTransport (world r)) = originalTransport v) /\
  (mode (session r) = mode v \/ mode v = ModeReplay /\ mode (session r) = ModeStopped) /\
  exists new : list Episode,
    elems (Episodes (Cassette (session r))) = elems (Episodes (Cassette v)) ++ new /\
    length new <= 1 /\
    (new <> [] -> mode v = ModeRecord).
Proof.
  unfold RoundTrip. rewrite newVCRRequest_pair.
  destruct (ctx v) as [c|] eqn:Hctx; [| discriminate].
  assert (Hnil : exists new : list Episode,
            elems (Episodes (Cassette v)) = elems (Episodes (Cassette v)) ++ new /\
            length new <= 1 /\ (new <> [] -> mode v = ModeRecord)).
  { exists []. rewrite app_nil_r. repeat split; [cbn; lia | done]. }
  rewrite ctx_err_case. destruct (bool_decide (c = Canceled)).
  { intros H. injection H as <-. cbn. repeat split; auto. }
  destruct (mode v) eqn:Hmode; decide_modes.
  - (* stopped *)
    destruct (original_RoundTrip v _) as [r0|msg]; [| discriminate].
    cbn [outcome_bind]. intros H. injection H as <-. cbn. rewrite Hmode.
    repeat split; auto.
  - (* recording *)
    destruct (original_RoundTrip v _) as [[response|err]|msg]; [| | discriminate];
      cbn [outcome_bind]; intros H; injection H as <-; cbn; rewrite Hmode;
      repeat split; auto.
    eexists [_]. repeat split. cbn; lia.
  - (* replaying *)
    unfold matchEpisode.
    destruct (MatchEpisode _ _) as [[e m']|msg]; [| discriminate].
    cbn [outcome_bind]. cbn [mode set_Cassette Cassette Episodes]. rewrite Hmode.
    decide_modes. cbn [andb].
    destruct (_ =? 0).
    + rewrite (Stop_replay_Ok _ _ c) by (cbn; assumption).
      cbn [outcome_bind]. intros H. injection H as <-. cbn.
      destruct (originalTransport v) as [t|], (HTTPDefaultOverride (options v));
        cbn; repeat split; auto.
    + cbn [outcome_bind]. intros H. injection H as <-. cbn. rewrite Hmode.
      repeat split; auto.
Qed.

(** X16. No call touches the file tree or the compressor, and no call
    changes the settings of the session: options, filters, modifier,
    saved transport, and the name and compression flag of the cassette.
    The default transport is left as it was or set back to the saved
    one. *)
Theorem RoundTrip_leaves_files_and_settings
    (v : HTTPVCR) (w : World) (request : http_Request) (r : RoundTripResult) :
  RoundTrip v w request = Ok r ->
  fs (world r) = fs w /\
  gzip (world r) = gzip w /\
  (http_DefaultTransport (world r) = http_DefaultTransport w \/
   Some (http_DefaultTransport (world r)) = originalTransport v) /\
  options (session r) = options v /\
  FilterMap (session r) = FilterMap v /\
  RequestModifier (session r) = RequestModifier v /\
  originalTransport (session r) = originalTransport v /\
  name (Cassette (session r)) = name (Cassette v) /\
  Gzip (Cassette (session r)) = Gzip (Cassette v).
Proof.
  intros H. apply RoundTrip_keeps in H.
  destruct H as (? & ? & ? & ? & ? & ? & ? & ? & ? & _). by repeat split.
Qed.

Lemma RoundTrip_leaves_files_and_settings_witness :
  fs (world {| returned := (Some (httpResponse (Response sample_episode)), None);
               session := set_Cassette sample_replay
                            {| name := "test_cassette"; Episodes := Some [sample_episode];
                               Gzip := false; episodeMatcher := {| episodes := Some [] |} |};
               world := sample_world;
               request_after := sample_request |}) = fs sample_world.
Proof.
  exact (proj1 (RoundTrip_leaves_files_and_settings sample_replay sample_world sample_request
                  _ sample_replay_RoundTrip)).
Defined.

(** X17. The sequence of the cassette never loses an episode: a call
    leaves it as it was or, in a recording session only, with one
    episode more at its end. A call leaves the mode as it was, but for a
    replaying session that it stops. *)
Theorem RoundTrip_grows_episodes
    (v : HTTPVCR) (w : World) (request : http_Request) (r : RoundTripResult) :
  RoundTrip v w request = Ok r ->
  (mode (session r) = mode v \/ mode v = ModeReplay /\ mode (session r) = ModeStopped) /\
  exists new : list Episode,
    elems (Episodes (Cassette (session r))) = elems (Episodes (Cassette v)) ++ new /\
    length new <= 1 /\
    (new <> [] -> mode v = ModeRecord).
Proof.
  intros H. apply RoundTrip_keeps in H.
  destruct H as (_ & _ & _ & _ & _ & _ & _ & _ & _ & ? & ?). by split.
Qed.

Lemma RoundTrip_grows_episodes_witness :
  exists new : list Episode,
    [sample_episode] = [sample_episode] ++ new /\
    length new <= 1 /\
    (new <> [] -> ModeReplay = ModeRecord).
Proof.
  exact (proj2 (RoundTrip_grows_episodes sample_replay sample_world sample_request
                  _ sample_replay_RoundTrip)).
Defined.

(** X18. A replaying call depends on the session through its context
    and its cassette only, and on the request through the snapshot its
    capture gives only: two replaying sessions with the same context
    and cassette, whatever their saved transports, modifiers, options
    and worlds, given two requests that are captured as the same
    snapshot, whatever their headers and whatever order each capture
    visits its filters in, return the same, leave the same cassette and
    mode, or panic with the same message. *)
Theorem RoundTrip_replay_ignores_transport
    (v v' : HTTPVCR) (w w' : World) (request request' : http_Request) :
  mode v = ModeReplay ->
  mode v' = ModeReplay ->
  ctx v' = ctx v ->
  Cassette v' = Cassette v ->
  fst (newVCRRequest request' (FilterMap v')) = fst (newVCRRequest request (FilterMap v)) ->
  replay_view (RoundTrip v' w' request') = replay_view (RoundTrip v w request).
Proof.
  intros Hmode Hmode' Hctx HC HF.
  destruct (ctx v) as [c|] eqn:Hc.
  2: { unfold RoundTrip.
       rewrite (newVCRRequest_pair request (FilterMap v)),
         (newVCRRequest_pair request' (FilterMap v')), Hctx, Hc. reflexivity. }
  destruct (decide (c = Canceled)) as [-> | Hne].
  { unfold RoundTrip.
    rewrite (newVCRRequest_pair request (FilterMap v)),
      (newVCRRequest_pair request' (FilterMap v')), Hctx, Hc. cbn.
    by rewrite HC, Hmode, Hmode'. }
  destruct (MatchEpisode (episodeMatcher (Cassette v))
              (fst (newVCRRequest request (FilterMap v)))) as [[e m']|msg] eqn:Hm.
  - rewrite (RoundTrip_replay_matched v w request c e m' Hmode Hc Hne Hm).
    rewrite (RoundTrip_replay_matched v' w' request' c e m' Hmode' Hctx Hne)
      by (by rewrite HC, HF).
    rewrite HC. destruct (_ =? 0).
    + rewrite !(Stop_replay_Ok _ _ c) by (cbn; assumption). reflexivity.
    + cbn. by rewrite Hmode, Hmode'.
  - rewrite (RoundTrip_replay_panics v w request c msg Hmode Hc Hne Hm).
    rewrite (RoundTrip_replay_panics v' w' request' c msg Hmode' Hctx Hne)
      by (by rewrite HC, HF).
    reflexivity.
Qed.

(** A session without a saved transport, and a request with a header. *)
Lemma RoundTrip_replay_ignores_transport_witness :
  replay_view (RoundTrip (set_originalTransport sample_replay None) sample_world
                 {| Request_Method := "GET"; Request_URL := "http://127.0.0.1/";
                    Request_Header := Some {[ "Accept" := Some ["text/plain"] ]};
                    Request_ContentLength := 0; Request_Body := None |}) =
  replay_view (RoundTrip sample_replay sample_world sample_request).
Proof.
  apply (RoundTrip_replay_ignores_transport sample_replay
           (set_originalTransport sample_replay None)); reflexivity.
Defined.

(** A call of a started session: the world and the mode stay. *)
Lemma RoundTrip_started (v : HTTPVCR) (w : World) (request : http_Request)
    (r : RoundTripResult) :
  mode v <> ModeStopped ->
  (mode v = ModeReplay -> queue_within (Cassette v)) ->
  RoundTrip v w request = Ok r ->
  world r = w /\
  mode (session r) = mode v /\
  ctx (session r) = ctx v /\
  (mode v = ModeReplay -> queue_within (Cassette (session r))).
Proof.
  intros Hmode Hq. unfold RoundTrip. rewrite newVCRRequest_pair.
  destruct (ctx v) as [c|] eqn:Hctx; [| discriminate].
  rewrite ctx_err_case. destruct (bool_decide (c = Canceled)).
  { intros H. injection H as <-. by cbn. }
  destruct (mode v) eqn:Hm; [done | |]; decide_modes.
  - destruct (original_RoundTrip v _) as [[response|err]|msg]; [| | discriminate];
      cbn [outcome_bind]; intros H; injection H as <-; by cbn.
  - unfold matchEpisode.
    destruct (MatchEpisode _ _) as [[e m']|msg] eqn:Hmatch; [| discriminate].
    apply MatchEpisode_Ok_inv in Hmatch as (rest & Hhead & ->).
    cbn [outcome_bind]. cbn [mode set_Cassette Cassette Episodes]. rewrite Hm.
    decide_modes. cbn [andb].
    specialize (Hq eq_refl). unfold queue_within in Hq. rewrite Hhead in Hq.
    destruct Hq as [k Hk]. rewrite Hk.
    replace (length (k ++ e :: rest) =? 0) with false
      by (symmetry; apply Nat.eqb_neq; rewrite length_app; cbn; lia).
    cbn [outcome_bind]. intros H. injection H as <-. cbn.
    repeat split; try done.
    intros _. unfold queue_within. cbn [episodes episodeMatcher Episodes]. rewrite Hk.
    exists (k ++ [e]). by rewrite <- app_assoc.
Qed.

(** X19. Once the queue of the matcher is an end piece of the sequence
    of the cassette, as it is after the load, it stays one, and the
    sequence is not empty whenever the matcher answers: the closing
    [Stop] of [RoundTrip] is never reached. A replaying call that
    returns leaves the session replaying, and the context and the world
    as they were. *)
Theorem RoundTrip_replay_never_stops
    (v : HTTPVCR) (w : World) (request : http_Request) (r : RoundTripResult) :
  mode v = ModeReplay ->
  queue_within (Cassette v) ->
  RoundTrip v w request = Ok r ->
  mode (session r) = ModeReplay /\
  queue_within (Cassette (session r)) /\
  ctx (session r) = ctx v /\
  world r = w.
Proof.
  intros Hmode Hq H.
  apply RoundTrip_started in H as (Hw & Hm & Hc & Hq'); [| congruence | done].
  rewrite Hm, Hmode. auto.
Qed.

Lemma RoundTrip_replay_never_stops_witness :
  mode (set_Cassette sample_replay
          {| name := "test_cassette"; Episodes := Some [sample_episode];
             Gzip := false; episodeMatcher := {| episodes := Some [] |} |}) = ModeReplay.
Proof.
  refine (proj1 (RoundTrip_replay_never_stops sample_replay sample_world sample_request
                   _ eq_refl _ sample_replay_RoundTrip)).
  exists []. reflexivity.
Defined.

(** ** Filters *)

Lemma filter_lookup_update (filterMap : filter_map) (original replacement k : string) :
  filter_lookup
    ((fun kv => if String.eqb (fst kv) original then (original, replacement) else kv)
       <$> filterMap) k =
  if String.eqb k original && bool_decide (original ∈ (fst <$> filterMap))
  then Some replacement else filter_lookup filterMap k.
Proof.
  induction filterMap as [|[k0 r0] fm IH].
  - cbn. by rewrite andb_false_r.
  - cbn [fmap list_fmap fst]. fold (@fmap list _ _ _ fst fm).
    destruct (String.eqb_spec k0 original) as [-> | Hk0].
    + rewrite bool_decide_eq_true_2 by apply list_elem_of_here.
      rewrite andb_true_r. cbn [filter_lookup]. rewrite IH.
      rewrite (String.eqb_sym original k).
      by destruct (String.eqb k original).
    + cbn [filter_lookup]. rewrite IH.
      destruct (String.eqb_spec k original) as [E | Hk]; cbn [andb]; [| reflexivity].
      rewrite E. apply String.eqb_neq in Hk0 as Hk0'. rewrite Hk0'.
      destruct (decide (original ∈ (fst <$> fm))) as [Hin|Hin].
      * rewrite !bool_decide_eq_true_2; [done | by apply list_elem_of_further | done].
      * rewrite !bool_decide_eq_false_2; [done | | done].
        intros H. apply elem_of_cons in H as [H|H]; [congruence | done].
Qed.

Lemma filter_lookup_app (filterMap : filter_map) (original replacement k : string) :
  original ∉ (fst <$> filterMap) ->
  filter_lookup (filterMap ++ [(original, replacement)]) k =
  if String.eqb k original then Some replacement else filter_lookup filterMap k.
Proof.
  induction filterMap as [|[k0 r0] fm IH]; intros Hin.
  - cbn. by rewrite (String.eqb_sym original k).
  - cbn [app filter_lookup]. apply not_elem_of_cons in Hin as [Hne Hin].
    cbn [fst] in Hne. rewrite (IH Hin).
    destruct (String.eqb k0 k) eqn:E; [| reflexivity].
    apply String.eqb_eq in E as ->.
    apply not_eq_sym, String.eqb_neq in Hne. by rewrite Hne.
Qed.

(** X20. [FilterResponseBody] is the assignment to a map. Afterwards the
    plaintext stands for the new replacement and every other plaintext
    for what it stood for before; plaintexts that were distinct stay
    distinct, so a plaintext set twice has one filter, with the later
    replacement; mode, cassette, context and saved transport are as they
    were. *)
Theorem FilterResponseBody_assigns (v : HTTPVCR) (original replacement : string) :
  let v' := FilterResponseBody v original replacement in
  (forall k : string,
     filter_lookup (FilterMap v') k =
     if String.eqb k original then Some replacement else filter_lookup (FilterMap v) k) /\
  (NoDup (fst <$> FilterMap v) -> NoDup (fst <$> FilterMap v')) /\
  mode v' = mode v /\ Cassette v' = Cassette v /\ ctx v' = ctx v /\
  originalTransport v' = originalTransport v.
Proof.
  cbn zeta. unfold FilterResponseBody. cbn [FilterMap mode Cassette ctx originalTransport].
  split; [| split; [| done]].
  - intros k. destruct (decide (original ∈ (fst <$> FilterMap v))) as [Hin|Hin].
    + rewrite bool_decide_eq_true_2 by done.
      rewrite filter_lookup_update, bool_decide_eq_true_2 by done.
      by rewrite andb_true_r.
    + rewrite bool_decide_eq_false_2 by done. by apply filter_lookup_app.
  - intros Hnd. destruct (decide (original ∈ (fst <$> FilterMap v))) as [Hin|Hin].
    + rewrite bool_decide_eq_true_2 by done.
      replace (fst <$> (_ <$> FilterMap v)) with (fst <$> FilterMap v); [done |].
      rewrite <- list_fmap_compose. apply list_fmap_ext. intros i [k0 r0] _. cbn.
      destruct (String.eqb k0 original) eqn:E; [| reflexivity].
      by apply String.eqb_eq in E.
    + rewrite bool_decide_eq_false_2 by done.
      rewrite fmap_app. apply NoDup_app. split; [done |].
      split; [| apply NoDup_singleton].
      intros x Hx Hx'. apply list_elem_of_singleton in Hx'. cbn in Hx'. by subst.
Qed.

(** ** Sessions *)

Lemma Start_started (v : HTTPVCR) (parent : ctx_err) (w : World) (v' : HTTPVCR) (w' : World) :
  Start v parent w = Ok (v', w') ->
  mode v' <> ModeStopped /\ (mode v' = ModeReplay -> queue_within (Cassette v')).
Proof.
  intros H. apply Start_Ok_inv in H as (_ & Hmode & _ & _ & _ & _ & _ & HC).
  rewrite Hmode. destruct (Exists (Cassette v) w); [| done].
  split; [done |]. intros _.
  apply read_Ok_inv in HC as [_ HC]. by apply queue_within_refl.
Qed.

Lemma RoundTrips_started (requests : list http_Request) :
  forall (v : HTTPVCR) (w : World) (rets : list (option http_Response * option error))
         (v' : HTTPVCR) (w' : World),
    mode v <> ModeStopped ->
    (mode v = ModeReplay -> queue_within (Cassette v)) ->
    RoundTrips v w requests = Ok (rets, v', w') ->
    w' = w /\
    mode v' = mode v /\
    options v' = options v /\
    originalTransport v' = originalTransport v /\
    length rets = length requests.
Proof.
  induction requests as [|request requests IH]; intros v w rets v' w' Hmode Hq H.
  - cbn in H. injection H as <- <- <-. by repeat split.
  - cbn [RoundTrips] in H.
    destruct (RoundTrip v w request) as [r|msg] eqn:Hr; [| discriminate].
    cbn [outcome_bind] in H.
    destruct (RoundTrips (session r) (world r) requests) as [[[rets1 v1] w1]|msg] eqn:Hrs;
      [| discriminate].
    cbn [outcome_bind] in H. injection H as <- <- <-.
    pose proof (RoundTrip_keeps _ _ _ _ Hr) as (_ & _ & Ho & _ & _ & Ht & _).
    apply RoundTrip_started in Hr as (Hw & Hm & _ & Hq'); [| done | done].
    apply IH in Hrs as (-> & -> & -> & -> & Hlen).
    + cbn. by rewrite Hlen.
    + by rewrite Hm.
    + rewrite Hm. exact Hq'.
Qed.

Lemma write_Ok_inv (c : cassette) (w w' : World) :
  write c w = Ok w' ->
  gzip w' = gzip w /\
  http_DefaultTransport w' = http_DefaultTransport w /\
  fs w' !! Filename c =
    Some (File (if Gzip c then gzipWrite w (json_render 0 (json_of_cassette c))
                else json_render 0 (json_of_cassette c))).
Proof.
  unfold write, ioutil_WriteFile. intros H.
  destruct (writable _ _); [| discriminate]. injection H as <-.
  cbn [fs gzip http_DefaultTransport with_fs]. by rewrite lookup_insert_eq.
Qed.

(** X21. A session from [Start] to [Stop], with any calls in between
    that return. The calls leave the world as [Start] left it and the
    mode as it was; [Stop] then stops the session and leaves as default
    transport the one that was the default at [Start], whether or not
    the recorder had taken its place. A replaying session leaves the
    file tree as it found it. *)
Theorem session_restores_transport
    (v : HTTPVCR) (parent : ctx_err) (w : World) (requests : list http_Request)
    (v1 : HTTPVCR) (w1 : World) (rets : list (option http_Response * option error))
    (v2 : HTTPVCR) (w2 : World) (v3 : HTTPVCR) (w3 : World) :
  Start v parent w = Ok (v1, w1) ->
  RoundTrips v1 w1 requests = Ok (rets, v2, w2) ->
  Stop v2 w2 = Ok (v3, w3) ->
  w2 = w1 /\
  mode v2 = mode v1 /\
  mode v3 = ModeStopped /\
  http_DefaultTransport w3 = http_DefaultTransport w /\
  (mode v1 = ModeReplay -> fs w3 = fs w).
Proof.
  intros HS HR HP.
  pose proof (Start_started _ _ _ _ _ HS) as [Hne Hq].
  apply Start_Ok_inv in HS as (_ & _ & _ & Ho & _ & Ht & Hw1 & _).
  apply RoundTrips_started in HR as (-> & Hm & Ho2 & Ht2 & _); [| done | done].
  apply Stop_Ok_inv in HP as (c & w' & _ & Hwrite & -> & ->); [| by rewrite Hm].
  rewrite Hm in Hwrite. rewrite Ht2, Ht, Ho2, Ho.
  assert (Hd : http_DefaultTransport w' = http_DefaultTransport w1 /\
               (mode v1 = ModeReplay -> fs w' = fs w1)).
  { destruct (mode v1); [done | |].
    - change (write (Cassette v2) w1 = Ok w') in Hwrite.
      by apply write_Ok_inv in Hwrite as (_ & -> & _).
    - change (Ok w1 = Ok w') in Hwrite. by injection Hwrite as <-. }
  destruct Hd as [Hd Hfs].
  repeat split; [exact Hm | |].
  - destruct (HTTPDefaultOverride (options v)); [done |]. by rewrite Hd, Hw1.
  - intros Hr. specialize (Hfs Hr).
    destruct (HTTPDefaultOverride (options v)); cbn; by rewrite Hfs, Hw1.
Qed.

Lemma session_restores_transport_witness :
  exists w3 : World,
    (do (v1, w1) <- Start (New "test_cassette" []) NoError
                      {| fs := ∅; gzip := idle_gzip;
                         http_DefaultTransport := Transport ok_transport |};
     do (rets, v2, w2) <- RoundTrips v1 w1 [keyed_request; sample_request];
     do (v3, w3) <- Stop v2 w2;
     Ok w3) = Ok w3 /\
    http_DefaultTransport w3 = Transport ok_transport.
Proof.
  eexists. split; [vm_compute; reflexivity |].
  refine (proj1 (proj2 (proj2 (proj2
    (session_restores_transport (New "test_cassette" []) NoError
       {| fs := ∅; gzip := idle_gzip; http_DefaultTransport := Transport ok_transport |}
       [keyed_request; sample_request] _ _ _ _ _ _ _ _ _ _))))).
  - vm_compute. reflexivity.
  - vm_compute. reflexivity.
  - vm_compute. reflexivity.
Defined.

(** ** From a recording session to a replaying one *)

(** [read] looks at the file tree and the compressor only. *)
Lemma read_written (c c0 : cassette) (w w1 w2 : World) :
  cassette_text_valid c = true ->
  (Gzip c = true -> gzip_round_trip (gzip w)) ->
  name c0 = name c ->
  Gzip c0 = Gzip c ->
  write c w = Ok w1 ->
  fs w2 = fs w1 ->
  gzip w2 = gzip w ->
  read c0 w2 =
  Ok {| name := name c; Episodes := Episodes c; Gzip := Gzip c;
        episodeMatcher := {| episodes := Episodes c |} |}.
Proof.
  intros Hvalid Hgzip Hname Hflag Hwrite Hfs Hz.
  pose proof (json_Unmarshal_render c c0 Hvalid) as Hjson.
  apply write_Ok_inv in Hwrite as (_ & _ & Hfile).
  unfold read, ioutil_ReadFile, gunzipWrite.
  rewrite (Filename_eq c c0 Hname Hflag), Hflag, Hfs, Hfile, Hz.
  unfold gzipWrite. destruct (Gzip c) eqn:Hg.
  - rewrite (Hgzip eq_refl). cbn [outcome_bind].
    rewrite Hjson. cbn [name Episodes Gzip episodeMatcher Init]. by rewrite Hname.
  - cbn [outcome_bind].
    rewrite Hjson. cbn [name Episodes Gzip episodeMatcher Init]. by rewrite Hname.
Qed.

Lemma Stop_then_Start (v v0 : HTTPVCR) (w : World) (v1 : HTTPVCR) (w1 : World)
    (parent : ctx_err) :
  mode v = ModeRecord ->
  cassette_text_valid (Cassette v) = true ->
  (Gzip (Cassette v) = true -> gzip_round_trip (gzip w)) ->
  Stop v w = Ok (v1, w1) ->
  mode v0 = ModeStopped ->
  name (Cassette v0) = name (Cassette v) ->
  Gzip (Cassette v0) = Gzip (Cassette v) ->
  exists w2 : World,
    Start v0 parent w1 =
    Ok (set_Cassette
          (set_mode (set_originalTransport (set_ctx v0 (Some parent))
                       (Some (http_DefaultTransport w1))) ModeReplay)
          {| name := name (Cassette v); Episodes := Episodes (Cassette v);
             Gzip := Gzip (Cassette v);
             episodeMatcher := {| episodes := Episodes (Cassette v) |} |}, w2).
Proof.
  intros Hmode Hvalid Hgzip HP Hmode0 Hname Hflag.
  apply Stop_Ok_inv in HP as (c & w' & _ & Hwrite & _ & ->); [| by rewrite Hmode].
  rewrite Hmode in Hwrite. cbn in Hwrite.
  set (w1 := match originalTransport v with
             | Some t => if HTTPDefaultOverride (options v) then with_DefaultTransport w' t else w'
             | None => w'
             end).
  set (w2 := if HTTPDefaultOverride (options v0) then with_DefaultTransport w1 Self else w1).
  assert (Hfs : fs w2 = fs w').
  { subst w2 w1. by destruct (originalTransport v), (HTTPDefaultOverride (options v)),
                       (HTTPDefaultOverride (options v0)). }
  assert (Hz : gzip w2 = gzip w).
  { pose proof (write_Ok_inv _ _ _ Hwrite) as (Hz & _).
    subst w2 w1. by destruct (originalTransport v), (HTTPDefaultOverride (options v)),
                       (HTTPDefaultOverride (options v0)). }
  exists w2. unfold Start. rewrite Hmode0. decide_modes. cbn [negb outcome_bind].
  cbn [options set_originalTransport set_ctx set_mode Cassette]. fold w2.
  assert (Hex : Exists (Cassette v0) w2 = true).
  { unfold Exists, os_Stat_ok. rewrite (Filename_eq _ _ Hname Hflag), Hfs.
    apply write_Ok_inv in Hwrite as (_ & _ & ->). reflexivity. }
  rewrite Hex.
  rewrite (read_written (Cassette v) (Cassette v0) w w' w2) by assumption.
  reflexivity.
Qed.

(** X22. What a recording session saved, the next session finds. When a
    recording session whose text fields are valid UTF-8 has stopped, a
    stopped session of the same cassette name and compression flag that
    holds no episode yet starts as a replaying session: the sequence of
    its cassette and the queue of its matcher are the recorded sequence;
    its filters and modifier are its own. A compressed cassette needs
    the compressor to give back what it was given. *)
Theorem Stop_then_Start_replays (v v0 : HTTPVCR) (w : World) (v1 : HTTPVCR) (w1 : World)
    (parent : ctx_err) :
  mode v = ModeRecord ->
  cassette_text_valid (Cassette v) = true ->
  (Gzip (Cassette v) = true -> gzip_round_trip (gzip w)) ->
  Stop v w = Ok (v1, w1) ->
  mode v0 = ModeStopped ->
  elems (Episodes (Cassette v0)) = [] ->
  name (Cassette v0) = name (Cassette v) ->
  Gzip (Cassette v0) = Gzip (Cassette v) ->
  exists (v2 : HTTPVCR) (w2 : World),
    Start v0 parent w1 = Ok (v2, w2) /\
    mode v2 = ModeReplay /\
    Episodes (Cassette v2) = Episodes (Cassette v) /\
    episodes (episodeMatcher (Cassette v2)) = Episodes (Cassette v) /\
    FilterMap v2 = FilterMap v0 /\
    RequestModifier v2 = RequestModifier v0.
Proof.
  intros Hmode Hvalid Hgzip HP Hmode0 _ Hname Hflag.
  destruct (Stop_then_Start v v0 w v1 w1 parent Hmode Hvalid Hgzip HP Hmode0 Hname Hflag)
    as [w2 HS].
  eexists _, w2. split; [exact HS |]. by repeat split.
Qed.

Lemma Stop_then_Start_replays_witness :
  exists (v1 : HTTPVCR) (w1 : World) (v2 : HTTPVCR) (w2 : World),
    Stop sample_record sample_world = Ok (v1, w1) /\
    Start (New "test_cassette" []) NoError w1 = Ok (v2, w2) /\
    mode v2 = ModeReplay /\
    Episodes (Cassette v2) = Some [sample_episode].
Proof.
  destruct (Stop sample_record sample_world) as [[v1 w1]|msg] eqn:HP;
    [| vm_compute in HP; discriminate HP].
  destruct (Stop_then_Start_replays sample_record (New "test_cassette" []) sample_world
              v1 w1 NoError eq_refl eq_refl ltac:(discriminate) HP eq_refl eq_refl eq_refl eq_refl)
    as (v2 & w2 & HS & Hm & He & _).
  exists v1, w1, v2, w2. by repeat split.
Defined.

(** A recording call that was answered. *)
Lemma RoundTrip_record_answered (v : HTTPVCR) (w : World) (request : http_Request)
    (r : RoundTripResult) :
  mode v = ModeRecord ->
  RoundTrip v w request = Ok r ->
  answered (returned r) = true ->
  exists e : Episode,
    Request e = fst (newVCRRequest request (FilterMap v)) /\
    returned r = (Some (httpResponse (Response e)), None) /\
    session r =
      set_Cassette v {| name := name (Cassette v);
                        Episodes := append (Episodes (Cassette v)) e;
                        Gzip := Gzip (Cassette v);
                        episodeMatcher := episodeMatcher (Cassette v) |} /\
    world r = w.
Proof.
  intros Hmode. unfold RoundTrip. rewrite newVCRRequest_pair.
  destruct (ctx v) as [c|] eqn:Hctx; [| discriminate].
  rewrite ctx_err_case. destruct (bool_decide (c = Canceled)).
  { intros H. injection H as <-. cbn. discriminate. }
  rewrite Hmode. decide_modes.
  destruct (original_RoundTrip v _) as [[response|err]|msg]; [| | discriminate];
    cbn [outcome_bind]; intros H; injection H as <-; cbn; [| discriminate].
  intros _. eexists {| Request := _; Response := _ |}. by repeat split.
Qed.

Lemma RoundTrips_record (requests : list http_Request) :
  forall (v : HTTPVCR) (w : World) (rets : list (option http_Response * option error))
         (v1 : HTTPVCR) (w1 : World),
    mode v = ModeRecord ->
    RoundTrips v w requests = Ok (rets, v1, w1) ->
    forallb answered rets = true ->
    exists new : list Episode,
      elems (Episodes (Cassette v1)) = elems (Episodes (Cassette v)) ++ new /\
      Request <$> new = (fun request => fst (newVCRRequest request (FilterMap v))) <$> requests /\
      rets = (fun e => (Some (httpResponse (Response e)), None)) <$> new /\
      mode v1 = ModeRecord /\
      FilterMap v1 = FilterMap v /\
      name (Cassette v1) = name (Cassette v) /\
      Gzip (Cassette v1) = Gzip (Cassette v) /\
      w1 = w.
Proof.
  induction requests as [|request requests IH]; intros v w rets v1 w1 Hmode H Hans.
  - cbn in H. injection H as <- <- <-. exists []. rewrite app_nil_r. by repeat split.
  - cbn [RoundTrips] in H.
    destruct (RoundTrip v w request) as [r|msg] eqn:Hr; [| discriminate].
    cbn [outcome_bind] in H.
    destruct (RoundTrips (session r) (world r) requests) as [[[rets1 v2] w2]|msg] eqn:Hrs;
      [| discriminate].
    cbn [outcome_bind] in H. injection H as <- <- <-.
    cbn [forallb] in Hans. apply andb_true_iff in Hans as [Ha Hans].
    apply RoundTrip_record_answered in Hr as (e & He & Hret & Hs & Hw); [| done | done].
    apply IH in Hrs as (new & HE & HR & -> & Hm & HF & Hn & Hg & ->); [| by rewrite Hs | done].
    rewrite Hs in HE, HR, HF, Hn, Hg. cbn in HE, HR, HF, Hn, Hg.
    exists (e :: new). rewrite HE, Hret, <- app_assoc. cbn. rewrite HR, He.
    by repeat split.
Qed.

(** A replaying call whose request is the one recorded at the head of
    the queue. *)
Lemma RoundTrip_replay_step (v : HTTPVCR) (w : World) (request : http_Request) (c : ctx_err)
    (e : Episode) (rest : list Episode) :
  mode v = ModeReplay ->
  ctx v = Some c ->
  c <> Canceled ->
  queue_within (Cassette v) ->
  elems (episodes (episodeMatcher (Cassette v))) = e :: rest ->
  Request e = fst (newVCRRequest request (FilterMap v)) ->
  RoundTrip v w request =
  Ok {| returned := (Some (httpResponse (Response e)), None);
        session := set_Cassette v {| name := name (Cassette v);
                                     Episodes := Episodes (Cassette v);
                                     Gzip := Gzip (Cassette v);
                                     episodeMatcher := {| episodes := Some rest |} |};
        world := w;
        request_after := request_sent v request |}.
Proof.
  intros Hmode Hctx Hc Hq Hhead He.
  rewrite (RoundTrip_replay_matched v w request c e {| episodes := Some rest |}
             Hmode Hctx Hc).
  - cbv zeta. unfold queue_within in Hq. rewrite Hhead in Hq. destruct Hq as [k ->].
    replace (length (k ++ e :: rest) =? 0) with false
      by (symmetry; apply Nat.eqb_neq; rewrite length_app; cbn; lia).
    reflexivity.
  - apply (MatchEpisode_consumes _ _ e rest Hhead); by rewrite He.
Qed.

Lemma RoundTrips_replay (requests : list http_Request) :
  forall (es rest : list Episode) (v : HTTPVCR) (w : World) (c : ctx_err),
    mode v = ModeReplay ->
    ctx v = Some c ->
    c <> Canceled ->
    queue_within (Cassette v) ->
    elems (episodes (episodeMatcher (Cassette v))) = es ++ rest ->
    Request <$> es = (fun request => fst (newVCRRequest request (FilterMap v))) <$> requests ->
    exists v' : HTTPVCR,
      RoundTrips v w requests =
        Ok ((fun e => (Some (httpResponse (Response e)), None)) <$> es, v', w) /\
      elems (episodes (episodeMatcher (Cassette v'))) = rest /\
      Episodes (Cassette v') = Episodes (Cassette v) /\
      mode v' = ModeReplay.
Proof.
  induction requests as [|request requests IH]; intros es rest v w c Hmode Hctx Hc Hq Hes HR.
  - destruct es; [| discriminate]. exists v. by repeat split.
  - destruct es as [|e es]; [discriminate |].
    cbn [fmap list_fmap] in HR. injection HR as He HR.
    cbn [RoundTrips].
    rewrite (RoundTrip_replay_step v w request c e (es ++ rest)) by assumption.
    cbn [outcome_bind session world returned].
    edestruct (IH es rest) as (v' & -> & Hrest & HE & Hm); [.. | exact HR |].
    + exact Hmode.
    + exact Hctx.
    + exact Hc.
    + unfold queue_within in *.
      cbn [Cassette set_Cassette episodes episodeMatcher Episodes].
      rewrite Hes in Hq. destruct Hq as [k ->].
      exists (k ++ [e]). by rewrite <- app_assoc.
    + reflexivity.
    + exists v'. by repeat split.
Qed.

(** X23. Record, then replay. A recording session that starts with no
    episode and holds at most one filter answers a run of requests, each
    with a response, and is stopped; a session of the same cassette
    name, compression flag and filter is started on the world left. It
    replays, and the same run of requests gets the same responses in the
    same order, with no episode left in the queue afterwards and the
    world untouched. With at most one filter there is one order to visit
    the filter map in, so every capture of the two runs is the capture
    of the run. The text fields recorded must be valid UTF-8, and the
    context of the new session not cancelled. *)
Theorem record_then_replay_all
    (v v0 : HTTPVCR) (w : World) (requests : list http_Request)
    (rets : list (option http_Response * option error))
    (v1 : HTTPVCR) (w1 : World) (v2 : HTTPVCR) (w2 : World) (parent : ctx_err) :
  mode v = ModeRecord ->
  elems (Episodes (Cassette v)) = [] ->
  length (FilterMap v) <= 1 ->
  RoundTrips v w requests = Ok (rets, v1, w1) ->
  forallb answered rets = true ->
  cassette_text_valid (Cassette v1) = true ->
  (Gzip (Cassette v) = true -> gzip_round_trip (gzip w)) ->
  Stop v1 w1 = Ok (v2, w2) ->
  mode v0 = ModeStopped ->
  elems (Episodes (Cassette v0)) = [] ->
  name (Cassette v0) = name (Cassette v) ->
  Gzip (Cassette v0) = Gzip (Cassette v) ->
  FilterMap v0 = FilterMap v ->
  parent <> Canceled ->
  exists (v3 : HTTPVCR) (w3 : World) (v4 : HTTPVCR),
    Start v0 parent w2 = Ok (v3, w3) /\
    mode v3 = ModeReplay /\
    RoundTrips v3 w3 requests = Ok (rets, v4, w3) /\
    elems (episodes (episodeMatcher (Cassette v4))) = [] /\
    mode v4 = ModeReplay.
Proof.
  intros Hmode Hempty _ HR Hans Hvalid Hgzip HP Hmode0 _ Hname Hflag HF Hparent.
  apply RoundTrips_record in HR as (new & HE & Hreq & -> & Hm1 & HF1 & Hn1 & Hg1 & ->);
    [| done | done].
  rewrite Hempty in HE. cbn in HE.
  destruct (Stop_then_Start v1 v0 w v2 w2 parent) as [w3 HS]; try done.
  { by rewrite Hg1. }
  { by rewrite Hn1. }
  { by rewrite Hg1. }
  eexists _, w3. rewrite HS.
  edestruct (RoundTrips_replay requests new []) as (v4 & Hrun & Hrest & _ & Hm4);
    [.. | exists v4; split; [reflexivity |]; split; [reflexivity |];
          split; [exact Hrun |]; split; [exact Hrest | exact Hm4]].
  - reflexivity.
  - reflexivity.
  - exact Hparent.
  - by apply queue_within_refl.
  - cbn. by rewrite app_nil_r.
  - cbn. by rewrite HF.
Qed.

(** The run of [TestVCR] cut to two calls, its one filter set. *)
Lemma record_then_replay_all_witness :
  exists (rets : list (option http_Response * option error)) (v1 : HTTPVCR) (w1 : World)
         (v2 : HTTPVCR) (w2 : World) (v3 : HTTPVCR) (w3 : World) (v4 : HTTPVCR),
    RoundTrips (set_Cassette sample_record (fresh_cassette (Cassette sample_record)))
      sample_world [keyed_request; sample_request] = Ok (rets, v1, w1) /\
    length rets = 2 /\
    Stop v1 w1 = Ok (v2, w2) /\
    Start (FilterResponseBody (New "test_cassette" []) "secret-key" "dummy-key") NoError w2 =
      Ok (v3, w3) /\
    RoundTrips v3 w3 [keyed_request; sample_request] = Ok (rets, v4, w3).
Proof.
  destruct (RoundTrips (set_Cassette sample_record (fresh_cassette (Cassette sample_record)))
              sample_world [keyed_request; sample_request])
    as [[[rets v1] w1]|msg] eqn:HR; [| vm_compute in HR; discriminate HR].
  pose proof HR as HR'. vm_compute in HR'. injection HR' as <- <- <-.
  match goal with
  | _ : _ = Ok (_, ?v1, ?w1) |- _ =>
    destruct (Stop v1 w1) as [[v2 w2]|msg] eqn:HP; [| vm_compute in HP; discriminate HP]
  end.
  edestruct (record_then_replay_all
               (set_Cassette sample_record (fresh_cassette (Cassette sample_record)))
               (FilterResponseBody (New "test_cassette" []) "secret-key" "dummy-key")
               sample_world [keyed_request; sample_request] _ _ _ v2 w2 NoError
               eq_refl eq_refl ltac:(cbn; lia) HR)
    as (v3 & w3 & v4 & HS & _ & Hrun & _);
    [reflexivity | reflexivity | discriminate | exact HP | reflexivity | reflexivity
     | reflexivity | reflexivity | reflexivity | discriminate |].
  eexists _, _, _, v2, w2, v3, w3, v4.
  split; [reflexivity |]. split; [reflexivity |]. split; [exact HP |].
  split; [exact HS | exact Hrun].
Defined.

(** X24. The run of [TestNoEpisodesLeft]. A recording session stopped
    before any call was recorded leaves a cassette file without
    episodes; the next session of that name replays, and its first call
    panics for want of episodes, whatever the request. *)
Theorem no_episodes_left (v v0 : HTTPVCR) (w : World) (v1 : HTTPVCR) (w1 : World)
    (parent : ctx_err) (request : http_Request) :
  mode v = ModeRecord ->
  elems (Episodes (Cassette v)) = [] ->
  (Gzip (Cassette v) = true -> gzip_round_trip (gzip w)) ->
  Stop v w = Ok (v1, w1) ->
  mode v0 = ModeStopped ->
  elems (Episodes (Cassette v0)) = [] ->
  name (Cassette v0) = name (Cassette v) ->
  Gzip (Cassette v0) = Gzip (Cassette v) ->
  parent <> Canceled ->
  exists (v2 : HTTPVCR) (w2 : World),
    Start v0 parent w1 = Ok (v2, w2) /\
    mode v2 = ModeReplay /\
    RoundTrip v2 w2 request = Panic "httpvcr: no more episodes!".
Proof.
  intros Hmode Hempty Hgzip HP Hmode0 _ Hname Hflag Hparent.
  destruct (Stop_then_Start v v0 w v1 w1 parent) as [w2 HS]; try done.
  { unfold cassette_text_valid. by rewrite Hempty. }
  eexists _, w2. split; [exact HS |]. split; [reflexivity |].
  apply (RoundTrip_replay_panics _ _ _ parent); [reflexivity | reflexivity | exact Hparent |].
  apply MatchEpisode_exhausted. exact Hempty.
Qed.

Lemma no_episodes_left_witness :
  exists (v1 : HTTPVCR) (w1 : World) (v2 : HTTPVCR) (w2 : World),
    Stop (set_Cassette sample_record (fresh_cassette (Cassette sample_record))) sample_world =
      Ok (v1, w1) /\
    Start (New "test_cassette" []) NoError w1 = Ok (v2, w2) /\
    RoundTrip v2 w2 sample_request = Panic "httpvcr: no more episodes!".
Proof.
  destruct (Stop (set_Cassette sample_record (fresh_cassette (Cassette sample_record)))
              sample_world) as [[v1 w1]|msg] eqn:HP; [| vm_compute in HP; discriminate HP].
  edestruct (no_episodes_left
               (set_Cassette sample_record (fresh_cassette (Cassette sample_record)))
               (New "test_cassette" []) sample_world v1 w1 NoError sample_request
               eq_refl eq_refl ltac:(discriminate) HP eq_refl eq_refl eq_refl eq_refl
               ltac:(discriminate))
    as (v2 & w2 & HS & _ & Hrt).
  exists v1, w1, v2, w2. by repeat split.
Defined.

(** ** The versions of httpvcr.go without the context *)

(** X25. The version of httpvcr.go with the session context against the
    versions without it. [Start] differs by the context it stores only.
    [RoundTrip] does the same in both, for every mode, as long as the
    context is not cancelled and, in a replaying session, the queue of
    the matcher is an end piece of the sequence of the cassette. *)
Theorem context_version_agrees :
  (forall (v : HTTPVCR) (parent : ctx_err) (w : World),
     Start v parent w = NoContext.Start (set_ctx v (Some parent)) w) /\
  (forall (v : HTTPVCR) (w : World) (request : http_Request) (c : ctx_err),
     ctx v = Some c ->
     c <> Canceled ->
     (mode v = ModeReplay -> queue_within (Cassette v)) ->
     RoundTrip v w request = NoContext.RoundTrip v w request).
Proof.
  split; [reflexivity |].
  intros v w request c Hctx Hc Hq.
  unfold RoundTrip, NoContext.RoundTrip. rewrite newVCRRequest_pair, Hctx.
  rewrite ctx_err_case, bool_decide_eq_false_2 by exact Hc.
  destruct (mode v) eqn:Hmode; decide_modes; [reflexivity | reflexivity |].
  unfold matchEpisode.
  destruct (MatchEpisode _ _) as [[e m']|msg] eqn:Hmatch; [| reflexivity].
  apply MatchEpisode_Ok_inv in Hmatch as (rest & Hhead & ->).
  cbn [outcome_bind]. cbn [mode set_Cassette Cassette Episodes]. rewrite Hmode.
  decide_modes. cbn [andb].
  specialize (Hq eq_refl). unfold queue_within in Hq. rewrite Hhead in Hq.
  destruct Hq as [k ->].
  replace (length (k ++ e :: rest) =? 0) with false
    by (symmetry; apply Nat.eqb_neq; rewrite length_app; cbn; lia).
  reflexivity.
Qed.

Lemma context_version_agrees_witness :
  RoundTrip sample_replay sample_world sample_request =
  NoContext.RoundTrip sample_replay sample_world sample_request.
Proof.
  refine (proj2 context_version_agrees sample_replay sample_world sample_request NoError
            eq_refl ltac:(discriminate) _).
  intros _. exists []. reflexivity.
Defined.
